(** * A model of the Notion MCP stdio client (src/lib/notion-mcp-server.ts)

    The development embeds the [StdioClient] class, the stdout [data]
    listener, the timeout closures of [sendRequest], the facade
    operations and the process-level [shutdownNotionMCPServer] / [exit]
    handlers as executable state-passing functions, and proves (or refutes)
    the properties the specification states about them. *)

From Stdlib Require Import ZArith NArith Ascii String.
From stdpp Require Import gmap list pretty.

Set Warnings "-register-all,-clear-no-such-hyp".

Local Open Scope N_scope.

(** ** JavaScript strings

    A JavaScript string is a sequence of UTF-16 code units.  The text of a
    stdout chunk is [data.toString()], already decoded. *)

Abbreviation jsstring := (list N).

Fixpoint str (s : string) : list N :=
  match s with
  | EmptyString => []
  | String a s' => N_of_ascii a :: str s'
  end.

(** [String.prototype.trim] strips WhiteSpace and LineTerminator code
    points (ECMA-262, 22.1.3.32): TAB, LF, VT, FF, CR, SP, NBSP, U+1680,
    U+2000..U+200A, U+2028, U+2029, U+202F, U+205F, U+3000, U+FEFF. *)
Definition is_trim_space (c : N) : bool :=
  ((9 <=? c) && (c <=? 13)) || (c =? 32) || (c =? 160) || (c =? 5760)
  || ((8192 <=? c) && (c <=? 8202)) || (c =? 8232) || (c =? 8233)
  || (c =? 8239) || (c =? 8287) || (c =? 12288) || (c =? 65279).

Fixpoint trim_start (s : list N) : list N :=
  match s with
  | [] => []
  | c :: r => if is_trim_space c then trim_start r else s
  end.

Definition trim (s : list N) : list N :=
  rev (trim_start (rev (trim_start s))).

(** [s.split("\n")]: the pieces between line feeds; an empty string gives
    one empty piece. *)
Fixpoint split_nl (s : list N) : list (list N) :=
  match s with
  | [] => [[]]
  | c :: r =>
      if c =? 10 then [] :: split_nl r
      else match split_nl r with
           | l :: ls => (c :: l) :: ls
           | [] => [[c]]
           end
  end.

(** [message.startsWith("{")] *)
Definition startsWith_brace (s : list N) : bool :=
  match s with
  | c :: _ => c =? 123
  | [] => false
  end.

(** [String(n)] for an integral Number [0 <= n < 10^21] is its decimal
    numeral. *)
Definition String_of_number (n : N) : list N := str (pretty n).

(** ** JSON values and [JSON.parse] *)

(** A JSON number keeps the exact decimal value of its literal,
    [(-1)^neg * mant * 10^exp10]; the Number it denotes is that value
    rounded to the nearest double. *)
Inductive json : Type :=
| JNull
| JBool (b : bool)
| JNumber (neg : bool) (mant : N) (exp10 : Z)
| JString (s : list N)
| JArray (elems : list json)
| JObject (fields : list (list N * json)).

(** Outcome of a parsing function: a value, the [SyntaxError] that
    [JSON.parse] throws, or exhaustion of the recursion budget (which the
    budget of [JSON_parse] excludes, see [JSON_parse_fuel]). *)
Inductive result (A : Type) : Type :=
| Ok (a : A)
| SyntaxError
| OutOfFuel.
Arguments Ok {A} a.
Arguments SyntaxError {A}.
Arguments OutOfFuel {A}.

(** JSON white space: TAB, LF, CR, SP. *)
Definition is_json_ws (c : N) : bool :=
  (c =? 9) || (c =? 10) || (c =? 13) || (c =? 32).

Fixpoint skip_ws (s : list N) : list N :=
  match s with
  | [] => []
  | c :: r => if is_json_ws c then skip_ws r else s
  end.

Definition is_digit (c : N) : bool := (48 <=? c) && (c <=? 57).

Definition hex_val (c : N) : option N :=
  if is_digit c then Some (c - 48)
  else if (97 <=? c) && (c <=? 102) then Some (c - 87)
  else if (65 <=? c) && (c <=? 70) then Some (c - 55)
  else None.

Definition hex4 (a b c d : N) : option N :=
  match hex_val a, hex_val b, hex_val c, hex_val d with
  | Some x, Some y, Some z, Some w => Some (((x * 16 + y) * 16 + z) * 16 + w)
  | _, _, _, _ => None
  end.

(** The single-character escapes: quote, backslash, slash, b, f, n, r, t. *)
Definition escape (e : N) : option N :=
  if e =? 34 then Some 34
  else if e =? 92 then Some 92
  else if e =? 47 then Some 47
  else if e =? 98 then Some 8
  else if e =? 102 then Some 12
  else if e =? 110 then Some 10
  else if e =? 114 then Some 13
  else if e =? 116 then Some 9
  else None.

(** The characters of a string literal after its opening quote, up to and
    including the closing quote. *)
Fixpoint parse_chars (s : list N) (acc : list N) : option (list N * list N) :=
  match s with
  | [] => None
  | c :: r =>
      if c =? 34 then Some (rev acc, r)
      else if c =? 92 then
        match r with
        | [] => None
        | e :: r' =>
            if e =? 117 then
              match r' with
              | h1 :: h2 :: h3 :: h4 :: r'' =>
                  match hex4 h1 h2 h3 h4 with
                  | Some u => parse_chars r'' (u :: acc)
                  | None => None
                  end
              | _ => None
              end
            else
              match escape e with
              | Some u => parse_chars r' (u :: acc)
              | None => None
              end
        end
      else if c <? 32 then None
      else parse_chars r (c :: acc)
  end.

(** A maximal run of decimal digits, folded into [acc]; also counts them. *)
Fixpoint take_digits (s : list N) (acc : N) (n : nat) : N * nat * list N :=
  match s with
  | c :: r => if is_digit c then take_digits r (acc * 10 + (c - 48)) (S n)
              else (acc, n, s)
  | [] => (acc, n, [])
  end.

(** A number literal: an optional minus sign; an integer part that is
    either a single zero or a nonzero digit followed by digits; an optional
    fraction (a dot and at least one digit); an optional exponent (e or E,
    an optional sign, at least one digit). *)
Definition parse_sign (s : list N) : bool * list N :=
  match s with
  | c :: r => if c =? 45 then (true, r) else (false, s)
  | [] => (false, s)
  end.

Definition parse_int (s : list N) : option (N * list N) :=
  match s with
  | c :: r =>
      if c =? 48 then Some (0, r)
      else if is_digit c then
        let '(m, _, r') := take_digits s 0 0%nat in Some (m, r')
      else None
  | [] => None
  end.

(** The fraction's digits extend the mantissa [m]; their number is what the
    decimal exponent loses. *)
Definition parse_frac (m : N) (s : list N) : option (N * Z * list N) :=
  match s with
  | c :: r =>
      if c =? 46 then
        let '(m', k, r') := take_digits r m 0%nat in
        match k with
        | O => None
        | S _ => Some (m', Z.of_nat k, r')
        end
      else Some (m, 0%Z, s)
  | [] => Some (m, 0%Z, s)
  end.

Definition parse_exp_sign (s : list N) : bool * list N :=
  match s with
  | d :: r => if d =? 45 then (true, r)
              else if d =? 43 then (false, r)
              else (false, s)
  | [] => (false, s)
  end.

Definition parse_exp (s : list N) : option (Z * list N) :=
  match s with
  | c :: r =>
      if (c =? 101) || (c =? 69) then
        let '(sgn, r1) := parse_exp_sign r in
        let '(e, n, r2) := take_digits r1 0 0%nat in
        match n with
        | O => None
        | S _ => Some ((if sgn then - Z.of_N e else Z.of_N e)%Z, r2)
        end
      else Some (0%Z, s)
  | [] => Some (0%Z, s)
  end.

Definition parse_number (s : list N) : option (json * list N) :=
  let '(neg, s1) := parse_sign s in
  match parse_int s1 with
  | None => None
  | Some (m, s2) =>
      match parse_frac m s2 with
      | None => None
      | Some (m', k, s3) =>
          match parse_exp s3 with
          | None => None
          | Some (e, s4) => Some (JNumber neg m' (e - k)%Z, s4)
          end
      end
  end.

(** [true], [false], [null] *)
Definition parse_literal (s : list N) : option (json * list N) :=
  match s with
  | 116 :: 114 :: 117 :: 101 :: r => Some (JBool true, r)
  | 102 :: 97 :: 108 :: 115 :: 101 :: r => Some (JBool false, r)
  | 110 :: 117 :: 108 :: 108 :: r => Some (JNull, r)
  | _ => None
  end.

Definition of_option {A} (o : option A) : result A :=
  match o with
  | Some a => Ok a
  | None => SyntaxError
  end.

(** Recursive descent over the JSON grammar.  Each function expects its
    input to start at the first significant character and returns the
    unread rest. *)
Fixpoint parse_value (fuel : nat) (s : list N) {struct fuel}
  : result (json * list N) :=
  match fuel with
  | O => OutOfFuel
  | S fuel' =>
      match s with
      | [] => SyntaxError
      | c :: r =>
          if c =? 123 then
            match skip_ws r with
            | d :: r' =>
                if d =? 125 then Ok (JObject [], r')
                else parse_members fuel' (d :: r') []
            | [] => SyntaxError
            end
          else if c =? 91 then
            match skip_ws r with
            | d :: r' =>
                if d =? 93 then Ok (JArray [], r')
                else parse_elements fuel' (d :: r') []
            | [] => SyntaxError
            end
          else if c =? 34 then
            match parse_chars r [] with
            | Some (k, r') => Ok (JString k, r')
            | None => SyntaxError
            end
          else if (c =? 45) || is_digit c then of_option (parse_number s)
          else of_option (parse_literal s)
      end
  end
with parse_elements (fuel : nat) (s : list N) (acc : list json) {struct fuel}
  : result (json * list N) :=
  match fuel with
  | O => OutOfFuel
  | S fuel' =>
      match parse_value fuel' s with
      | Ok (v, r) =>
          match skip_ws r with
          | d :: r' =>
              if d =? 44 then parse_elements fuel' (skip_ws r') (v :: acc)
              else if d =? 93 then Ok (JArray (rev (v :: acc)), r')
              else SyntaxError
          | [] => SyntaxError
          end
      | SyntaxError => SyntaxError
      | OutOfFuel => OutOfFuel
      end
  end
with parse_members (fuel : nat) (s : list N) (acc : list (list N * json))
  {struct fuel} : result (json * list N) :=
  match fuel with
  | O => OutOfFuel
  | S fuel' =>
      match s with
      | q :: r0 =>
          if q =? 34 then
            match parse_chars r0 [] with
            | Some (k, r1) =>
                match skip_ws r1 with
                | d :: r2 =>
                    if d =? 58 then
                      match parse_value fuel' (skip_ws r2) with
                      | Ok (v, r3) =>
                          match skip_ws r3 with
                          | e :: r4 =>
                              if e =? 44 then
                                parse_members fuel' (skip_ws r4) ((k, v) :: acc)
                              else if e =? 125 then
                                Ok (JObject (rev ((k, v) :: acc)), r4)
                              else SyntaxError
                          | [] => SyntaxError
                          end
                      | SyntaxError => SyntaxError
                      | OutOfFuel => OutOfFuel
                      end
                    else SyntaxError
                | [] => SyntaxError
                end
            | None => SyntaxError
            end
          else SyntaxError
      | [] => SyntaxError
      end
  end.

(** [JSON.parse(text)]: one value between optional white space. *)
Definition JSON_parse_result (text : list N) : result json :=
  match parse_value (2 * length text + 1) (skip_ws text) with
  | Ok (v, r) =>
      match skip_ws r with
      | [] => Ok v
      | _ :: _ => SyntaxError
      end
  | SyntaxError => SyntaxError
  | OutOfFuel => OutOfFuel
  end.

(** [Some v] when [JSON.parse] returns [v], [None] when it throws. *)
Definition JSON_parse (text : list N) : option json :=
  match JSON_parse_result text with
  | Ok v => Some v
  | _ => None
  end.

(** Literals of wire text are written with an apostrophe standing for the
    double quote and a vertical bar standing for the line feed. *)
Definition wire (s : string) : list N :=
  (fun c => if c =? 39 then 34 else if c =? 124 then 10 else c) <$> str s.

(** ** JavaScript values used by the client

    A value read out of a parsed response is a JSON value or [undefined]
    ([None]). *)

(** Own property [k] of an object built by [JSON.parse]: of duplicate
    members the last one wins. *)
Fixpoint get_field (k : list N) (fields : list (list N * json)) : option json :=
  match fields with
  | [] => None
  | (k', v) :: rest =>
      match get_field k rest with
      | Some w => Some w
      | None => if decide (k' = k) then Some v else None
      end
  end.

(** [v.k] for [k] one of id, error, result, message: these names are not
    on any prototype, so only an object's own member can answer. *)
Definition prop (k : list N) (v : option json) : option json :=
  match v with
  | Some (JObject fields) => get_field k fields
  | _ => None
  end.

(** The Number of [mant * 10^exp10] is zero when [mant] is, or when the
    value does not exceed half the least subnormal double, [2^-1075]. *)
Definition number_is_zero (mant : N) (exp10 : Z) : bool :=
  (mant =? 0)
  || ((exp10 <? 0)%Z && (Z.of_N mant * 2 ^ 1075 <=? 10 ^ (- exp10))%Z).

(** ToBoolean *)
Definition truthy (v : option json) : bool :=
  match v with
  | None => false
  | Some JNull => false
  | Some (JBool b) => b
  | Some (JNumber _ m e) => negb (number_is_zero m e)
  | Some (JString s) => match s with [] => false | _ :: _ => true end
  | Some (JArray _) => true
  | Some (JObject _) => true
  end.

(** [new Error(message)]; the argument is kept as passed. *)
Inductive js_error : Type :=
| Error (message : option json).

(** State of a promise. *)
Inductive promise : Type :=
| Pending
| Fulfilled (value : option json)
| Rejected (reason : js_error).

(** ** The client object *)

(** The request object of [sendRequest]; the line written to the process
    is [JSON.stringify(request) + "\n"]. *)
Record request : Type := mkRequest {
  rq_jsonrpc : list N;
  rq_id : list N;
  rq_method : list N;
  rq_params : json
}.

(** An entry of [messageQueue]: the two closures [resolve] and [reject] of
    one call, which share the timer handle they clear and the promise they
    settle. *)
Record pending_request : Type := mkPending {
  timeoutId : nat;
  settles : nat
}.

(** A timer armed by [setTimeout]: what its callback captured ([id],
    [method], the promise's [reject]) and when it is due. *)
Record timer : Type := mkTimer {
  tm_id : list N;
  tm_method : list N;
  tm_rejects : nat;
  tm_due : N
}.

(** A suspended [async] body awaiting a promise of [sendRequest]:
    [listTools] (with its [try]/[catch]) or the [call] of [getTool], each
    with the promise it returned to its caller. *)
Inductive frame : Type :=
| ListToolsFrame (awaited outer : nat)
| CallFrame (awaited outer : nat).

Definition awaited_of (f : frame) : nat :=
  match f with
  | ListToolsFrame p _ => p
  | CallFrame p _ => p
  end.

Definition outer_of (f : frame) : nat :=
  match f with
  | ListToolsFrame _ o => o
  | CallFrame _ o => o
  end.

(** Lines written to the console. *)
Inductive log_entry : Type :=
| RawResponse (rawData : list N)
| SkippingNonJSON (message : list N)
| ParsedResponse (response : json)
| ResponseHasNoId (message : list N)
| ErrorInResponse (error : option json)
| NoPendingRequest (id : json)
| ErrorParsingJSON (message : list N)
| SendingRequest (rq : request)
| ErrorListingTools (reason : js_error).

(** The fields of [StdioClient] and what its closures own:
    - [stdin]: the lines written so far, oldest first;
    - [promises]: the promise made by [new Promise] in the n-th call of
      [sendRequest], at index n;
    - [timers]: the armed timers; the n-th call's timer has handle n;
    - [returned]: the promises returned by the [async] facade functions;
    - [frames]: their suspended bodies;
    - [console], and [now]: the clock of the event loop, in ms. *)
Record StdioClient : Type := mkClient {
  stdin : list request;
  messageQueue : gmap (list N) pending_request;
  messageId : N;
  promises : list promise;
  timers : gmap nat timer;
  returned : list promise;
  frames : list frame;
  console : list log_entry;
  now : N
}.

(** [new StdioClient(...)] at clock [t]. *)
Definition new_StdioClient (t : N) : StdioClient :=
  mkClient [] ∅ 0 [] ∅ [] [] [] t.

Definition log (e : log_entry) (st : StdioClient) : StdioClient :=
  mkClient (stdin st) (messageQueue st) (messageId st) (promises st)
           (timers st) (returned st) (frames st) (console st ++ [e]) (now st).

Definition set_messageQueue (q : gmap (list N) pending_request)
  (st : StdioClient) : StdioClient :=
  mkClient (stdin st) q (messageId st) (promises st)
           (timers st) (returned st) (frames st) (console st) (now st).

Definition set_messageId (n : N) (st : StdioClient) : StdioClient :=
  mkClient (stdin st) (messageQueue st) n (promises st)
           (timers st) (returned st) (frames st) (console st) (now st).

Definition set_promises (ps : list promise) (st : StdioClient) : StdioClient :=
  mkClient (stdin st) (messageQueue st) (messageId st) ps
           (timers st) (returned st) (frames st) (console st) (now st).

Definition set_timers (ts : gmap nat timer) (st : StdioClient) : StdioClient :=
  mkClient (stdin st) (messageQueue st) (messageId st) (promises st)
           ts (returned st) (frames st) (console st) (now st).

Definition set_returned (rs : list promise) (st : StdioClient) : StdioClient :=
  mkClient (stdin st) (messageQueue st) (messageId st) (promises st)
           (timers st) rs (frames st) (console st) (now st).

Definition set_frames (fs : list frame) (st : StdioClient) : StdioClient :=
  mkClient (stdin st) (messageQueue st) (messageId st) (promises st)
           (timers st) (returned st) fs (console st) (now st).

Definition set_now (t : N) (st : StdioClient) : StdioClient :=
  mkClient (stdin st) (messageQueue st) (messageId st) (promises st)
           (timers st) (returned st) (frames st) (console st) t.

(** [this.stdin.write(JSON.stringify(request) + "\n")] *)
Definition stdin_write (rq : request) (st : StdioClient) : StdioClient :=
  mkClient (stdin st ++ [rq]) (messageQueue st) (messageId st) (promises st)
           (timers st) (returned st) (frames st) (console st) (now st).

(** The resolving functions of a promise: the first call settles it, later
    calls do nothing. *)
Definition settle_in (p : nat) (o : promise) (ps : list promise) : list promise :=
  match ps !! p with
  | Some Pending => <[p := o]> ps
  | _ => ps
  end.

Definition settle (p : nat) (o : promise) (st : StdioClient) : StdioClient :=
  set_promises (settle_in p o (promises st)) st.

Definition settle_returned (p : nat) (o : promise) (st : StdioClient)
  : StdioClient :=
  set_returned (settle_in p o (returned st)) st.

Definition clearTimeout (t : nat) (st : StdioClient) : StdioClient :=
  set_timers (delete t (timers st)) st.

(** [pendingRequest.resolve(value)] and [pendingRequest.reject(reason)] *)
Definition entry_resolve (e : pending_request) (value : option json)
  (st : StdioClient) : StdioClient :=
  settle (settles e) (Fulfilled value) (clearTimeout (timeoutId e) st).

Definition entry_reject (e : pending_request) (reason : js_error)
  (st : StdioClient) : StdioClient :=
  settle (settles e) (Rejected reason) (clearTimeout (timeoutId e) st).

(** [this.messageQueue.get(id)]: the keys are strings, and a [Map] compares
    with SameValueZero, so only a string can find one. *)
Definition queue_get (id : json) (q : gmap (list N) pending_request)
  : option pending_request :=
  match id with
  | JString s => q !! s
  | _ => None
  end.

Definition queue_delete (id : json) (q : gmap (list N) pending_request)
  : gmap (list N) pending_request :=
  match id with
  | JString s => delete s q
  | _ => q
  end.

(** *** The stdout listener (constructor, lines 106-161) *)

(** Whether ToString of a value returns.  An object made by [JSON.parse]
    gives "[object Object]" unless it has a member [toString] of its own:
    that member is no function, [valueOf] gives no primitive either, and
    the conversion throws a [TypeError].  An array joins the strings of its
    elements, taking null as the empty string. *)
Fixpoint to_string_ok (v : json) : bool :=
  match v with
  | JObject fields =>
      negb (bool_decide (is_Some (get_field (str "toString") fields)))
  | JArray elems => forallb to_string_ok elems
  | _ => true
  end.

(** [new Error(message)] takes the string of [message] unless it is
    undefined: whether it returns. *)
Definition new_Error_ok (message : option json) : bool :=
  match message with
  | Some v => to_string_ok v
  | None => true
  end.

(** What the entry found for a response is told, lines 139-146: nothing
    when [new Error(response.error.message)] throws. *)
Definition response_outcome (response : json) : option promise :=
  let error := prop (str "error") (Some response) in
  if truthy error then
    if new_Error_ok (prop (str "message") error)
    then Some (Rejected (Error (prop (str "message") error)))
    else None
  else Some (Fulfilled (prop (str "result") (Some response))).

(** Lines 126-150, after [JSON.parse] returned [response].  What the
    inner [try] throws, the [TypeError] of [new Error] in line 143 or of
    the template literal in line 149, is caught in lines 151-156, which
    log it like a parse error; the rest of the [try] is skipped. *)
Definition dispatch (message : list N) (response : json) (st : StdioClient)
  : StdioClient :=
  let st := log (ParsedResponse response) st in
  match prop (str "id") (Some response) with
  | None => log (ResponseHasNoId message) st
  | Some id =>
      if negb (truthy (Some id)) then log (ResponseHasNoId message) st
      else
        match queue_get id (messageQueue st) with
        | Some pendingRequest =>
            let error := prop (str "error") (Some response) in
            if truthy error then
              let st := log (ErrorInResponse error) st in
              if new_Error_ok (prop (str "message") error) then
                let st :=
                  entry_reject pendingRequest
                    (Error (prop (str "message") error)) st in
                set_messageQueue (queue_delete id (messageQueue st)) st
              else log (ErrorParsingJSON message) st
            else
              let st :=
                entry_resolve pendingRequest
                  (prop (str "result") (Some response)) st in
              set_messageQueue (queue_delete id (messageQueue st)) st
        | None =>
            if to_string_ok id then log (NoPendingRequest id) st
            else log (ErrorParsingJSON message) st
        end
  end.

(** The body of the [for] loop, lines 116-156. *)
Definition handle_message (message : list N) (st : StdioClient) : StdioClient :=
  match message with
  | [] => st
  | _ :: _ =>
      if negb (startsWith_brace message) then log (SkippingNonJSON message) st
      else
        match JSON_parse message with
        | Some response => dispatch message response st
        | None => log (ErrorParsingJSON message) st
        end
  end.

Definition handle_messages (messages : list (list N)) (st : StdioClient)
  : StdioClient :=
  foldl (fun s m => handle_message m s) st messages.

(** The listener itself.  Nothing in its outer [try] can throw, so the
    outer [catch] has no behaviour. *)
Definition on_data (rawData : list N) (st : StdioClient) : StdioClient :=
  handle_messages (split_nl (trim rawData)) (log (RawResponse rawData) st).

(** *** [sendRequest] (lines 197-234) *)

(** [this.messageId++] on a Number holding an integer of [0 .. 2^53]:
    exact below [2^53]; at [2^53] the sum [2^53 + 1] is not a double and
    rounds (to even) back to [2^53]. *)
Definition js_incr (n : N) : N := if n <? 2 ^ 53 then n + 1 else n.

Definition timeout_ms : N := 10000.

(** The states a call of [sendRequest] passes through, one after each
    effect of lines 201-232 and in their order: the counter is advanced
    (201), the request is logged (209), the promise is created (211), the
    timer is armed (213-218), the entry is registered (220-229), the line
    is written (231-232). *)
Definition sendRequest_states (method : list N) (params : json)
  (st : StdioClient) : list StdioClient :=
  let id := String_of_number (messageId st) in
  let rq := mkRequest (str "2.0") id method params in
  let p := length (promises st) in
  let counted := set_messageId (js_incr (messageId st)) st in
  let logged := log (SendingRequest rq) counted in
  let created := set_promises (promises logged ++ [Pending]) logged in
  let armed :=
    set_timers
      (<[p := mkTimer id method p (now created + timeout_ms)]> (timers created))
      created in
  let registered :=
    set_messageQueue (<[id := mkPending p p]> (messageQueue armed)) armed in
  let written := stdin_write rq registered in
  [counted; logged; created; armed; registered; written].

(** The request, the promise and the state in which [this.stdin.write]
    runs: the last state but one. *)
Definition sendRequest_register (method : list N) (params : json)
  (st : StdioClient) : request * nat * StdioClient :=
  (mkRequest (str "2.0") (String_of_number (messageId st)) method params,
   length (promises st),
   List.last (removelast (sendRequest_states method params st)) st).

(** Returns the promise handed to the caller together with the state the
    call ends in. *)
Definition sendRequest (method : list N) (params : json) (st : StdioClient)
  : nat * StdioClient :=
  (length (promises st), List.last (sendRequest_states method params st) st).

(** The callback given to [setTimeout], lines 213-218. *)
Definition timeout_message (method : list N) : js_error :=
  Error (Some (JString (str "Request timed out after 10 seconds: " ++ method))).

Definition timeout_callback (t : timer) (st : StdioClient) : StdioClient :=
  match messageQueue st !! tm_id t with
  | Some _ =>
      settle (tm_rejects t) (Rejected (timeout_message (tm_method t)))
             (set_messageQueue (delete (tm_id t) (messageQueue st)) st)
  | None => st
  end.

(** The event loop runs the callback of an armed timer once it is due;
    a cleared, fired or early timer does not run. *)
Definition fire (k : nat) (st : StdioClient) : StdioClient :=
  match timers st !! k with
  | Some t =>
      if tm_due t <=? now st
      then timeout_callback t (set_timers (delete k (timers st)) st)
      else st
  | None => st
  end.

(** *** The facade (lines 165-194) *)

Definition server_info : json :=
  JObject [(str "name", JString (str "notion-mcp-server"));
           (str "version", JString (str "1.5.0"))].

(** [getServerInfo]: an [async] body that only returns a literal; the
    promise it returns is already fulfilled. *)
Definition getServerInfo (st : StdioClient) : promise * StdioClient :=
  (Fulfilled (Some server_info), st).

(** An [async] function creates the promise it returns, then runs its body
    up to the first [await]. *)
Definition async_promise (st : StdioClient) : nat * StdioClient :=
  (length (returned st), set_returned (returned st ++ [Pending]) st).

Definition suspend (f : frame) (st : StdioClient) : StdioClient :=
  set_frames (frames st ++ [f]) st.

(** [listTools]: sends tools/list and awaits the answer inside [try]. *)
Definition listTools (st : StdioClient) : nat * StdioClient :=
  let '(outer, st) := async_promise st in
  let '(p, st) := sendRequest (str "tools/list") (JObject []) st in
  (outer, suspend (ListToolsFrame p outer) st).

(** [getTool(namespace, name).call(params)] *)
Definition getTool_call (namespace name : list N) (params : json)
  (st : StdioClient) : nat * StdioClient :=
  let toolName := namespace ++ str "-" ++ name in
  let '(outer, st) := async_promise st in
  let '(p, st) :=
    sendRequest (str "tools/call")
      (JObject [(str "name", JString toolName); (str "arguments", params)])
      st in
  (outer, suspend (CallFrame p outer) st).

Definition no_tools : json := JObject [(str "tools", JArray [])].

(** Resuming a suspended body once the promise it awaits is settled; a body
    still waiting is put back.  [listTools] returns the result as it is,
    or logs the failure and returns the empty tool list; [call] hands on
    whatever [sendRequest] produced. *)
Definition resume (f : frame) (st : StdioClient) : StdioClient :=
  match f with
  | ListToolsFrame p outer =>
      match promises st !! p with
      | Some (Fulfilled result) => settle_returned outer (Fulfilled result) st
      | Some (Rejected error) =>
          settle_returned outer (Fulfilled (Some no_tools))
                          (log (ErrorListingTools error) st)
      | _ => suspend f st
      end
  | CallFrame p outer =>
      match promises st !! p with
      | Some (Fulfilled v) => settle_returned outer (Fulfilled v) st
      | Some (Rejected e) => settle_returned outer (Rejected e) st
      | _ => suspend f st
      end
  end.

(** The microtask checkpoint after a callback of the event loop. *)
Definition run_microtasks (st : StdioClient) : StdioClient :=
  foldl (fun s f => resume f s) (set_frames [] st) (frames st).

(** *** Runs of one client *)

Inductive event : Type :=
| CallSendRequest (method : list N) (params : json)
| CallListTools
| CallTool (namespace name : list N) (params : json)
| CallGetServerInfo
| StdoutData (rawData : list N)
| TimerDue (k : nat)
| Elapse (ms : N).

Definition handle (e : event) (st : StdioClient) : StdioClient :=
  match e with
  | CallSendRequest method params => snd (sendRequest method params st)
  | CallListTools => snd (listTools st)
  | CallTool namespace name params => snd (getTool_call namespace name params st)
  | CallGetServerInfo => snd (getServerInfo st)
  | StdoutData rawData => on_data rawData st
  | TimerDue k => fire k st
  | Elapse ms => set_now (now st + ms) st
  end.

Definition step (e : event) (st : StdioClient) : StdioClient :=
  run_microtasks (handle e st).

Definition run (tr : list event) (st : StdioClient) : StdioClient :=
  foldl (fun s e => step e s) st tr.

(** States a client object can be in. *)
Definition reachable (st : StdioClient) : Prop :=
  exists t tr, st = run tr (new_StdioClient t).

(** ** The process supervisor (lines 31-32, 270-292) *)

Inductive supervisor_log : Type :=
| ShuttingDown (reason : list N)
| ProcessExited (code signal : option N).

(** The module variables, the client objects that exist (a variable only
    refers to one), the processes that were sent [kill()], and the
    supervisor's console lines. *)
Record world : Type := mkWorld {
  notionMCPServerProcess : option nat;
  notionMCPClient : option nat;
  objects : gmap nat StdioClient;
  killed : list nat;
  supervisor_console : list supervisor_log
}.

Definition shutdownNotionMCPServer (reason : list N) (w : world) : world :=
  let out := supervisor_console w ++ [ShuttingDown reason] in
  match notionMCPServerProcess w with
  | Some proc => mkWorld None None (objects w) (killed w ++ [proc]) out
  | None =>
      mkWorld (notionMCPServerProcess w) (notionMCPClient w) (objects w)
              (killed w) out
  end.

(** The listener of the process's [exit] event. *)
Definition on_exit (code signal : option N) (w : world) : world :=
  mkWorld None None (objects w) (killed w)
          (supervisor_console w ++ [ProcessExited code signal]).

(** An event of client object [a], delivered while the world is [w]. *)
Definition client_event (a : nat) (e : event) (w : world) : world :=
  match objects w !! a with
  | Some st =>
      mkWorld (notionMCPServerProcess w) (notionMCPClient w)
              (<[a := step e st]> (objects w)) (killed w)
              (supervisor_console w)
  | None => w
  end.

(** ** What holds of every state of a client *)

(** The part of the invariant that the callbacks themselves maintain. *)
Record consistent (st : StdioClient) : Prop := mkConsistent {
  con_length : length (promises st) = length (stdin st);
  con_ids : forall i rq, stdin st !! i = Some rq ->
      rq_id rq = String_of_number (N.min (N.of_nat i) (2 ^ 53));
  con_next : messageId st = N.min (N.of_nat (length (stdin st))) (2 ^ 53);
  con_timers : forall k t, timers st !! k = Some t ->
      tm_rejects t = k /\ promises st !! k = Some Pending
      /\ exists rq, stdin st !! k = Some rq
           /\ rq_id rq = tm_id t /\ rq_method rq = tm_method t;
  con_queue : forall id e, messageQueue st !! id = Some e ->
      timeoutId e = settles e
      /\ exists t, timers st !! timeoutId e = Some t /\ tm_id t = id;
  con_outers : forall f, f ∈ frames st ->
      returned st !! outer_of f = Some Pending
      /\ is_Some (promises st !! awaited_of f);
  con_frames : NoDup (outer_of <$> frames st);
  con_due : forall k t, timers st !! k = Some t ->
      tm_due t <= now st + timeout_ms
}.

(** Between two callbacks of the event loop no suspended body is left
    waiting for a settled promise. *)
Definition quiescent (st : StdioClient) : Prop :=
  forall f, f ∈ frames st -> promises st !! awaited_of f = Some Pending.

(** Several console lines at once. *)
Definition logs (es : list log_entry) (st : StdioClient) : StdioClient :=
  mkClient (stdin st) (messageQueue st) (messageId st) (promises st)
           (timers st) (returned st) (frames st) (console st ++ es) (now st).

(** The envelope handling of lines 136-147 when the table holds entry [e]
    under the string [s]: after the console lines [es], [e] is told
    outcome [o] and dropped. *)
Definition answered (s : list N) (e : pending_request) (o : promise)
  (es : list log_entry) (st : StdioClient) : StdioClient :=
  set_messageQueue (delete s (messageQueue st))
    (settle (settles e) o (clearTimeout (timeoutId e) (logs es st))).

(** Console lines of one envelope that finds its entry. *)
Definition answered_lines (response : json) : list log_entry :=
  ParsedResponse response
  :: (if truthy (prop (str "error") (Some response))
      then [ErrorInResponse (prop (str "error") (Some response))] else []).

(** What a suspended body returns once the promise it awaits is settled. *)
Definition frame_outcome (f : frame) (ps : list promise) : option promise :=
  match ps !! awaited_of f with
  | Some (Fulfilled v) => Some (Fulfilled v)
  | Some (Rejected e) =>
      match f with
      | ListToolsFrame _ _ => Some (Fulfilled (Some no_tools))
      | CallFrame _ _ => Some (Rejected e)
      end
  | _ => None
  end.

(** Two states that differ at most in the facade's promises and frames and
    in the console. *)
Definition same_core (st st' : StdioClient) : Prop :=
  stdin st' = stdin st /\ messageQueue st' = messageQueue st
  /\ messageId st' = messageId st /\ promises st' = promises st
  /\ timers st' = timers st /\ now st' = now st.

(** Two states that differ at most in their console. *)
Definition same_but_console (st st' : StdioClient) : Prop :=
  stdin st' = stdin st /\ messageQueue st' = messageQueue st
  /\ messageId st' = messageId st /\ promises st' = promises st
  /\ timers st' = timers st /\ returned st' = returned st
  /\ frames st' = frames st /\ now st' = now st.

(** The console line of a line of a chunk that is not taken as an
    envelope; an empty line gets none of its own. *)
Definition malformed_lines (bad : list N) : list log_entry :=
  match bad with
  | [] => []
  | _ :: _ =>
      if startsWith_brace bad then [ErrorParsingJSON bad]
      else [SkippingNonJSON bad]
  end.

(** The envelopes the listener parses out of one chunk: of the lines of the
    trimmed text, those that start with a brace and that [JSON.parse]
    accepts. *)
Definition frame_chunk (rawData : list N) : list json :=
  omap (fun m => if startsWith_brace m then JSON_parse m else None)
       (split_nl (trim rawData)).

(** The envelopes the console shows as parsed. *)
Definition parsed_envelopes (es : list log_entry) : list json :=
  omap (fun e => match e with ParsedResponse r => Some r | _ => None end) es.

(** A suspended body and the promise it returned: while the awaited promise
    is pending the body waits; once it is settled the returned promise has
    the body's outcome. *)
Definition linked (f : frame) (st : StdioClient) : Prop :=
  match frame_outcome f (promises st) with
  | Some o => returned st !! outer_of f = Some o
  | None => f ∈ frames st
  end.

(** The largest value the counter [messageId] can take: above it a Number
    no longer holds every integer. *)
Definition counter_limit : N := 2 ^ 53.

(** Each written request is either still registered under its identifier,
    with its own entry and a pending promise, or its promise is settled
    and it is not in the table. *)
Definition tracked (st : StdioClient) : Prop :=
  forall i rq, stdin st !! i = Some rq ->
    (messageQueue st !! rq_id rq = Some (mkPending i i)
     /\ promises st !! i = Some Pending)
    \/ (messageQueue st !! rq_id rq = None
        /\ exists o, promises st !! i = Some o /\ o <> Pending).

(** The states a client passes through from [st] on, also inside a chunk
    and before the microtasks of an event have run: the raw chunk is
    logged, a line is handled, an event is handled, the microtasks run. *)
Inductive later_than (st : StdioClient) : StdioClient -> Prop :=
| later_now : later_than st st
| later_chunk st' rawData :
    later_than st st' -> later_than st (log (RawResponse rawData) st')
| later_line st' message :
    later_than st st' -> later_than st (handle_message message st')
| later_handle st' e :
    later_than st st' -> later_than st (handle e st')
| later_microtasks st' :
    later_than st st' -> later_than st (run_microtasks st').


(** An event that is neither a chunk from the server nor the timer of
    promise [i]. *)
Definition quiet (i : nat) (e : event) : Prop :=
  match e with
  | StdoutData _ => False
  | TimerDue k => k <> i
  | _ => True
  end.

(** ** Sample states *)

(** A client that has sent one tools/call request and has no answer yet. *)
Definition one_pending_client : StdioClient :=
  run [CallSendRequest (str "tools/call") (JObject [])] (new_StdioClient 0).

(** The world right after initialisation, with process 1, that client as
    object 0, and both module variables set. *)
Definition one_pending_world : world :=
  mkWorld (Some 1%nat) (Some 0%nat) {[0%nat := one_pending_client]} [] [].

(** A client that has sent two requests, with identifiers 0 and 1, and has
    no answer yet. *)
Definition two_pending_client : StdioClient :=
  run [CallSendRequest (str "tools/call") (JObject []);
       CallSendRequest (str "tools/call") (JObject [])] (new_StdioClient 0).

(** The same request sent [n] times in a row. *)
Definition sends (n : nat) : list event :=
  replicate n (CallSendRequest (str "tools/call") (JObject [])).

(** A client that has been asked to send [2^53 + 2] requests. *)
Definition worn_client : StdioClient :=
  run (sends (N.to_nat (2 ^ 53 + 2))) (new_StdioClient 0).

(** A client that sends [2^53 + 1] requests, a millisecond later one more,
    and whose timer of request number [2^53] runs when it is due, 10
    seconds after that request. *)
Definition collided_client : StdioClient :=
  run [CallSendRequest (str "tools/call") (JObject []);
       Elapse 1;
       CallSendRequest (str "tools/call") (JObject []);
       Elapse 9999;
       TimerDue (N.to_nat (2 ^ 53))]
      (run (sends (N.to_nat (2 ^ 53))) (new_StdioClient 0)).

(** An error response to request 1, as a line and as parsed. *)
Definition boom_message : list N :=
  wire "{'id':'1','error':{'message':'boom'}}".

Definition boom_response : json :=
  JObject [(str "id", JString (str "1"));
           (str "error", JObject [(str "message", JString (str "boom"))])].

(** A client whose one request has gone unanswered for ten seconds. *)
Definition overdue_client : StdioClient :=
  run [CallSendRequest (str "tools/call") (JObject []); Elapse 10000]
      (new_StdioClient 0).

Definition overdue_request : request :=
  mkRequest (str "2.0") (str "0") (str "tools/call") (JObject []).

Definition overdue_timer : timer :=
  mkTimer (str "0") (str "tools/call") 0 10000.

(** A chunk with a line of noise before an answer to request 0. *)
Definition noisy_chunk : list N := wire "noise|{'id':'0','result':{}}|".



(** ** Further notions used to describe the client *)

(** [lines.join("\n")] *)
Fixpoint join_nl (lines : list (list N)) : list N :=
  match lines with
  | [] => []
  | [l] => l
  | l :: rest => l ++ 10 :: join_nl rest
  end.

(** The request an event writes to the process, if it is a call. *)
Definition written_by (e : event) (st : StdioClient) : list request :=
  let id := String_of_number (messageId st) in
  match e with
  | CallSendRequest method params =>
      [mkRequest (str "2.0") id method params]
  | CallListTools =>
      [mkRequest (str "2.0") id (str "tools/list") (JObject [])]
  | CallTool namespace name params =>
      [mkRequest (str "2.0") id (str "tools/call")
         (JObject [(str "name", JString (namespace ++ str "-" ++ name));
                   (str "arguments", params)])]
  | _ => []
  end.

(** The console lines of an envelope that finds no entry. *)
Definition unmatched_lines (message : list N) (response : json)
  : list log_entry :=
  [ParsedResponse response;
   match prop (str "id") (Some response) with
   | Some id =>
       if truthy (Some id) then NoPendingRequest id
       else ResponseHasNoId message
   | None => ResponseHasNoId message
   end].

(** ** Initialisation and the host process
    (lines 35-80, 236-280 and 297-307) *)

(** [hay.startsWith(needle)] and [hay.includes(needle)] on strings *)
Fixpoint starts_with (needle hay : list N) : bool :=
  match needle, hay with
  | [], _ => true
  | n :: ns, h :: hs => (n =? h) && starts_with ns hs
  | _ :: _, [] => false
  end.

Fixpoint includes (needle hay : list N) : bool :=
  starts_with needle hay
  || match hay with
     | [] => false
     | _ :: hs => includes needle hs
     end.

(** [array.includes(needle)] for a string [needle]: some element is that
    string. *)
Definition array_includes (needle : list N) (elems : list json) : bool :=
  existsb (fun x => match x with
                    | JString s => bool_decide (s = needle)
                    | _ => false
                    end) elems.

(** What is thrown: an [Error] made by the code, or the [TypeError] the
    engine raises on a property of null or undefined or on calling what is
    no function. *)
Inductive thrown : Type :=
| Thrown (e : js_error)
| TypeError.

(** The callback of [tools.find], line 257-258:
    [tool.name.includes("search") || tool.name.includes("notion-search")].
    [includes] exists on strings and on arrays only. *)
Definition is_search_tool (tool : json) : option bool :=
  match tool with
  | JNull => None
  | _ =>
      match prop (str "name") (Some tool) with
      | Some (JString s) =>
          Some (includes (str "search") s || includes (str "notion-search") s)
      | Some (JArray l) =>
          Some (array_includes (str "search") l
                || array_includes (str "notion-search") l)
      | _ => None
      end
  end.

(** [tools.find(...)]: the first tool the callback accepts; [None] when the
    callback throws before that. *)
Fixpoint find_search_tool (tools : list json) : option (option json) :=
  match tools with
  | [] => Some None
  | tool :: rest =>
      match is_search_tool tool with
      | None => None
      | Some true => Some (Some tool)
      | Some false => find_search_tool rest
      end
  end.

(** [tools.map((t) => t.name).join(", ")]: [t.name] throws on a null
    element, [join] where the string of a name cannot be taken. *)
Definition tool_names (tools : list json) : option (list (option json)) :=
  if existsb (fun t => match t with JNull => true | _ => false end) tools
  then None
  else
    let names := (fun t => prop (str "name") (Some t)) <$> tools in
    if forallb (fun n => match n with
                         | Some v => to_string_ok v
                         | None => true
                         end) names
    then Some names
    else None.

(** [const { tools } = result]: throws on undefined and null. *)
Definition destructure_tools (result : option json) : option (option json) :=
  match result with
  | None => None
  | Some JNull => None
  | Some v => Some (prop (str "tools") (Some v))
  end.

(** Lines of the console written by initialisation and by the listener of
    the server's stderr. *)
Inductive host_log : Type :=
| ServerStderr (data : list N)
| ConnectedTo (info : json)
| AvailableTools (names : list (option json))
| SearchToolNotFound
| FailedToConnect (error : thrown).

(** The host: the module variables and client objects ([globals]), the
    child processes spawned so far with the API key each was given, the
    child processes the [exit] listener of lines 271-277 is attached to,
    the number of times [setupShutdownHandlers] ran, whether the host
    process has exited, and the console lines of initialisation. *)
Record host : Type := mkHost {
  globals : world;
  children : list (list N);
  exit_listeners : list nat;
  shutdown_hooks : nat;
  host_exited : bool;
  host_console : list host_log
}.

Definition set_globals (w : world) (h : host) : host :=
  mkHost w (children h) (exit_listeners h) (shutdown_hooks h)
         (host_exited h) (host_console h).

Definition host_logs (es : list host_log) (h : host) : host :=
  mkHost (globals h) (children h) (exit_listeners h) (shutdown_hooks h)
         (host_exited h) (host_console h ++ es).

(** How a call of [initNotionMCPServer] stands: finished, suspended at
    [await getServerInfo()], or suspended at [await listTools()] on the
    promise [outer] of client object [a]. *)
Inductive init_outcome : Type :=
| InitReturned (client : option nat)
| InitThrew (e : thrown).

Inductive init_progress : Type :=
| InitDone (o : init_outcome)
| InitAwaitsInfo
| InitAwaitsTools (a outer : nat).

Definition missing_key_error : js_error :=
  Error (Some (JString
    (str "NOTION_API_KEY is not defined in environment variables"))).

(** Lines 45-80 and 236-244, up to [await getServerInfo()].  [key] is
    [process.env.NOTION_API_KEY], [t] the clock.  The spawned child gets
    the next process number, the client object a new address. *)
Definition init_enter (key : option (list N)) (t : N) (h : host)
  : init_progress * host :=
  let w := globals h in
  match notionMCPClient w with
  | Some a => (InitDone (InitReturned (Some a)), h)
  | None =>
      match key with
      | None => (InitDone (InitThrew (Thrown missing_key_error)), h)
      | Some [] => (InitDone (InitThrew (Thrown missing_key_error)), h)
      | Some (c :: k) =>
          let proc := length (children h) in
          let a := fresh (dom (objects w)) in
          let w' := mkWorld (Some proc) (Some a)
                      (<[a := new_StdioClient t]> (objects w))
                      (killed w) (supervisor_console w) in
          (InitAwaitsInfo,
           mkHost w' (children h ++ [c :: k]) (exit_listeners h)
                  (shutdown_hooks h) (host_exited h) (host_console h))
      end
  end.

(** The [catch] of lines 264-268. *)
Definition init_fail (e : thrown) (h : host) : init_progress * host :=
  let h := host_logs [FailedToConnect e] h in
  (InitDone (InitThrew e),
   set_globals
     (shutdownNotionMCPServer (str "Failed to connect") (globals h)) h).

(** Lines 245-250: after the server info arrived, log it and call
    [listTools] on whatever client the module variable holds now. *)
Definition init_list_tools (h : host) : init_progress * host :=
  let h := host_logs [ConnectedTo server_info] h in
  match notionMCPClient (globals h) with
  | None => init_fail TypeError h
  | Some a =>
      match objects (globals h) !! a with
      | Some st =>
          (InitAwaitsTools a (listTools st).1,
           set_globals (client_event a CallListTools (globals h)) h)
      | None => (InitAwaitsTools a 0, h)
      end
  end.

(** Lines 250-263 once [listTools] has answered [result], then lines
    271-279. *)
Definition init_check (result : option json) (h : host)
  : init_progress * host :=
  match destructure_tools result with
  | None => init_fail TypeError h
  | Some (Some (JArray tools)) =>
      match tool_names tools with
      | None => init_fail TypeError h
      | Some names =>
          let h := host_logs [AvailableTools names] h in
          match find_search_tool tools with
          | None => init_fail TypeError h
          | Some searchTool =>
              let h := match searchTool with
                       | Some _ => h
                       | None => host_logs [SearchToolNotFound] h
                       end in
              match notionMCPServerProcess (globals h) with
              | None => (InitDone (InitThrew TypeError), h)
              | Some proc =>
                  (InitDone (InitReturned (notionMCPClient (globals h))),
                   mkHost (globals h) (children h) (exit_listeners h ++ [proc])
                          (shutdown_hooks h) (host_exited h) (host_console h))
              end
          end
      end
  | Some _ => init_fail TypeError h
  end.

(** The continuation of [await listTools()]: it runs once the awaited
    promise of client object [a] is settled. *)
Definition init_finish (a outer : nat) (h : host) : init_progress * host :=
  match objects (globals h) !! a with
  | Some st =>
      match returned st !! outer with
      | Some (Fulfilled result) => init_check result h
      | Some (Rejected e) => init_fail (Thrown e) h
      | _ => (InitAwaitsTools a outer, h)
      end
  | None => (InitAwaitsTools a outer, h)
  end.

(** The listener of the server's stderr, lines 76-78. *)
Definition on_stderr (data : list N) (h : host) : host :=
  host_logs [ServerStderr data] h.

(** The [exit] event of child process [proc]: each listener attached to
    it runs. *)
Definition child_exit (proc : nat) (code signal : option N) (h : host)
  : host :=
  set_globals
    (foldr (fun p w => if decide (p = proc) then on_exit code signal w else w)
           (globals h) (exit_listeners h))
    h.

(** Events of a client object, delivered to the host. *)
Definition client_events (a : nat) (tr : list event) (h : host) : host :=
  set_globals (foldl (fun w e => client_event a e w) (globals h) tr) h.

(** [setupShutdownHandlers], lines 297-307: one more listener each for the
    host's [exit], [SIGINT] and [SIGTERM]. *)
Definition setupShutdownHandlers (h : host) : host :=
  mkHost (globals h) (children h) (exit_listeners h) (S (shutdown_hooks h))
         (host_exited h) (host_console h).

(** The host's [exit] event: every registered listener calls
    [shutdownNotionMCPServer("process exit")], then the host is gone. *)
Definition host_exit (h : host) : host :=
  mkHost (Nat.iter (shutdown_hooks h)
            (shutdownNotionMCPServer (str "process exit")) (globals h))
         (children h) (exit_listeners h) (shutdown_hooks h) true
         (host_console h).

(** [SIGINT] or [SIGTERM]: the first registered listener shuts the server
    down and calls [process.exit(0)], which emits [exit]; with no listener
    the host just ends. *)
Definition on_signal (name : list N) (h : host) : host :=
  match shutdown_hooks h with
  | O => mkHost (globals h) (children h) (exit_listeners h) 0 true
                (host_console h)
  | S _ =>
      host_exit
        (set_globals
           (shutdownNotionMCPServer (name ++ str " signal") (globals h)) h)
  end.

(** A host in which nothing has run yet. *)
Definition new_host : host :=
  mkHost (mkWorld None None ∅ [] []) [] [] 0 false [].

(** What can happen to the host.  The three parts of an initialisation are
    separate events; runs in which they occur in any order include all the
    runs the code can make. *)
Inductive host_event : Type :=
| HInitEnter (key : option (list N)) (t : N)
| HInitListTools
| HInitFinish (a outer : nat)
| HShutdown (reason : list N)
| HChildExit (proc : nat) (code signal : option N)
| HClient (a : nat) (e : event)
| HStderr (data : list N)
| HSetup
| HSignal (name : list N)
| HExit.

Definition host_step (e : host_event) (h : host) : host :=
  match e with
  | HInitEnter key t => (init_enter key t h).2
  | HInitListTools => (init_list_tools h).2
  | HInitFinish a outer => (init_finish a outer h).2
  | HShutdown reason =>
      set_globals (shutdownNotionMCPServer reason (globals h)) h
  | HChildExit proc code signal => child_exit proc code signal h
  | HClient a e => client_events a [e] h
  | HStderr data => on_stderr data h
  | HSetup => setupShutdownHandlers h
  | HSignal name => on_signal name h
  | HExit => host_exit h
  end.

Definition host_run (tr : list host_event) (h : host) : host :=
  foldl (fun s e => host_step e s) h tr.

Definition host_reachable (h : host) : Prop :=
  exists tr, h = host_run tr new_host.

(** The module variables are set and cleared together, the client
    variable refers to an existing object, every client object is in a
    state a client can be in, and every process number in use was
    spawned. *)
Record host_ok (h : host) : Prop := mkHostOk {
  ok_paired : notionMCPServerProcess (globals h) = None
              <-> notionMCPClient (globals h) = None;
  ok_client : forall a, notionMCPClient (globals h) = Some a ->
              is_Some (objects (globals h) !! a);
  ok_objects : forall a st, objects (globals h) !! a = Some st -> reachable st;
  ok_process : forall p, notionMCPServerProcess (globals h) = Some p ->
               (p < length (children h))%nat;
  ok_listeners : forall p, p ∈ exit_listeners h -> (p < length (children h))%nat;
  ok_killed : forall p, p ∈ killed (globals h) -> (p < length (children h))%nat
}.

(** A tool as the server describes it: an object with a string [name]. *)
Definition named_tool (tool : json) : Prop :=
  exists fields s,
    tool = JObject fields /\ get_field (str "name") fields = Some (JString s).

(** Whether a tool's name contains "search". *)
Definition name_has_search (tool : json) : bool :=
  match prop (str "name") (Some tool) with
  | Some (JString s) => includes (str "search") s
  | _ => false
  end.

(** The address of the client object a new initialisation creates, and
    the host once that initialisation has called [listTools]. *)
Definition init_client (h : host) : nat := fresh (dom (objects (globals h))).

Definition init_started (key : list N) (t : N) (h : host) : host :=
  (init_list_tools (init_enter (Some key) t h).2).2.

(** ** Markdown to Slack mrkdwn (generate-response, lines 113-115) *)

(** The code units [.] does not match: the line terminators. *)
Definition is_line_terminator (c : N) : bool :=
  (c =? 10) || (c =? 13) || (c =? 8232) || (c =? 8233).

(** The end [(.*?)\)] of the link pattern, matched from the start of [s]:
    the lazy group takes a unit only where the closing parenthesis does not
    match.  Returns the group and the text after the match. *)
Fixpoint match_url (s : list N) : option (list N * list N) :=
  match s with
  | [] => None
  | c :: r =>
      if c =? 41 then Some ([], r)
      else if is_line_terminator c then None
      else match match_url r with
           | Some (g, rest) => Some (c :: g, rest)
           | None => None
           end
  end.

(** [(.*?)\]\((.*?)\)] from the start of [s]: the first group is extended
    by one unit where the rest of the pattern fails, also after a [](]
    whose second group finds no closing parenthesis. *)
Fixpoint match_label (s : list N) : option (list N * list N * list N) :=
  match s with
  | [] => None
  | c :: r =>
      let extend :=
        if is_line_terminator c then None
        else match match_label r with
             | Some (g1, g2, rest) => Some (c :: g1, g2, rest)
             | None => None
             end in
      if c =? 93 then
        match r with
        | d :: r' =>
            if d =? 40 then
              match match_url r' with
              | Some (g2, rest) => Some ([], g2, rest)
              | None => extend
              end
            else extend
        | [] => extend
        end
      else extend
  end.

(** The whole pattern at the start of [s]. *)
Definition match_link (s : list N) : option (list N * list N * list N) :=
  match s with
  | c :: r => if c =? 91 then match_label r else None
  | [] => None
  end.

(** [.replace(/\[(.*?)\]\((.*?)\)/g, "<$2|$1>")]: the leftmost match is
    replaced and the search goes on behind it.  [fuel] bounds the number
    of positions tried; [replace_links] gives enough. *)
Fixpoint replace_links_from (fuel : nat) (s : list N) : list N :=
  match fuel, s with
  | _, [] => []
  | O, _ => s
  | S fuel, c :: r =>
      match match_link s with
      | Some (g1, g2, rest) =>
          (60 :: g2) ++ (124 :: g1) ++ 62 :: replace_links_from fuel rest
      | None => c :: replace_links_from fuel r
      end
  end.

Definition replace_links (s : list N) : list N :=
  replace_links_from (length s) s.

(** [.replace(/\*\*/g, "*")] *)
Fixpoint replace_stars (s : list N) : list N :=
  match s with
  | [] => []
  | c :: r =>
      match r with
      | d :: r' =>
          if (c =? 42) && (d =? 42) then 42 :: replace_stars r'
          else c :: replace_stars r
      | [] => [c]
      end
  end.

(** [formattedText], the value [generateResponse] returns for the model's
    [text]. *)
Definition formattedText (text : list N) : list N :=
  replace_stars (replace_links text).

(** A unit a link's label may hold so that the label ends at the first
    closing bracket, and a unit its target may hold. *)
Definition label_unit (c : N) : Prop := c <> 93 /\ is_line_terminator c = false.
Definition url_unit (c : N) : Prop := c <> 41 /\ is_line_terminator c = false.

(** ** The searchNotion tool (generate-response, lines 41-107) *)

(** One formatted search result, lines 83-88. *)
Record formatted_result : Type := mkFormatted {
  title : json;
  url : json;
  lastEditedTime : json;
  snippet : json
}.

(** The three texts of [message]: lines 75, 94 and 101-103. *)
Inductive search_message : Type :=
| NoDocumentsFound
| FoundDocuments (n : nat)
| ErrorSearching (e : thrown).

(** What [execute] returns. *)
Record search_reply : Type := mkReply {
  success : bool;
  reply_message : search_message;
  results : list formatted_result
}.

(** [v || d] for a string [d] *)
Definition or_default (v : option json) (d : list N) : json :=
  match v with
  | Some x => if truthy (Some x) then x else JString d
  | None => JString d
  end.

(** The callback of [map], lines 82-89: a property of null throws; a
    value that is no object has none of the four properties. *)
Definition format_result (result : json) : option formatted_result :=
  match result with
  | JNull => None
  | _ =>
      Some (mkFormatted
              (or_default (prop (str "title") (Some result)) (str "Untitled"))
              (or_default (prop (str "url") (Some result)) [])
              (or_default (prop (str "last_edited_time") (Some result)) [])
              (or_default (prop (str "snippet") (Some result)) []))
  end.

(** [results.length === 0] for a truthy [results]: the length of an array
    or a string, the member [length] of an object, undefined otherwise. *)
Definition length_is_zero (v : json) : bool :=
  match v with
  | JArray elems => bool_decide (elems = [])
  | JString s => bool_decide (s = [])
  | JObject fields =>
      match get_field (str "length") fields with
      | Some (JNumber _ mant exp10) => number_is_zero mant exp10
      | _ => false
      end
  | _ => false
  end.

(** [results.map(...)]: only an array has [map]; the callback may throw. *)
Definition map_results (v : json) : option (list formatted_result) :=
  match v with
  | JArray elems => mapM format_result elems
  | _ => None
  end.

(** How the [try] of lines 47-96 ends up with the search results or with
    what was thrown. *)
Inductive awaited_search : Type :=
| SearchResolved (searchResults : option json)
| SearchFailed (e : thrown).

Definition no_documents : search_reply := mkReply true NoDocumentsFound [].

Definition search_failure (e : thrown) : search_reply :=
  mkReply false (ErrorSearching e) [].

(** Lines 67-106: what [execute] returns once its status update, if any,
    has returned; a rejected status update is thrown on to the caller
    before the [try] is entered. *)
Definition execute_reply (o : awaited_search) : search_reply :=
  match o with
  | SearchFailed e => search_failure e
  | SearchResolved searchResults =>
      if negb (truthy searchResults) then no_documents
      else
        match prop (str "results") searchResults with
        | None => no_documents
        | Some found =>
            if negb (truthy (Some found)) then no_documents
            else if length_is_zero found then no_documents
            else
              match map_results found with
              | Some formattedResults =>
                  mkReply true (FoundDocuments (length formattedResults))
                          formattedResults
              | None => search_failure TypeError
              end
        end
  end.

(** The request of lines 55-58 and 63-65. *)
Definition search_params (query : list N) : json :=
  JObject [(str "name", JString (str "API-post-search"));
           (str "arguments", JObject [(str "query", JString query)])].

(** The reply of [execute] as it depends on the promise [sendRequest]
    returned: none while the promise is pending. *)
Definition execute_outcome (p : option promise) : option search_reply :=
  match p with
  | Some (Fulfilled v) => Some (execute_reply (SearchResolved v))
  | Some (Rejected e) => Some (execute_reply (SearchFailed (Thrown e)))
  | _ => None
  end.

(** A field that holds a value of the server: never null, false, zero or
    the empty string. *)
Definition filled (v : json) : Prop := truthy (Some v) = true.

(** ** Further sample states and inputs *)

(** A client whose one request was answered with an empty result. *)
Definition settled_client : StdioClient :=
  run [CallSendRequest (str "tools/call") (JObject []);
       StdoutData (wire "{'id':'0','result':{}}|")] (new_StdioClient 0).

(** An answer whose identifier is the number 7, as a line and as parsed. *)
Definition numeric_id_message : list N := wire "{'id':7,'result':{}}".

Definition numeric_id_response : json :=
  JObject [(str "id", JNumber false 7 0); (str "result", JObject [])].

(** A chunk of a space, a line feed and a space. *)
Definition blank_chunk : list N := [32; 10; 32].

(** The API key of the samples, and a host whose initialisation went
    through although its tools/list request timed out. *)
Definition sample_key : list N := 115 :: str "ecret".

Definition sample_host : host :=
  host_run [HInitEnter (Some sample_key) 0; HInitListTools;
            HClient 0 (Elapse 10000); HClient 0 (TimerDue 0);
            HInitFinish 0 0] new_host.

(** A tool list with the one tool of the official server that searches. *)
Definition sample_tools : list json :=
  [JObject [(str "name", JString (str "API-post-search"))]].

Definition sample_tools_result : json :=
  JObject [(str "tools", JArray sample_tools)].

(** The parts of the text [see [docs](http://x.y/a**b) ok]. *)
Definition sample_pre : list N := [115; 101; 101; 32].
Definition sample_label : list N := [100; 111; 99; 115].
Definition sample_target : list N :=
  [104; 116; 116; 112; 58; 47; 47; 120; 46; 121; 47; 97; 42; 42; 98].
Definition sample_post : list N := [32; 111; 107].

(** Search results of two entries, the second of them null. *)
Definition sample_found : json :=
  JArray [JObject [(str "title", JString (str "Roadmap"))]; JNull].

Definition sample_searchResults : option json :=
  Some (JObject [(str "results", sample_found)]).

(** * Properties *)

Arguments str : simpl never.

Example JSON_parse_object :
  JSON_parse (wire "{'id':'1','result':{}}")
  = Some (JObject [(str "id", JString (str "1")); (str "result", JObject [])]).
Proof. vm_compute. reflexivity. Qed.

Example JSON_parse_truncated : JSON_parse (wire "{'id':'1'") = None.
Proof. vm_compute. reflexivity. Qed.

Example JSON_parse_escapes :
  JSON_parse (wire "{'a':[1.50e+2,-0,true,null,'x\u0041\n']}")
  = Some (JObject [(str "a",
            JArray [JNumber false 150 0; JNumber true 0 0; JBool true; JNull;
                    JString [120; 65; 10]])]).
Proof. vm_compute. reflexivity. Qed.

Example trim_split :
  split_nl (trim (wire " a|b||c| ")) = [str "a"; str "b"; []; str "c"].
Proof. vm_compute. reflexivity. Qed.

(** A zero, an empty string and null are falsy; an object is truthy. *)
Example truthy_values :
  truthy (Some (JNumber false 0 5)) = false
  /\ truthy (Some (JNumber false 1 (-400))) = false
  /\ truthy (Some (JNumber false 1 (-300))) = true
  /\ truthy (Some (JString [])) = false
  /\ truthy (Some JNull) = false
  /\ truthy (Some (JObject [])) = true.
Proof. vm_compute. tauto. Qed.

(** The scenario of the specification: tools/list is sent with identifier
    0, the process answers with an empty tool list, [listTools] is
    fulfilled with it and the table is empty again. *)
Example listTools_scenario :
  let st := run [CallListTools;
                 StdoutData (wire "{'id':'0','result':{'tools':[]}}|")]
                (new_StdioClient 0) in
  rq_id <$> stdin st = [str "0"]
  /\ returned st = [Fulfilled (Some (JObject [(str "tools", JArray [])]))]
  /\ messageQueue st = ∅ /\ timers st = ∅.
Proof. vm_compute. tauto. Qed.

(** The scenario of the specification: an error response rejects the call
    made through [getTool] with the remote message. *)
Example remote_error_scenario :
  let st := run [CallTool (str "API") (str "post-search") (JObject []);
                 StdoutData (wire "{'id':'0','error':{'message':'boom'}}|")]
                (new_StdioClient 0) in
  returned st = [Rejected (Error (Some (JString (str "boom"))))]
  /\ messageQueue st = ∅.
Proof. vm_compute. tauto. Qed.

(** A numeric [id] finds no entry, and an [error] that is null counts as
    no error. *)
Example odd_envelopes :
  let st := run [CallSendRequest (str "tools/call") (JObject []);
                 StdoutData (wire "{'id':0,'result':1}|")]
                (new_StdioClient 0) in
  let st' := run [StdoutData (wire "{'id':'0','error':null,'result':1}|")] st in
  promises st = [Pending]
  /\ promises st' = [Fulfilled (Some (JNumber false 1 0))].
Proof. vm_compute. tauto. Qed.



(** ** [JSON.parse] never runs out of its recursion budget *)

Lemma skip_ws_length s : (length (skip_ws s) <= length s)%nat.
Proof.
  induction s as [|c r IH]; simpl; [lia|].
  destruct (is_json_ws c); simpl; lia.
Qed.

Lemma skip_ws_cons_length s d r :
  skip_ws s = d :: r -> (S (length r) <= length s)%nat.
Proof.
  intros H. pose proof (skip_ws_length s) as Hl. rewrite H in Hl. exact Hl.
Qed.

Lemma parse_chars_shorter s : forall acc k r,
  parse_chars s acc = Some (k, r) -> (length r < length s)%nat.
Proof.
  induction s as [s IH] using (well_founded_induction
    (well_founded_ltof _ (@length N))).
  unfold ltof in IH. intros acc k r H.
  destruct s as [|c s1]; [discriminate|]. simpl in H.
  destruct (c =? 34); [injection H as _ <-; simpl; lia|].
  destruct (c =? 92).
  - destruct s1 as [|e s2]; [discriminate|].
    destruct (e =? 117).
    + destruct s2 as [|h1 [|h2 [|h3 [|h4 s3]]]]; try discriminate.
      destruct (hex4 h1 h2 h3 h4); [|discriminate].
      apply IH in H; simpl in *; lia.
    + destruct (escape e); [|discriminate].
      apply IH in H; simpl in *; lia.
  - destruct (c <? 32); [discriminate|].
    apply IH in H; simpl in *; lia.
Qed.

Lemma take_digits_length s : forall acc n,
  (length (take_digits s acc n).2 <= length s)%nat.
Proof.
  induction s as [|c r IH]; intros acc n; simpl; [lia|].
  destruct (is_digit c); simpl; [|lia].
  specialize (IH (acc * 10 + (c - 48)) (S n)). lia.
Qed.

Lemma parse_sign_length s : (length (parse_sign s).2 <= length s)%nat.
Proof. destruct s as [|c r]; simpl; [lia|]. destruct (c =? 45); simpl; lia. Qed.

Lemma parse_int_shorter s m r :
  parse_int s = Some (m, r) -> (length r < length s)%nat.
Proof.
  destruct s as [|c s']; [discriminate|]. unfold parse_int.
  destruct (c =? 48); [intros [= <- <-]; simpl; lia|].
  destruct (is_digit c) eqn:Hd; [|discriminate].
  pose proof (take_digits_length (c :: s') 0 0%nat) as Hl.
  simpl in Hl |- *. rewrite Hd in Hl |- *.
  pose proof (take_digits_length s' (0 * 10 + (c - 48)) 1%nat) as Hl'.
  destruct (take_digits s' _ _) as [[? ?] ?].
  intros [= <- <-]. simpl in *. lia.
Qed.

Lemma parse_frac_length m s m' k r :
  parse_frac m s = Some (m', k, r) -> (length r <= length s)%nat.
Proof.
  destruct s as [|c s']; [intros [= <- <- <-]; simpl; lia|]. unfold parse_frac.
  destruct (c =? 46); [|intros [= <- <- <-]; simpl; lia].
  pose proof (take_digits_length s' m 0%nat) as Hl.
  destruct (take_digits s' m 0%nat) as [[? [|?]] ?]; [discriminate|].
  intros [= <- <- <-]. simpl in *. lia.
Qed.

Lemma parse_exp_length s e r :
  parse_exp s = Some (e, r) -> (length r <= length s)%nat.
Proof.
  destruct s as [|c s']; [intros [= <- <-]; simpl; lia|]. unfold parse_exp.
  destruct ((c =? 101) || (c =? 69)); [|intros [= <- <-]; simpl; lia].
  assert (length (parse_exp_sign s').2 <= length s')%nat as Hs.
  { destruct s' as [|d s'']; simpl; [lia|].
    destruct (d =? 45); simpl; [lia|]. destruct (d =? 43); simpl; lia. }
  destruct (parse_exp_sign s') as [sgn r1]. simpl in Hs.
  pose proof (take_digits_length r1 0 0%nat) as Hl.
  destruct (take_digits r1 0 0%nat) as [[? [|?]] ?]; [discriminate|].
  intros [= <- <-]. simpl in *. lia.
Qed.

Lemma parse_number_shorter s v r :
  parse_number s = Some (v, r) -> (length r < length s)%nat.
Proof.
  unfold parse_number. pose proof (parse_sign_length s) as H0.
  destruct (parse_sign s) as [neg s1]. simpl in H0.
  destruct (parse_int s1) as [[m s2]|] eqn:H1; [|discriminate].
  destruct (parse_frac m s2) as [[[m' k] s3]|] eqn:H2; [|discriminate].
  destruct (parse_exp s3) as [[e s4]|] eqn:H3; [|discriminate].
  intros [= <- <-].
  apply parse_int_shorter in H1. apply parse_frac_length in H2.
  apply parse_exp_length in H3. lia.
Qed.

Lemma parse_literal_shorter s v r :
  parse_literal s = Some (v, r) -> (length r < length s)%nat.
Proof.
  unfold parse_literal. intros H.
  repeat (case_match; simplify_eq); simpl; lia.
Qed.

Lemma of_option_shorter (s : list N) (o : option (json * list N)) v r :
  (forall v r, o = Some (v, r) -> (length r < length s)%nat) ->
  of_option o = Ok (v, r) -> (length r < length s)%nat.
Proof. destruct o as [[? ?]|]; simpl; [|discriminate]. intros H [= <- <-]. eauto. Qed.

(** Every parsing function consumes at least one character. *)
Lemma parse_shorter fuel :
  (forall s v r, parse_value fuel s = Ok (v, r) -> (length r < length s)%nat)
  /\ (forall s acc v r,
        parse_elements fuel s acc = Ok (v, r) -> (length r < length s)%nat)
  /\ (forall s acc v r,
        parse_members fuel s acc = Ok (v, r) -> (length r < length s)%nat).
Proof.
  induction fuel as [|f (IHv & IHe & IHm)]; [by split_and!|].
  split_and!.
  - intros s v r H. destruct s as [|c s']; [discriminate|].
    cbn [parse_value] in H.
    destruct (c =? 123).
    { destruct (skip_ws s') as [|d r'] eqn:Hw; [discriminate|].
      apply skip_ws_cons_length in Hw.
      destruct (d =? 125); [injection H as <- <-; simpl; lia|].
      apply IHm in H. simpl in *. lia. }
    destruct (c =? 91).
    { destruct (skip_ws s') as [|d r'] eqn:Hw; [discriminate|].
      apply skip_ws_cons_length in Hw.
      destruct (d =? 93); [injection H as <- <-; simpl; lia|].
      apply IHe in H. simpl in *. lia. }
    destruct (c =? 34).
    { destruct (parse_chars s' []) as [[k r']|] eqn:Hc; [|discriminate].
      injection H as <- <-. apply parse_chars_shorter in Hc. simpl. lia. }
    destruct ((c =? 45) || is_digit c).
    + eapply of_option_shorter; [|exact H]. apply parse_number_shorter.
    + eapply of_option_shorter; [|exact H]. apply parse_literal_shorter.
  - intros s acc v r H. cbn [parse_elements] in H.
    destruct (parse_value f s) as [[v1 r1]| |] eqn:Hv; try discriminate.
    apply IHv in Hv.
    destruct (skip_ws r1) as [|d r'] eqn:Hw; [discriminate|].
    apply skip_ws_cons_length in Hw.
    destruct (d =? 44).
    { apply IHe in H. pose proof (skip_ws_length r'). lia. }
    destruct (d =? 93); [|discriminate].
    injection H as <- <-. lia.
  - intros s acc v r H. cbn [parse_members] in H.
    destruct s as [|q r0]; [discriminate|].
    destruct (q =? 34); [|discriminate].
    destruct (parse_chars r0 []) as [[k r1]|] eqn:Hc; [|discriminate].
    apply parse_chars_shorter in Hc.
    destruct (skip_ws r1) as [|d r2] eqn:Hw; [discriminate|].
    apply skip_ws_cons_length in Hw.
    destruct (d =? 58); [|discriminate].
    destruct (parse_value f (skip_ws r2)) as [[v1 r3]| |] eqn:Hv;
      try discriminate.
    apply IHv in Hv. pose proof (skip_ws_length r2).
    destruct (skip_ws r3) as [|e r4] eqn:Hw'; [discriminate|].
    apply skip_ws_cons_length in Hw'.
    destruct (e =? 44).
    { apply IHm in H. pose proof (skip_ws_length r4). simpl. lia. }
    destruct (e =? 125); [|discriminate].
    injection H as <- <-. simpl. lia.
Qed.

Lemma of_option_fuel {A} (o : option A) : of_option o <> OutOfFuel.
Proof. by destruct o. Qed.

(** A budget of twice the length of the input (plus one, plus two inside
    a list of elements or members) is never used up. *)
Lemma parse_fuel fuel :
  (forall s, (2 * length s + 1 <= fuel)%nat -> parse_value fuel s <> OutOfFuel)
  /\ (forall s acc, (2 * length s + 2 <= fuel)%nat ->
        parse_elements fuel s acc <> OutOfFuel)
  /\ (forall s acc, (2 * length s + 2 <= fuel)%nat ->
        parse_members fuel s acc <> OutOfFuel).
Proof.
  induction fuel as [|f (IHv & IHe & IHm)]; [split_and!; intros; lia|].
  split_and!.
  - intros s Hf. destruct s as [|c s']; [done|].
    cbn [parse_value]. simpl in Hf.
    destruct (c =? 123).
    { destruct (skip_ws s') as [|d r'] eqn:Hw; [done|].
      apply skip_ws_cons_length in Hw.
      destruct (d =? 125); [done|]. apply IHm. simpl. lia. }
    destruct (c =? 91).
    { destruct (skip_ws s') as [|d r'] eqn:Hw; [done|].
      apply skip_ws_cons_length in Hw.
      destruct (d =? 93); [done|]. apply IHe. simpl. lia. }
    destruct (c =? 34); [by destruct (parse_chars s' []) as [[? ?]|]|].
    destruct ((c =? 45) || is_digit c); apply of_option_fuel.
  - intros s acc Hf. cbn [parse_elements].
    destruct (parse_value f s) as [[v1 r1]| |] eqn:Hv; [|done|].
    + apply parse_shorter in Hv.
      destruct (skip_ws r1) as [|d r'] eqn:Hw; [done|].
      apply skip_ws_cons_length in Hw.
      destruct (d =? 44).
      { apply IHe. pose proof (skip_ws_length r'). lia. }
      by destruct (d =? 93).
    + exfalso. revert Hv. apply IHv. lia.
  - intros s acc Hf. cbn [parse_members].
    destruct s as [|q r0]; [done|]. simpl in Hf.
    destruct (q =? 34); [|done].
    destruct (parse_chars r0 []) as [[k r1]|] eqn:Hc; [|done].
    apply parse_chars_shorter in Hc.
    destruct (skip_ws r1) as [|d r2] eqn:Hw; [done|].
    apply skip_ws_cons_length in Hw.
    destruct (d =? 58); [|done].
    pose proof (skip_ws_length r2).
    destruct (parse_value f (skip_ws r2)) as [[v1 r3]| |] eqn:Hv; [|done|].
    + apply parse_shorter in Hv.
      destruct (skip_ws r3) as [|e r4] eqn:Hw'; [done|].
      apply skip_ws_cons_length in Hw'.
      destruct (e =? 44).
      { apply IHm. pose proof (skip_ws_length r4). lia. }
      by destruct (e =? 125).
    + exfalso. revert Hv. apply IHv. lia.
Qed.

(** [JSON_parse] returns a value or throws; [None] always stands for the
    [SyntaxError]. *)
Lemma JSON_parse_fuel text : JSON_parse_result text <> OutOfFuel.
Proof.
  unfold JSON_parse_result.
  destruct (parse_value _ _) as [[v r]| |] eqn:Hv.
  - by destruct (skip_ws r).
  - done.
  - exfalso. revert Hv. apply parse_fuel. pose proof (skip_ws_length text). lia.
Qed.

Lemma JSON_parse_None text :
  JSON_parse text = None <-> JSON_parse_result text = SyntaxError.
Proof.
  unfold JSON_parse. pose proof (JSON_parse_fuel text).
  destruct (JSON_parse_result text); naive_solver.
Qed.

(** ** Settling a promise *)

Lemma settle_in_length p o ps : length (settle_in p o ps) = length ps.
Proof.
  unfold settle_in. destruct (ps !! p) as [[| |]|]; try done.
  apply length_insert.
Qed.

Lemma settle_in_pending p o ps :
  ps !! p = Some Pending -> settle_in p o ps = <[p := o]> ps.
Proof. unfold settle_in. by intros ->. Qed.

Lemma settle_in_lookup_eq p o ps :
  ps !! p = Some Pending -> settle_in p o ps !! p = Some o.
Proof.
  intros H. rewrite settle_in_pending by done.
  apply list_lookup_insert_eq. by eapply lookup_lt_Some.
Qed.

Lemma settle_in_lookup_ne p q o ps :
  p <> q -> settle_in p o ps !! q = ps !! q.
Proof.
  intros H. unfold settle_in. destruct (ps !! p) as [[| |]|]; try done.
  by apply list_lookup_insert_ne.
Qed.

(** A settled promise stays as it is. *)
Lemma settle_in_settled p q o r ps :
  ps !! q = Some r -> r <> Pending -> settle_in p o ps !! q = Some r.
Proof.
  intros Hq Hr. destruct (decide (p = q)) as [->|Hne].
  - unfold settle_in. rewrite Hq. by destruct r.
  - by rewrite settle_in_lookup_ne.
Qed.

(** ** The invariant is kept *)

Lemma consistent_new t : consistent (new_StdioClient t).
Proof.
  split; simpl; try done.
  - intros f Hf. by apply not_elem_of_nil in Hf.
  - constructor.
Qed.

Lemma consistent_log e st : consistent st -> consistent (log e st).
Proof. by intros []. Qed.

Lemma consistent_elapse ms st :
  consistent st -> consistent (set_now (now st + ms) st).
Proof.
  intros [H1 H2 H3 H4 H5 H6 H7 H8]. split; try done.
  intros k t Hk. simpl. specialize (H8 k t Hk). lia.
Qed.

(** The timer handle of an entry is armed for the entry's own key, so two
    keys never share a timer. *)
Lemma consistent_entry_timer st id e id' e' :
  consistent st ->
  messageQueue st !! id = Some e -> messageQueue st !! id' = Some e' ->
  timeoutId e = timeoutId e' -> id = id'.
Proof.
  intros Hc H1 H2 Heq.
  destruct (con_queue _ Hc _ _ H1) as (_ & t & Ht & <-).
  destruct (con_queue _ Hc _ _ H2) as (_ & t' & Ht' & <-).
  rewrite Heq in Ht. congruence.
Qed.

(** Telling an entry its outcome and dropping it from the table, as the
    listener does, and as the timeout callback does for its own key. *)
Lemma consistent_settle_delete st id e o :
  consistent st -> messageQueue st !! id = Some e ->
  consistent
    (set_messageQueue (delete id (messageQueue st))
       (settle (settles e) o (clearTimeout (timeoutId e) st))).
Proof.
  intros Hc He. destruct (con_queue _ Hc _ _ He) as (Heq & t & Ht & Hid).
  split; simpl.
  - rewrite settle_in_length. apply Hc.
  - apply Hc.
  - apply Hc.
  - intros k t' Hk. apply lookup_delete_Some in Hk as [Hne Hk].
    destruct (con_timers _ Hc _ _ Hk) as (? & ? & ?).
    split_and!; [done| |done].
    rewrite settle_in_lookup_ne; [done|congruence].
  - intros id' e' He'. apply lookup_delete_Some in He' as [Hne He'].
    destruct (con_queue _ Hc _ _ He') as (? & t' & Ht' & ?).
    split; [done|]. exists t'. split; [|done].
    rewrite lookup_delete_ne; [done|].
    intros Habs. apply Hne. by eapply consistent_entry_timer.
  - intros f Hf. destruct (con_outers _ Hc f Hf) as [? Hs]. split; [done|].
    apply lookup_lt_is_Some. rewrite settle_in_length.
    by apply lookup_lt_is_Some.
  - apply Hc.
  - intros k t' Hk. apply lookup_delete_Some in Hk as [_ Hk].
    by apply (con_due _ Hc k).
Qed.

Lemma consistent_logs es st : consistent st -> consistent (logs es st).
Proof. by intros []. Qed.

Lemma log_logs e es st : log e (logs es st) = logs (es ++ [e]) st.
Proof. unfold log, logs. simpl. by rewrite <- app_assoc. Qed.

Lemma log_as_logs e st : log e st = logs [e] st.
Proof. done. Qed.

Lemma logs_nil st : logs [] st = st.
Proof. destruct st. unfold logs. simpl. by rewrite app_nil_r. Qed.

Lemma logs_logs es es' st : logs es' (logs es st) = logs (es ++ es') st.
Proof. unfold logs. simpl. by rewrite <- app_assoc. Qed.

Lemma consistent_answered s e o es st :
  consistent st -> messageQueue st !! s = Some e ->
  consistent (answered s e o es st).
Proof.
  intros Hc He.
  apply (consistent_settle_delete (logs es st)); [by apply consistent_logs|done].
Qed.

(** An envelope whose [id] is a string under which the table has an
    entry, and for which the entry is told an outcome. *)
Lemma dispatch_found message response st s e o :
  prop (str "id") (Some response) = Some (JString s) ->
  messageQueue st !! s = Some e -> s <> [] ->
  response_outcome response = Some o ->
  dispatch message response st
  = answered s e o (answered_lines response) st.
Proof.
  intros Hid He Hs Ho. unfold dispatch, answered, answered_lines.
  unfold response_outcome in Ho.
  rewrite Hid. destruct s as [|c s']; [done|].
  change (truthy (Some (JString (c :: s')))) with true.
  change (negb true) with false. cbv iota.
  change (queue_get (JString (c :: s'))
            (messageQueue (log (ParsedResponse response) st)))
    with (messageQueue st !! (c :: s')).
  rewrite He.
  destruct (truthy (prop (str "error") (Some response))).
  - destruct (new_Error_ok _); [|done]. injection Ho as <-.
    rewrite !log_as_logs, ?logs_logs. reflexivity.
  - injection Ho as <-. rewrite !log_as_logs, ?logs_logs. reflexivity.
Qed.

(** Any other envelope only writes to the console. *)
Ltac only_logs := rewrite ?log_as_logs, ?logs_logs; by eexists.

(** The entry is found but [new Error] throws: the console gets the
    parsed envelope, the error and the line of the [catch]; the entry, its
    promise and its timer are as before. *)
Lemma dispatch_thrown message response st s e :
  prop (str "id") (Some response) = Some (JString s) ->
  messageQueue st !! s = Some e -> s <> [] ->
  response_outcome response = None ->
  dispatch message response st
  = logs [ParsedResponse response;
          ErrorInResponse (prop (str "error") (Some response));
          ErrorParsingJSON message] st.
Proof.
  intros Hid He Hs Ho. unfold dispatch. unfold response_outcome in Ho.
  rewrite Hid. destruct s as [|c s']; [done|].
  change (truthy (Some (JString (c :: s')))) with true.
  change (negb true) with false. cbv iota.
  change (queue_get (JString (c :: s'))
            (messageQueue (log (ParsedResponse response) st)))
    with (messageQueue st !! (c :: s')).
  rewrite He.
  destruct (truthy (prop (str "error") (Some response))); [|done].
  destruct (new_Error_ok _); [done|].
  by rewrite !log_as_logs, ?logs_logs.
Qed.

Lemma dispatch_not_found message response st :
  (forall s e, prop (str "id") (Some response) = Some (JString s) ->
               messageQueue st !! s = Some e -> s = []) ->
  exists es, dispatch message response st = logs es st.
Proof.
  intros Hno. unfold dispatch.
  destruct (prop (str "id") (Some response)) as [id|] eqn:Hid; [|only_logs].
  destruct (negb (truthy (Some id))) eqn:Ht; [only_logs|].
  destruct (queue_get id _) as [e|] eqn:Hq;
    [|destruct (to_string_ok id); only_logs].
  destruct id as [| | | s | |]; try done.
  change (messageQueue st !! s = Some e) in Hq.
  rewrite (Hno s e eq_refl Hq) in Ht. done.
Qed.

(** One line of a chunk either only writes to the console, or is an
    envelope that finds its entry and tells it an outcome. *)
Lemma handle_message_cases message st :
  (exists es, handle_message message st = logs es st)
  \/ (exists response s e o,
        startsWith_brace message = true
        /\ JSON_parse message = Some response
        /\ prop (str "id") (Some response) = Some (JString s)
        /\ messageQueue st !! s = Some e /\ s <> []
        /\ response_outcome response = Some o
        /\ handle_message message st
           = answered s e o (answered_lines response) st).
Proof.
  unfold handle_message. destruct message as [|c m].
  { left. exists []. by rewrite logs_nil. }
  destruct (startsWith_brace (c :: m)) eqn:Hb; simpl negb; cbv iota;
    [|left; only_logs].
  destruct (JSON_parse (c :: m)) as [response|] eqn:Hp; [|left; only_logs].
  destruct (prop (str "id") (Some response)) as [id|] eqn:Hid.
  2:{ left. apply dispatch_not_found. intros s e. by rewrite Hid. }
  destruct id as [| | |s| |];
    try (left; apply dispatch_not_found; intros s' e'; by rewrite Hid).
  destruct (messageQueue st !! s) as [e|] eqn:He.
  2:{ left. apply dispatch_not_found. intros s' e'. rewrite Hid.
      intros [= <-]. by rewrite He. }
  destruct (decide (s = [])) as [->|Hs].
  { left. apply dispatch_not_found. intros s' e'. rewrite Hid. by intros [= <-]. }
  destruct (response_outcome response) as [o|] eqn:Ho.
  - right. exists response, s, e, o. split_and!; try done.
    by apply dispatch_found.
  - left. eexists. by apply (dispatch_thrown _ _ _ s e).
Qed.

Lemma consistent_handle_message message st :
  consistent st -> consistent (handle_message message st).
Proof.
  intros Hc.
  destruct (handle_message_cases message st)
    as [[es ->]|(r & s & e & o & _ & _ & _ & He & _ & _ & ->)].
  - by apply consistent_logs.
  - by apply consistent_answered.
Qed.

Lemma consistent_handle_messages messages : forall st,
  consistent st -> consistent (handle_messages messages st).
Proof.
  induction messages as [|m ms IH]; intros st Hc; [done|].
  apply IH. by apply consistent_handle_message.
Qed.

Lemma consistent_on_data rawData st :
  consistent st -> consistent (on_data rawData st).
Proof.
  intros Hc. apply consistent_handle_messages. by apply consistent_log.
Qed.

(** What running timer [k] amounts to. *)
Lemma fire_cases k st :
  (fire k st = st
   /\ (timers st !! k = None
       \/ exists t, timers st !! k = Some t /\ now st < tm_due t))
  \/ (exists t, timers st !! k = Some t /\ tm_due t <= now st
        /\ messageQueue st !! tm_id t = None
        /\ fire k st = set_timers (delete k (timers st)) st)
  \/ (exists t e, timers st !! k = Some t /\ tm_due t <= now st
        /\ messageQueue st !! tm_id t = Some e
        /\ fire k st
           = settle (tm_rejects t) (Rejected (timeout_message (tm_method t)))
               (set_messageQueue (delete (tm_id t) (messageQueue st))
                  (set_timers (delete k (timers st)) st))).
Proof.
  unfold fire. destruct (timers st !! k) as [t|] eqn:Ht; [|left; auto].
  destruct (N.leb_spec (tm_due t) (now st)) as [Hd|Hd].
  - right. unfold timeout_callback.
    change (messageQueue (set_timers _ st)) with (messageQueue st).
    destruct (messageQueue st !! tm_id t) as [e|] eqn:He.
    + right. exists t, e. done.
    + left. exists t. done.
  - left. split; [done|]. right. by exists t.
Qed.

Lemma consistent_fire k st : consistent st -> consistent (fire k st).
Proof.
  intros Hc.
  destruct (fire_cases k st)
    as [[-> _]|[(t & Ht & _ & He & ->)|(t & e & Ht & _ & He & ->)]]; [done| |].
  - destruct Hc as [H1 H2 H3 H4 H5 H6 H7 H8]. split; simpl; try done.
    + intros k' t' Hk'. apply lookup_delete_Some in Hk' as [_ Hk']. eauto.
    + intros id e Hq. destruct (H5 _ _ Hq) as (? & t' & Ht' & Hid).
      split; [done|]. exists t'. split; [|done].
      rewrite lookup_delete_ne; [done|].
      intros ->. rewrite Ht in Ht'. injection Ht' as <-. congruence.
    + intros k' t' Hk'. apply lookup_delete_Some in Hk' as [_ Hk']. eauto.
  - destruct (con_timers _ Hc _ _ Ht) as (Hr & Hp & _).
    destruct Hc as [H1 H2 H3 H4 H5 H6 H7 H8]. split; simpl; try done.
    + by rewrite settle_in_length.
    + intros k' t' Hk'. apply lookup_delete_Some in Hk' as [Hne Hk'].
      destruct (H4 _ _ Hk') as (? & ? & ?). split_and!; [done| |done].
      rewrite settle_in_lookup_ne; [done|congruence].
    + intros id e' Hq. apply lookup_delete_Some in Hq as [Hne Hq].
      destruct (H5 _ _ Hq) as (? & t' & Ht' & Hid).
      split; [done|]. exists t'. split; [|done].
      rewrite lookup_delete_ne; [done|].
      intros ->. rewrite Ht in Ht'. injection Ht' as <-. congruence.
    + intros f Hf. destruct (H6 f Hf) as [? Hs]. split; [done|].
      apply lookup_lt_is_Some. rewrite settle_in_length.
      by apply lookup_lt_is_Some.
    + intros k' t' Hk'. apply lookup_delete_Some in Hk' as [_ Hk']. eauto.
Qed.

(** [this.messageId++] keeps the counter at the smaller of the number of
    calls and [2^53]. *)
Lemma js_incr_min n :
  js_incr (N.min (N.of_nat n) (2 ^ 53)) = N.min (N.of_nat (S n)) (2 ^ 53).
Proof.
  unfold js_incr. remember (2 ^ 53) as B.
  destruct (N.ltb_spec (N.min (N.of_nat n) B) B); lia.
Qed.

(** The fields of the state in which the request line is written. *)
Lemma sendRequest_register_fields method params st :
  let '(rq, p, st') := sendRequest_register method params st in
  rq = mkRequest (str "2.0") (String_of_number (messageId st)) method params
  /\ p = length (promises st)
  /\ stdin st' = stdin st
  /\ messageQueue st' = <[rq_id rq := mkPending p p]> (messageQueue st)
  /\ messageId st' = js_incr (messageId st)
  /\ promises st' = promises st ++ [Pending]
  /\ timers st'
     = <[p := mkTimer (rq_id rq) method p (now st + timeout_ms)]> (timers st)
  /\ returned st' = returned st /\ frames st' = frames st
  /\ console st' = console st ++ [SendingRequest rq]
  /\ now st' = now st.
Proof. unfold sendRequest_register. simpl. by split_and!. Qed.

Lemma consistent_sendRequest method params st :
  consistent st -> consistent (sendRequest method params st).2.
Proof.
  intros [H1 H2 H3 H4 H5 H6 H7 H8]. unfold sendRequest, sendRequest_register.
  set (id := String_of_number (messageId st)).
  set (p := length (promises st)).
  assert (timers st !! p = None) as Hfresh.
  { destruct (timers st !! p) as [t|] eqn:Ht; [|done].
    destruct (H4 _ _ Ht) as (_ & Hp & _).
    apply lookup_lt_Some in Hp. unfold p in Hp. lia. }
  split; simpl.
  - rewrite !length_app. simpl. lia.
  - intros i rq Hi. apply lookup_app_Some in Hi as [Hi|[Hge Hi]]; [eauto|].
    apply list_lookup_singleton_Some in Hi as [Hi <-]. simpl. unfold id.
    rewrite H3. do 2 f_equal. lia.
  - rewrite H3, length_app. simpl.
    replace (length (stdin st) + 1)%nat with (S (length (stdin st))) by lia.
    apply js_incr_min.
  - intros k t Hk. apply lookup_insert_Some in Hk as [[<- <-]|[Hne Hk]].
    + simpl. split_and!; [reflexivity| |].
      * apply list_lookup_middle. reflexivity.
      * eexists. split; [apply list_lookup_middle; by rewrite <- H1|done].
    + destruct (H4 _ _ Hk) as (? & Hp & rq & Hrq & ?).
      split_and!; [done|by apply lookup_app_l_Some|].
      exists rq. split; [by apply lookup_app_l_Some|done].
  - intros id' e He. apply lookup_insert_Some in He as [[<- <-]|[Hne He]].
    + simpl. split; [done|]. eexists. split; [apply lookup_insert_eq|done].
    + destruct (H5 _ _ He) as (? & t & Ht & ?). split; [done|].
      exists t. split; [|done]. rewrite lookup_insert_ne; [done|].
      intros Heq. fold p in Heq. rewrite <- Heq, Hfresh in Ht. done.
  - intros f Hf. destruct (H6 f Hf) as [? [x Hx]]. split; [done|].
    exists x. by apply lookup_app_l_Some.
  - done.
  - intros k t Hk. apply lookup_insert_Some in Hk as [[<- <-]|[Hne Hk]].
    + simpl. lia.
    + eauto.
Qed.

Lemma same_core_refl st : same_core st st.
Proof. by repeat split. Qed.

Lemma same_core_trans st1 st2 st3 :
  same_core st1 st2 -> same_core st2 st3 -> same_core st1 st3.
Proof. unfold same_core. intros (?&?&?&?&?&?) (?&?&?&?&?&?). split_and!; congruence. Qed.

Lemma consistent_same_core st st' :
  same_core st st' -> returned st' = returned st -> frames st' = frames st ->
  consistent st -> consistent st'.
Proof.
  intros (E1&E2&E3&E4&E5&E6) E7 E8 [H1 H2 H3 H4 H5 H6 H7 H8].
  split; rewrite ?E1, ?E2, ?E3, ?E4, ?E5, ?E6, ?E7, ?E8; done.
Qed.

Lemma consistent_async_promise st :
  consistent st -> consistent (async_promise st).2.
Proof.
  intros [H1 H2 H3 H4 H5 H6 H7 H8]. split; simpl; try done.
  intros f Hf. destruct (H6 f Hf) as [Hp ?]. split; [|done].
  by apply lookup_app_l_Some.
Qed.

(** The outer promise of a suspended body was made before the body's
    frame, so a new promise is no frame's. *)
Lemma outer_fresh st :
  consistent st -> length (returned st) ∉ outer_of <$> frames st.
Proof.
  intros Hc Hin. apply list_elem_of_fmap in Hin as (f & Heq & Hf).
  destruct (con_outers _ Hc f Hf) as [Hp _].
  apply lookup_lt_Some in Hp. lia.
Qed.

(** The common shape of [listTools] and of [call]: make the promise to
    return, call [sendRequest], suspend on its promise. *)
Lemma consistent_async_call f method params st :
  awaited_of f = length (promises st) ->
  outer_of f = length (returned st) ->
  consistent st ->
  consistent (suspend f (sendRequest method params (async_promise st).2).2).
Proof.
  intros Ha Ho Hc.
  pose proof (outer_fresh st Hc) as Hfresh.
  pose proof (consistent_sendRequest method params _
                (consistent_async_promise st Hc)) as [H1 H2 H3 H4 H5 H6 H7 H8].
  split; try done.
  - intros g Hg. change (g ∈ frames st ++ [f]) in Hg.
    apply elem_of_app in Hg as [Hg|Hg]; [by apply H6|].
    apply list_elem_of_singleton in Hg as ->. rewrite Ha, Ho. split.
    + change ((returned st ++ [Pending]) !! length (returned st)
              = Some Pending).
      by apply list_lookup_middle.
    + exists Pending.
      change ((promises st ++ [Pending]) !! length (promises st)
              = Some Pending).
      by apply list_lookup_middle.
  - change (NoDup (outer_of <$> frames st ++ [f])).
    rewrite fmap_app. apply NoDup_app. split_and!.
    + apply Hc.
    + intros x Hx Hx'. apply list_elem_of_singleton in Hx' as ->.
      by rewrite Ho in Hx.
    + apply NoDup_singleton.
Qed.

Lemma consistent_listTools st : consistent st -> consistent (listTools st).2.
Proof. intros Hc. by apply consistent_async_call. Qed.

Lemma consistent_getTool_call namespace name params st :
  consistent st -> consistent (getTool_call namespace name params st).2.
Proof. intros Hc. by apply consistent_async_call. Qed.

Lemma quiescent_async_call f method params st :
  awaited_of f = length (promises st) ->
  quiescent st ->
  quiescent (suspend f (sendRequest method params (async_promise st).2).2).
Proof.
  intros Ha Hq g Hg. change (g ∈ frames st ++ [f]) in Hg.
  change ((promises st ++ [Pending]) !! awaited_of g = Some Pending).
  apply elem_of_app in Hg as [Hg|Hg].
  - apply lookup_app_l_Some. by apply Hq.
  - apply list_elem_of_singleton in Hg as ->. rewrite Ha.
    by apply list_lookup_middle.
Qed.

Lemma resume_waiting f st :
  frame_outcome f (promises st) = None -> resume f st = suspend f st.
Proof.
  unfold frame_outcome, resume.
  destruct f as [p o|p o]; simpl; by destruct (promises st !! p) as [[| |]|].
Qed.

Lemma resume_settled f st o :
  frame_outcome f (promises st) = Some o ->
  exists es, resume f st = settle_returned (outer_of f) o (logs es st).
Proof.
  unfold frame_outcome, resume.
  destruct f as [p q|p q]; simpl;
    destruct (promises st !! p) as [[| |]|]; intros [= <-];
    first [by exists [ErrorListingTools reason]
          | exists []; by rewrite logs_nil].
Qed.

(** One pass over the suspended bodies: [fs] are those still to be looked
    at, [frames s] those put back so far. *)
Lemma resume_fold fs : forall s,
  NoDup (outer_of <$> (frames s ++ fs)) ->
  (forall f, f ∈ frames s ++ fs ->
     returned s !! outer_of f = Some Pending
     /\ is_Some (promises s !! awaited_of f)) ->
  (forall f, f ∈ frames s -> promises s !! awaited_of f = Some Pending) ->
  let s' := foldl (fun s f => resume f s) s fs in
  same_core s s'
  /\ length (returned s') = length (returned s)
  /\ NoDup (outer_of <$> frames s')
  /\ (forall f, f ∈ frames s' ->
        (f ∈ frames s ++ fs) /\ returned s' !! outer_of f = Some Pending
        /\ promises s' !! awaited_of f = Some Pending)
  /\ (forall f, f ∈ fs ->
        match frame_outcome f (promises s) with
        | Some o => returned s' !! outer_of f = Some o
        | None => f ∈ frames s'
        end)
  /\ (forall f, f ∈ frames s -> f ∈ frames s')
  /\ (forall q r, returned s !! q = Some r -> r <> Pending ->
        returned s' !! q = Some r)
  /\ (forall q, q ∉ outer_of <$> fs -> returned s' !! q = returned s !! q).
Proof.
  induction fs as [|f fs IH]; intros s Hnd Hout Hwait; simpl.
  { rewrite app_nil_r in Hnd. split_and!; try done.
    - intros f Hf. split_and!; [set_solver| |by apply Hwait].
      apply Hout. set_solver.
    - intros f Hf. by apply not_elem_of_nil in Hf. }
  assert ((outer_of f ∉ outer_of <$> (frames s ++ fs))
          /\ NoDup (outer_of <$> (frames s ++ fs))) as [Hfresh Hnd'].
  { rewrite fmap_app, fmap_cons in Hnd. rewrite fmap_app.
    apply NoDup_app in Hnd as (Hn1 & Hn2 & Hn3).
    apply NoDup_cons in Hn3 as [Hnf Hn3]. split.
    - intros Hin. apply elem_of_app in Hin as [Hin|Hin]; [|done].
      apply (Hn2 _ Hin). set_solver.
    - apply NoDup_app. split_and!; [done| |done].
      intros x Hx Hx'. apply (Hn2 x Hx). set_solver. }
  destruct (Hout f) as [Hpend Hrange]; [set_solver|].
  destruct (frame_outcome f (promises s)) as [o|] eqn:Hf.
  - destruct (resume_settled f s o Hf) as [es Hres]. rewrite Hres.
    set (s1 := settle_returned (outer_of f) o (logs es s)).
    assert (o <> Pending) as Ho.
    { unfold frame_outcome in Hf. intros ->.
      destruct (promises s !! awaited_of f) as [[| |]|]; try done.
      by destruct f. }
    destruct (IH s1) as (I1 & I2 & I3 & I4 & I5 & I6 & I7 & I8).
    + done.
    + intros g Hg. change (frames s1) with (frames s) in Hg. split.
      * change (settle_in (outer_of f) o (returned s) !! outer_of g
                = Some Pending).
        rewrite settle_in_lookup_ne; [apply Hout; set_solver|].
        intros Heq. apply Hfresh. rewrite Heq. by apply list_elem_of_fmap_2.
      * apply Hout. set_solver.
    + done.
    + split_and!.
      * eapply same_core_trans; [|exact I1]. by repeat split.
      * rewrite I2. apply settle_in_length.
      * done.
      * intros g Hg. destruct (I4 g Hg) as (Hin & ? & ?).
        split_and!; [|done|done]. change (frames s1) with (frames s) in Hin.
        set_solver.
      * intros g Hg. apply elem_of_cons in Hg as [->|Hg].
        -- rewrite Hf. apply I7; [|done].
           by apply settle_in_lookup_eq.
        -- by apply I5.
      * done.
      * intros q r Hq Hr. apply I7; [|done]. by apply settle_in_settled.
      * intros q Hq. apply not_elem_of_cons in Hq as [Hq1 Hq2].
        rewrite I8 by done. by apply settle_in_lookup_ne.
  - rewrite (resume_waiting f s Hf).
    set (s1 := suspend f s).
    assert (promises s !! awaited_of f = Some Pending) as Haw.
    { unfold frame_outcome in Hf. destruct Hrange as [x Hx]. rewrite Hx in Hf.
      destruct x; [done| |]; by destruct f. }
    destruct (IH s1) as (I1 & I2 & I3 & I4 & I5 & I6 & I7 & I8).
    + change (frames s1) with (frames s ++ [f]).
      by rewrite <- app_assoc.
    + intros g Hg. change (frames s1) with (frames s ++ [f]) in Hg.
      rewrite <- app_assoc in Hg. by apply Hout.
    + intros g Hg. change (frames s1) with (frames s ++ [f]) in Hg.
      change (promises s1) with (promises s).
      apply elem_of_app in Hg as [Hg|Hg]; [by apply Hwait|].
      by apply list_elem_of_singleton in Hg as ->.
    + split_and!; try done.
      * intros g Hg. destruct (I4 g Hg) as (Hin & ? & ?).
        split_and!; [|done|done].
        change (frames s1) with (frames s ++ [f]) in Hin.
        by rewrite <- app_assoc in Hin.
      * intros g Hg. apply elem_of_cons in Hg as [->|Hg].
        -- rewrite Hf. apply I6. change (f ∈ frames s ++ [f]). set_solver.
        -- by apply I5.
      * intros g Hg. apply I6. change (g ∈ frames s ++ [f]). set_solver.
      * intros q Hq. apply not_elem_of_cons in Hq as [Hq1 Hq2].
        by rewrite I8.
Qed.

(** The microtask checkpoint keeps the invariant, leaves no body waiting
    for a settled promise, and gives every body whose promise is settled
    its outcome. *)
Lemma run_microtasks_spec st :
  consistent st ->
  let st' := run_microtasks st in
  same_core st st' /\ consistent st' /\ quiescent st'
  /\ length (returned st') = length (returned st)
  /\ (forall f, f ∈ frames st ->
        match frame_outcome f (promises st) with
        | Some o => returned st' !! outer_of f = Some o
        | None => f ∈ frames st'
        end)
  /\ (forall f, f ∈ frames st' -> f ∈ frames st)
  /\ (forall q r, returned st !! q = Some r -> r <> Pending ->
        returned st' !! q = Some r)
  /\ (forall q, q ∉ outer_of <$> frames st ->
        returned st' !! q = returned st !! q).
Proof.
  intros Hc. unfold run_microtasks.
  destruct (resume_fold (frames st) (set_frames [] st))
    as (I1 & I2 & I3 & I4 & I5 & I6 & I7 & I8).
  - apply Hc.
  - intros f Hf. by apply (con_outers _ Hc).
  - intros f Hf. by apply not_elem_of_nil in Hf.
  - remember (foldl (fun s f => resume f s) (set_frames [] st) (frames st))
      as st' eqn:Est. clear Est. cbn zeta.
    change (frames (set_frames [] st) ++ frames st) with (frames st) in I4.
    split_and!; try done.
    + destruct I1 as (E1&E2&E3&E4&E5&E6).
      destruct Hc as [H1 H2 H3 H4 H5 H6 H7 H8].
      split; rewrite ?E1, ?E2, ?E3, ?E4, ?E5, ?E6; try done.
      intros f Hf. destruct (I4 f Hf) as (_ & ? & Hp).
      rewrite E4 in Hp. by rewrite Hp.
    + intros f Hf. by apply I4.
    + intros f Hf. by apply I4.
Qed.

Lemma consistent_handle e st : consistent st -> consistent (handle e st).
Proof.
  intros Hc. destruct e; simpl.
  - by apply consistent_sendRequest.
  - by apply consistent_listTools.
  - by apply consistent_getTool_call.
  - done.
  - by apply consistent_on_data.
  - by apply consistent_fire.
  - by apply consistent_elapse.
Qed.

Lemma consistent_step e st : consistent st -> consistent (step e st).
Proof.
  intros Hc. apply run_microtasks_spec. by apply consistent_handle.
Qed.

Lemma quiescent_step e st : consistent st -> quiescent (step e st).
Proof.
  intros Hc. apply run_microtasks_spec. by apply consistent_handle.
Qed.

Lemma run_snoc tr e st : run (tr ++ [e]) st = step e (run tr st).
Proof. unfold run. by rewrite foldl_app. Qed.

Lemma consistent_run tr : forall st, consistent st -> consistent (run tr st).
Proof.
  induction tr as [|e tr IH]; intros st Hc; [done|].
  apply IH. by apply consistent_step.
Qed.

Lemma quiescent_new t : quiescent (new_StdioClient t).
Proof. intros f Hf. by apply not_elem_of_nil in Hf. Qed.

Lemma quiescent_run tr : forall st,
  consistent st -> quiescent st -> quiescent (run tr st).
Proof.
  induction tr as [|e tr IH]; intros st Hc Hq; [done|].
  apply IH; [by apply consistent_step|by apply quiescent_step].
Qed.

Lemma reachable_consistent st : reachable st -> consistent st.
Proof. intros (t & tr & ->). apply consistent_run, consistent_new. Qed.

Lemma reachable_quiescent st : reachable st -> quiescent st.
Proof.
  intros (t & tr & ->).
  apply quiescent_run; [apply consistent_new|apply quiescent_new].
Qed.

Lemma reachable_new t : reachable (new_StdioClient t).
Proof. by exists t, []. Qed.

Lemma reachable_step e st : reachable st -> reachable (step e st).
Proof.
  intros (t & tr & ->). exists t, (tr ++ [e]). by rewrite run_snoc.
Qed.

Lemma reachable_run tr st : reachable st -> reachable (run tr st).
Proof.
  revert st. induction tr as [|e tr IH]; intros st Hr; [done|].
  apply IH. by apply reachable_step.
Qed.

(** ** Identifiers *)

Lemma str_inj s1 s2 : str s1 = str s2 -> s1 = s2.
Proof.
  revert s2. induction s1 as [|a s1 IH]; intros [|b s2]; simpl; try done.
  intros [= Ha Hs]. f_equal; [|by apply IH].
  rewrite <- (ascii_N_embedding a), <- (ascii_N_embedding b). by rewrite Ha.
Qed.

Lemma String_of_number_inj n m :
  String_of_number n = String_of_number m -> n = m.
Proof. intros H. by apply (inj pretty), str_inj. Qed.



(** Every key of the table is the numeral of a request that was written. *)
Lemma queue_key_written st s e :
  consistent st -> messageQueue st !! s = Some e ->
  exists rq, stdin st !! timeoutId e = Some rq /\ rq_id rq = s.
Proof.
  intros Hc He. destruct (con_queue _ Hc _ _ He) as (_ & t & Ht & <-).
  destruct (con_timers _ Hc _ _ Ht) as (_ & _ & rq & ? & ? & _). eauto.
Qed.



(** * The claims *)

(** ** Server identity *)

(** C9. In every state of the client [getServerInfo] returns a promise
    that is already fulfilled with the record whose name is
    notion-mcp-server and whose version is 1.5.0; it leaves the whole
    client state as it was, so nothing is written to the process, no entry
    is registered and nothing is read, and the promise is never a
    rejected one. *)
Theorem getServerInfo_fixed st :
  getServerInfo st
  = (Fulfilled
       (Some (JObject [(str "name", JString (str "notion-mcp-server"));
                       (str "version", JString (str "1.5.0"))])),
     st)
  /\ (forall reason, (getServerInfo st).1 <> Rejected reason)
  /\ (getServerInfo st).1 <> Pending
  /\ stdin (handle CallGetServerInfo st) = stdin st
  /\ messageQueue (handle CallGetServerInfo st) = messageQueue st
  /\ handle CallGetServerInfo st = st.
Proof. by split_and!. Qed.

(** ** Stopping the process *)

Lemma shutdown_objects reason w :
  objects (shutdownNotionMCPServer reason w) = objects w.
Proof. unfold shutdownNotionMCPServer. by destruct (notionMCPServerProcess w). Qed.

Lemma on_exit_objects code signal w :
  objects (on_exit code signal w) = objects w.
Proof. done. Qed.

(** C8. [shutdownNotionMCPServer] never touches a client object, so the
    pending request table of every client (with its promises and timers)
    is the same after it as before.  When no process is running it changes
    nothing but the console, to which it always writes its one line; when
    one is running it kills it and clears both module variables.  Called a
    second time it therefore finds no process and changes nothing more. *)
Theorem shutdown_idempotent reason reason' w :
  let w1 := shutdownNotionMCPServer reason w in
  let w2 := shutdownNotionMCPServer reason' w1 in
  objects w1 = objects w
  /\ supervisor_console w1 = supervisor_console w ++ [ShuttingDown reason]
  /\ match notionMCPServerProcess w with
     | None =>
         notionMCPServerProcess w1 = None
         /\ notionMCPClient w1 = notionMCPClient w
         /\ killed w1 = killed w
     | Some proc =>
         notionMCPServerProcess w1 = None
         /\ notionMCPClient w1 = None
         /\ killed w1 = killed w ++ [proc]
     end
  /\ notionMCPServerProcess w2 = notionMCPServerProcess w1
  /\ notionMCPClient w2 = notionMCPClient w1
  /\ killed w2 = killed w1
  /\ objects w2 = objects w1.
Proof.
  unfold shutdownNotionMCPServer.
  destruct (notionMCPServerProcess w) as [proc|] eqn:Hp; simpl;
    rewrite ?Hp; by split_and!.
Qed.

(** ** Timeouts *)

(** A due timer whose key is still in the table rejects its promise and
    drops the key. *)
Lemma fire_due k t st :
  consistent st -> timers st !! k = Some t -> tm_due t <= now st ->
  is_Some (messageQueue st !! tm_id t) ->
  promises (fire k st)
  = <[k := Rejected (timeout_message (tm_method t))]> (promises st)
  /\ promises (fire k st) !! k = Some (Rejected (timeout_message (tm_method t)))
  /\ messageQueue (fire k st) = delete (tm_id t) (messageQueue st)
  /\ timers (fire k st) = delete k (timers st)
  /\ stdin (fire k st) = stdin st.
Proof.
  intros Hc Ht Hdue [e He].
  destruct (con_timers _ Hc _ _ Ht) as (Hr & Hp & _).
  unfold fire. rewrite Ht. apply N.leb_le in Hdue. rewrite Hdue.
  unfold timeout_callback.
  change (messageQueue (set_timers _ st)) with (messageQueue st).
  rewrite He, Hr. simpl. rewrite (settle_in_pending _ _ _ Hp).
  split_and!; try done.
  apply list_lookup_insert_eq. by eapply lookup_lt_Some.
Qed.


(** ** Transport closure *)

(** C5, as the specification states it, fails: with one request pending,
    neither [shutdownNotionMCPServer] nor the [exit] listener rejects it;
    the entry stays in the table and its promise stays pending.  What
    rejects it, ten seconds later, is its own timer, with the timeout
    error. *)
Lemma closure_leaves_request_pending :
  messageQueue one_pending_client !! str "0" = Some (mkPending 0 0)
  /\ promises one_pending_client !! 0%nat = Some Pending
  /\ (exists st,
        objects (shutdownNotionMCPServer (str "SIGTERM signal")
                   one_pending_world) !! 0%nat = Some st
        /\ messageQueue st !! str "0" = Some (mkPending 0 0)
        /\ promises st !! 0%nat = Some Pending)
  /\ (exists st,
        objects (on_exit (Some 1) None one_pending_world) !! 0%nat = Some st
        /\ messageQueue st !! str "0" = Some (mkPending 0 0)
        /\ promises st !! 0%nat = Some Pending)
  /\ (exists st,
        objects (client_event 0 (TimerDue 0)
                   (client_event 0 (Elapse 10000)
                      (shutdownNotionMCPServer (str "SIGTERM signal")
                         one_pending_world))) !! 0%nat = Some st
        /\ promises st !! 0%nat
           = Some (Rejected (timeout_message (str "tools/call")))).
Proof.
  split_and!; [by vm_compute..| | |].
  - exists one_pending_client; by vm_compute.
  - exists one_pending_client; by vm_compute.
  - eexists. split; by vm_compute.
Qed.


(** ** The stdout listener *)

Lemma same_but_console_logs es st : same_but_console st (logs es st).
Proof. by repeat split. Qed.

Lemma same_but_console_refl st : same_but_console st st.
Proof. by repeat split. Qed.

(** The handling of a line reads nothing from the console. *)
Lemma handle_message_congr m st1 st2 :
  same_but_console st1 st2 ->
  same_but_console (handle_message m st1) (handle_message m st2).
Proof.
  intros (E1&E2&E3&E4&E5&E6&E7&E8). unfold handle_message.
  destruct m as [|c m]; [by repeat split|].
  destruct (negb (startsWith_brace (c :: m))); [by repeat split|].
  destruct (JSON_parse (c :: m)) as [response|]; [|by repeat split].
  unfold dispatch.
  destruct (prop (str "id") (Some response)) as [id|]; [|by repeat split].
  destruct (negb (truthy (Some id))); [by repeat split|].
  change (messageQueue (log (ParsedResponse response) st1))
    with (messageQueue st1).
  change (messageQueue (log (ParsedResponse response) st2))
    with (messageQueue st2).
  rewrite E2.
  destruct (queue_get id (messageQueue st1)) as [e|];
    [|destruct (to_string_ok id); by repeat split].
  destruct (truthy (prop (str "error") (Some response)));
    [destruct (new_Error_ok _)|]; repeat split; simpl; congruence.
Qed.

Lemma handle_messages_congr ms : forall st1 st2,
  same_but_console st1 st2 ->
  same_but_console (handle_messages ms st1) (handle_messages ms st2).
Proof.
  induction ms as [|m ms IH]; intros st1 st2 H; [done|].
  apply IH. by apply handle_message_congr.
Qed.

Lemma handle_messages_app ms1 ms2 st :
  handle_messages (ms1 ++ ms2) st
  = handle_messages ms2 (handle_messages ms1 st).
Proof. unfold handle_messages. apply foldl_app. Qed.

(** A line that is not taken as an envelope only writes its console line. *)
Lemma handle_message_malformed bad st :
  startsWith_brace bad = false \/ JSON_parse bad = None ->
  handle_message bad st = logs (malformed_lines bad) st.
Proof.
  intros H. unfold handle_message, malformed_lines.
  destruct bad as [|c m]; [by rewrite logs_nil|].
  destruct (startsWith_brace (c :: m)) eqn:Hb; [|done].
  destruct H as [H|H]; [done|]. by rewrite H.
Qed.

(** A line that starts with a brace and parses is dispatched. *)
Lemma handle_message_valid m response st :
  startsWith_brace m = true -> JSON_parse m = Some response ->
  handle_message m st = dispatch m response st.
Proof.
  intros Hb Hp. unfold handle_message. destruct m as [|c m]; [done|].
  by rewrite Hb, Hp.
Qed.

Lemma console_handle_messages_prefix ms : forall st,
  exists es, console (handle_messages ms st) = console st ++ es.
Proof.
  induction ms as [|m ms IH]; intros st.
  { exists []. by rewrite app_nil_r. }
  destruct (IH (handle_message m st)) as [es Hes]. simpl. rewrite Hes.
  destruct (handle_message_cases m st)
    as [[es' ->]|(r & s & e & o & _ & _ & _ & _ & _ & _ & ->)];
    simpl; rewrite <- app_assoc; by eexists.
Qed.

(** C6. Let a chunk hold a line [bad] that does not start with a brace or
    that [JSON.parse] rejects, between the lines [before] and [after].
    The line changes nothing but the console, where it gets its line
    (skipped as non-JSON, or a parse error; an empty line gets none of
    its own) after the raw text of the whole chunk; no promise of any
    caller changes.  The loop goes on with the lines after it, and the
    chunk as a whole leaves the client, up to the console, in the state it
    would be in without the line: every other line is handled as if [bad]
    were not there, and each line that starts with a brace and parses is
    dispatched. *)
Theorem malformed_line_skipped rawData before bad after st :
  split_nl (trim rawData) = before ++ bad :: after ->
  startsWith_brace bad = false \/ JSON_parse bad = None ->
  let st1 := handle_messages before (log (RawResponse rawData) st) in
  handle_message bad st1 = logs (malformed_lines bad) st1
  /\ console (handle_message bad st1) = console st1 ++ malformed_lines bad
  /\ (bad <> [] ->
      malformed_lines bad = [SkippingNonJSON bad]
      \/ malformed_lines bad = [ErrorParsingJSON bad])
  /\ promises (handle_message bad st1) = promises st1
  /\ returned (handle_message bad st1) = returned st1
  /\ messageQueue (handle_message bad st1) = messageQueue st1
  /\ RawResponse rawData ∈ console (on_data rawData st)
  /\ on_data rawData st = handle_messages after (handle_message bad st1)
  /\ same_but_console
       (handle_messages (before ++ after) (log (RawResponse rawData) st))
       (on_data rawData st)
  /\ (forall m response s,
        startsWith_brace m = true -> JSON_parse m = Some response ->
        handle_message m s = dispatch m response s).
Proof.
  intros Hsplit Hbad st1.
  rewrite (handle_message_malformed bad st1 Hbad).
  assert (on_data rawData st
          = handle_messages after (logs (malformed_lines bad) st1)) as Hon.
  { unfold on_data. rewrite Hsplit, handle_messages_app. simpl.
    by rewrite (handle_message_malformed bad _ Hbad). }
  split_and!; try done.
  - intros Hne. unfold malformed_lines. destruct bad; [done|].
    destruct (startsWith_brace _); auto.
  - unfold on_data.
    destruct (console_handle_messages_prefix (split_nl (trim rawData))
                (log (RawResponse rawData) st)) as [es ->].
    simpl. set_solver.
  - rewrite Hon, handle_messages_app. apply handle_messages_congr.
    apply same_but_console_logs.
  - intros m response s. apply handle_message_valid.
Qed.

(** ** Responses *)




(** A line whose identifier is not in the table only writes to the
    console. *)
Lemma handle_message_unknown message st :
  (forall response s,
     JSON_parse message = Some response ->
     prop (str "id") (Some response) = Some (JString s) ->
     messageQueue st !! s = None) ->
  exists es, handle_message message st = logs es st.
Proof.
  intros Hno.
  destruct (handle_message_cases message st)
    as [H|(r & s & e & o & _ & Hp & Hid & He & _ & _ & _)]; [done|].
  by rewrite (Hno r s Hp Hid) in He.
Qed.

(** ** Framing *)

Lemma parsed_envelopes_app es1 es2 :
  parsed_envelopes (es1 ++ es2) = parsed_envelopes es1 ++ parsed_envelopes es2.
Proof. apply omap_app. Qed.

(** Each dispatched envelope is on the console as parsed, once. *)
Lemma dispatch_parsed m r st :
  parsed_envelopes (console (dispatch m r st))
  = parsed_envelopes (console st) ++ [r].
Proof.
  unfold dispatch.
  destruct (prop (str "id") (Some r)) as [id|];
    [|simpl; by rewrite !parsed_envelopes_app, app_nil_r].
  destruct (negb (truthy (Some id)));
    [simpl; by rewrite !parsed_envelopes_app, app_nil_r|].
  destruct (queue_get id _) as [e|];
    [|destruct (to_string_ok id); simpl;
      by rewrite !parsed_envelopes_app, ?app_nil_r].
  destruct (truthy (prop (str "error") (Some r)));
    [destruct (new_Error_ok _)|];
    simpl; by rewrite !parsed_envelopes_app, ?app_nil_r.
Qed.

Lemma handle_message_parsed m st :
  parsed_envelopes (console (handle_message m st))
  = parsed_envelopes (console st)
    ++ match (if startsWith_brace m then JSON_parse m else None) with
       | Some r => [r]
       | None => []
       end.
Proof.
  unfold handle_message. destruct m as [|c m]; [by rewrite app_nil_r|].
  destruct (startsWith_brace (c :: m)); simpl negb; cbv iota;
    [|simpl; by rewrite !parsed_envelopes_app].
  destruct (JSON_parse (c :: m)) as [r|];
    [apply dispatch_parsed|simpl; by rewrite !parsed_envelopes_app].
Qed.

Lemma handle_messages_parsed ms : forall st,
  parsed_envelopes (console (handle_messages ms st))
  = parsed_envelopes (console st)
    ++ omap (fun m => if startsWith_brace m then JSON_parse m else None) ms.
Proof.
  induction ms as [|m ms IH]; intros st; [by rewrite app_nil_r|].
  simpl. rewrite IH, handle_message_parsed, <- app_assoc. f_equal.
  by destruct (if startsWith_brace m then JSON_parse m else None).
Qed.

Lemma on_data_parsed rawData st :
  parsed_envelopes (console (on_data rawData st))
  = parsed_envelopes (console st) ++ frame_chunk rawData.
Proof.
  unfold on_data. rewrite handle_messages_parsed. simpl.
  by rewrite parsed_envelopes_app, app_nil_r.
Qed.

(** C3, as the specification states it, fails: when the message for
    request 1 arrives split into the two chunks of the example, the first
    half is reported as a parse error and the second is skipped as
    non-JSON; no envelope is parsed, and request 1 remains in the table
    with its promise pending. *)
Lemma split_message_is_lost :
  let st := run [StdoutData (wire "{'id':'1'");
                 StdoutData (wire ",'result':{}}|")] two_pending_client in
  parsed_envelopes (console two_pending_client) = []
  /\ parsed_envelopes (console st) = []
  /\ ErrorParsingJSON (wire "{'id':'1'") ∈ console st
  /\ SkippingNonJSON (wire ",'result':{}}") ∈ console st
  /\ messageQueue st !! str "1" = Some (mkPending 1 1)
  /\ promises st !! 1%nat = Some Pending.
Proof.
  split_and!; try by vm_compute.
  - vm_compute. apply list_elem_of_In. simpl. tauto.
  - vm_compute. apply list_elem_of_In. simpl. tauto.
Qed.

(** C3, amended.  The listener keeps no text from one chunk to the next:
    the envelopes parsed out of two successive chunks are those of the
    first chunk followed by those of the second, where a chunk by itself
    yields the lines of its trimmed text that start with a brace and that
    [JSON.parse] accepts.  Of the message of the example neither half
    yields an envelope, so split across two chunks it yields none;
    delivered in one chunk it yields exactly one. *)
Theorem framer_keeps_no_buffer chunk1 chunk2 st :
  parsed_envelopes (console (on_data chunk1 st))
  = parsed_envelopes (console st) ++ frame_chunk chunk1
  /\ parsed_envelopes (console (on_data chunk2 (on_data chunk1 st)))
     = parsed_envelopes (console st)
       ++ frame_chunk chunk1 ++ frame_chunk chunk2
  /\ frame_chunk (wire "{'id':'1'") = []
  /\ frame_chunk (wire ",'result':{}}|") = []
  /\ frame_chunk (wire "{'id':'1','result':{}}|")
     = [JObject [(str "id", JString (str "1")); (str "result", JObject [])]].
Proof.
  split_and!.
  - apply on_data_parsed.
  - by rewrite !on_data_parsed, <- app_assoc.
  - by vm_compute.
  - by vm_compute.
  - by vm_compute.
Qed.

(** ** The facade over time *)

(** What the stdout listener and the timers leave alone. *)
Lemma handle_messages_frame ms : forall st,
  let st' := handle_messages ms st in
  stdin st' = stdin st /\ messageId st' = messageId st
  /\ returned st' = returned st /\ frames st' = frames st /\ now st' = now st
  /\ length (promises st') = length (promises st)
  /\ (forall q r, promises st !! q = Some r -> r <> Pending ->
        promises st' !! q = Some r).
Proof.
  induction ms as [|m ms IH]; intros st; [by split_and!|].
  destruct (IH (handle_message m st)) as (E1&E2&E3&E4&E5&E6&E7).
  simpl. rewrite E1, E2, E3, E4, E5, E6.
  destruct (handle_message_cases m st)
    as [[es Hm]|(r & s & e & o & _ & _ & _ & _ & _ & _ & Hm)]; rewrite Hm in *;
    simpl; split_and!; try done.
  - apply settle_in_length.
  - intros q r' Hq Hr. apply E7; [|done]. simpl. by apply settle_in_settled.
Qed.

Lemma fire_frame k st :
  let st' := fire k st in
  stdin st' = stdin st /\ messageId st' = messageId st
  /\ returned st' = returned st /\ frames st' = frames st /\ now st' = now st
  /\ length (promises st') = length (promises st)
  /\ (forall q r, promises st !! q = Some r -> r <> Pending ->
        promises st' !! q = Some r).
Proof.
  destruct (fire_cases k st)
    as [[-> _]|[(t & _ & _ & _ & ->)|(t & e & _ & _ & _ & ->)]];
    simpl; split_and!; try done.
  - apply settle_in_length.
  - intros q r Hq Hr. by apply settle_in_settled.
Qed.

Lemma handle_frames e st f : f ∈ frames st -> f ∈ frames (handle e st).
Proof.
  intros Hf. destruct e; simpl; try done; try set_solver.
  - unfold on_data. by rewrite (proj1 (proj2 (proj2 (proj2
      (handle_messages_frame _ _))))).
  - by rewrite (proj1 (proj2 (proj2 (proj2 (fire_frame _ _))))).
Qed.

Lemma handle_returned e st q r :
  returned st !! q = Some r -> returned (handle e st) !! q = Some r.
Proof.
  intros Hq. destruct e; simpl; try done;
    try by apply lookup_app_l_Some.
  - unfold on_data. by rewrite (proj1 (proj2 (proj2
      (handle_messages_frame _ _)))).
  - by rewrite (proj1 (proj2 (proj2 (fire_frame _ _)))).
Qed.

Lemma handle_settled e st q r :
  promises st !! q = Some r -> r <> Pending ->
  promises (handle e st) !! q = Some r.
Proof.
  intros Hq Hr. destruct e; simpl; try done;
    try by apply lookup_app_l_Some.
  - unfold on_data. by apply handle_messages_frame.
  - by apply fire_frame.
Qed.

Lemma frame_outcome_settled f ps o :
  frame_outcome f ps = Some o ->
  o <> Pending
  /\ exists r, ps !! awaited_of f = Some r /\ r <> Pending
       /\ forall ps', ps' !! awaited_of f = Some r ->
            frame_outcome f ps' = Some o.
Proof.
  unfold frame_outcome.
  destruct (ps !! awaited_of f) as [[|v|err]|] eqn:Hp; try done.
  - intros [= <-]. split; [done|]. exists (Fulfilled v). split_and!; try done.
    by intros ps' ->.
  - intros Ho. split; [by destruct f; injection Ho as <-|].
    exists (Rejected err). split_and!; try done. by intros ps' ->.
Qed.

(** The link between a suspended body and its returned promise survives
    every event. *)
Lemma linked_step e st f :
  consistent st -> linked f st -> linked f (step e st).
Proof.
  intros Hc Hl. pose proof (consistent_handle e st Hc) as Hc'.
  destruct (run_microtasks_spec (handle e st) Hc')
    as ((_&_&_&Ep&_) & _ & _ & _ & Hres & _ & Hkeep & _).
  unfold linked in *. fold (step e st) in *. rewrite Ep.
  destruct (frame_outcome f (promises st)) as [o|] eqn:Ho.
  - destruct (frame_outcome_settled _ _ _ Ho) as (Hne & r & Hr & Hrne & Hsame).
    rewrite (Hsame (promises (handle e st)));
      [|by apply handle_settled].
    apply Hkeep; [|done]. by apply handle_returned.
  - apply Hres. by apply handle_frames.
Qed.

Lemma linked_run tr : forall st f,
  consistent st -> linked f st -> linked f (run tr st).
Proof.
  induction tr as [|e tr IH]; intros st f Hc Hl; [done|].
  apply IH; [by apply consistent_step|by apply linked_step].
Qed.

(** Right after an [async] call of the facade its body is linked. *)
Lemma linked_async_call f method params st :
  awaited_of f = length (promises st) ->
  outer_of f = length (returned st) ->
  consistent st ->
  linked f (run_microtasks
              (suspend f (sendRequest method params (async_promise st).2).2)).
Proof.
  intros Ha Ho Hc.
  pose proof (consistent_async_call f method params st Ha Ho Hc) as Hc'.
  destruct (run_microtasks_spec _ Hc')
    as ((_&_&_&Ep&_) & _ & _ & _ & Hres & _).
  unfold linked. rewrite Ep. apply Hres.
  change (f ∈ frames st ++ [f]). set_solver.
Qed.

Lemma linked_pending f st :
  consistent st -> linked f st ->
  promises st !! awaited_of f = Some Pending ->
  returned st !! outer_of f = Some Pending.
Proof.
  intros Hc Hl Hp. unfold linked, frame_outcome in Hl. rewrite Hp in Hl.
  by apply (con_outers _ Hc).
Qed.

(** C7. After [listTools] is called, at every later time: if the promise
    of the underlying tools/list request has been rejected, by its timeout
    or by an error response, the promise [listTools] returned is fulfilled
    with the object whose [tools] is the empty array, and is not rejected;
    if the underlying promise is fulfilled, [listTools] is fulfilled with
    the same value; while it is pending, so is [listTools].  A call through
    [getTool] on the other hand hands the rejection of its underlying
    promise on to its caller, with the same error, and a direct caller of
    [sendRequest] holds the underlying promise itself. *)
Theorem listTools_swallows_failure st tr namespace name params method :
  reachable st ->
  let p := length (promises st) in
  let listed := run tr (step CallListTools st) in
  let called := run tr (step (CallTool namespace name params) st) in
  (listTools st).1 = length (returned st)
  /\ stdin (step CallListTools st) !! length (stdin st)
     = Some (mkRequest (str "2.0") (String_of_number (messageId st))
               (str "tools/list") (JObject []))
  /\ (forall err, promises listed !! p = Some (Rejected err) ->
        returned listed !! (listTools st).1
        = Some (Fulfilled (Some (JObject [(str "tools", JArray [])]))))
  /\ (forall v, promises listed !! p = Some (Fulfilled v) ->
        returned listed !! (listTools st).1 = Some (Fulfilled v))
  /\ (promises listed !! p = Some Pending ->
        returned listed !! (listTools st).1 = Some Pending)
  /\ (forall err, promises called !! p = Some (Rejected err) ->
        returned called !! (getTool_call namespace name params st).1
        = Some (Rejected err))
  /\ (sendRequest method params st).1 = p.
Proof.
  intros Hr p listed called. pose proof (reachable_consistent st Hr) as Hc.
  set (fl := ListToolsFrame p (length (returned st))).
  set (fc := CallFrame p (length (returned st))).
  assert (linked fl listed) as Hl.
  { apply linked_run; [by apply consistent_step|].
    by apply (linked_async_call fl). }
  assert (linked fc called) as Hcl.
  { apply linked_run; [by apply consistent_step|].
    by apply (linked_async_call fc). }
  assert (consistent listed) as Hcl'.
  { apply consistent_run. by apply consistent_step. }
  split_and!; try done.
  - destruct (run_microtasks_spec (handle CallListTools st)
                (consistent_handle _ _ Hc)) as ((E1&_) & _).
    unfold step. rewrite E1. simpl.
    apply list_lookup_middle. reflexivity.
  - intros err Hp. unfold linked, frame_outcome in Hl. simpl in Hl.
    by rewrite Hp in Hl.
  - intros v Hp. unfold linked, frame_outcome in Hl. simpl in Hl.
    by rewrite Hp in Hl.
  - intros Hp. by apply (linked_pending fl).
  - intros err Hp. unfold linked, frame_outcome in Hcl. simpl in Hcl.
    by rewrite Hp in Hcl.
Qed.

(** ** Allocation of identifiers *)

Lemma run_microtasks_no_frames st : frames st = [] -> run_microtasks st = st.
Proof. destruct st. simpl. by intros ->. Qed.

Lemma step_stdin e st :
  consistent st -> stdin (step e st) = stdin (handle e st).
Proof.
  intros Hc.
  by destruct (run_microtasks_spec (handle e st) (consistent_handle e st Hc))
    as ((E1&_) & _).
Qed.

Lemma handle_stdin_length e st :
  (length (stdin st) <= length (stdin (handle e st)))%nat.
Proof.
  destruct e; simpl; rewrite ?length_app; try lia.
  - unfold on_data. by rewrite (proj1 (handle_messages_frame _ _)).
  - by rewrite (proj1 (fire_frame _ _)).
Qed.

Lemma run_stdin_length tr : forall st,
  consistent st -> (length (stdin st) <= length (stdin (run tr st)))%nat.
Proof.
  induction tr as [|e tr IH]; intros st Hc; [done|]. simpl.
  etrans; [|apply IH; by apply consistent_step].
  rewrite step_stdin by done. apply handle_stdin_length.
Qed.

(** A run of nothing but calls of [sendRequest]. *)
Lemma sends_run n : forall st,
  consistent st -> frames st = [] ->
  let st' := run (sends n) st in
  length (stdin st') = (length (stdin st) + n)%nat
  /\ frames st' = [] /\ now st' = now st.
Proof.
  induction n as [|n IH]; intros st Hc Hf; simpl.
  { split_and!; [lia|done..]. }
  set (st1 := step (CallSendRequest (str "tools/call") (JObject [])) st).
  assert (st1 = (sendRequest (str "tools/call") (JObject []) st).2) as E.
  { unfold st1, step. by apply run_microtasks_no_frames. }
  destruct (IH st1) as (I1 & I2 & I3).
  - by apply consistent_step.
  - by rewrite E.
  - fold (sends n). rewrite I1, I2, I3, E. simpl. rewrite length_app. simpl.
    split_and!; [lia|done..].
Qed.

Lemma sends_run_new n t :
  let st := run (sends n) (new_StdioClient t) in
  consistent st /\ length (stdin st) = n /\ frames st = []
  /\ length (promises st) = n
  /\ messageId st = N.min (N.of_nat n) (2 ^ 53).
Proof.
  intros st. assert (consistent st) as Hc by apply consistent_run, consistent_new.
  destruct (sends_run n (new_StdioClient t)) as (Hlen & Hf & _);
    [apply consistent_new|done|].
  fold st in Hlen, Hf. simpl in Hlen.
  split_and!; try done.
  - by rewrite (con_length _ Hc).
  - by rewrite (con_next _ Hc), Hlen.
Qed.

(** The identifier of the request number [i], while the counter has not
    reached its limit. *)
Lemma identifier_below_limit st i rq :
  consistent st -> stdin st !! i = Some rq ->
  N.of_nat (length (stdin st)) <= counter_limit + 1 ->
  rq_id rq = String_of_number (N.of_nat i).
Proof.
  intros Hc Hi Hb. rewrite (con_ids _ Hc _ _ Hi). f_equal.
  apply lookup_lt_Some in Hi. unfold counter_limit in Hb. lia.
Qed.

(** Past the limit of the counter the identifier no longer changes. *)
Lemma identifier_at_limit n i1 i2 :
  N.of_nat i1 = 2 ^ 53 -> N.of_nat i2 = 2 ^ 53 + 1 ->
  N.of_nat n = 2 ^ 53 + 2 ->
  i1 <> i2
  /\ exists rq1 rq2,
       stdin (run (sends n) (new_StdioClient 0)) !! i1 = Some rq1
       /\ stdin (run (sends n) (new_StdioClient 0)) !! i2 = Some rq2
       /\ rq_id rq1 = str "9007199254740992"
       /\ rq_id rq2 = str "9007199254740992".
Proof.
  intros E1 E2 En.
  assert (String_of_number (2 ^ 53) = str "9007199254740992") as Hs
    by (by vm_compute).
  set (st := run (sends n) (new_StdioClient 0)).
  destruct (sends_run_new n 0) as (Hc & Hlen & _). fold st in Hc, Hlen.
  split; [lia|].
  destruct (lookup_lt_is_Some_2 (stdin st) i1) as [rq1 H1]; [lia|].
  destruct (lookup_lt_is_Some_2 (stdin st) i2) as [rq2 H2]; [lia|].
  exists rq1, rq2. split_and!; [done..| |].
  - rewrite (con_ids _ Hc _ _ H1), E1, N.min_id. exact Hs.
  - rewrite (con_ids _ Hc _ _ H2), E2, <- Hs. f_equal; try lia.
Qed.

(** C2, as the specification states it, fails: a Number cannot count past
    [2^53].  Of [2^53 + 2] calls in a row the last two, number [2^53] and
    number [2^53 + 1], are both given the identifier 9007199254740992. *)
Lemma identifier_repeats :
  N.to_nat (2 ^ 53) <> N.to_nat (2 ^ 53 + 1)
  /\ exists rq1 rq2,
       stdin worn_client !! N.to_nat (2 ^ 53) = Some rq1
       /\ stdin worn_client !! N.to_nat (2 ^ 53 + 1) = Some rq2
       /\ rq_id rq1 = str "9007199254740992"
       /\ rq_id rq2 = str "9007199254740992".
Proof. apply identifier_at_limit; apply N2Nat.id. Qed.

(** C2, amended.  In every state of a client, whatever calls, responses
    and timeouts came in whatever order, as long as at most [2^53 + 1]
    requests were sent: the request number [i] carries the decimal numeral
    of [i] as its identifier, so the identifiers grow strictly with the
    order of the calls and no two requests share one; the counter equals
    the number of requests sent (at most [2^53]), and the next call takes
    its numeral. *)
Theorem identifiers_unique st :
  reachable st ->
  N.of_nat (length (stdin st)) <= 2 ^ 53 + 1 ->
  (forall i rq, stdin st !! i = Some rq ->
     rq_id rq = String_of_number (N.of_nat i))
  /\ (forall i j rqi rqj,
        stdin st !! i = Some rqi -> stdin st !! j = Some rqj ->
        rq_id rqi = rq_id rqj -> i = j)
  /\ messageId st = N.min (N.of_nat (length (stdin st))) (2 ^ 53)
  /\ (forall method params,
        stdin (sendRequest method params st).2
        = stdin st ++ [mkRequest (str "2.0") (String_of_number (messageId st))
                         method params]).
Proof.
  intros Hr Hb. pose proof (reachable_consistent st Hr) as Hc.
  split_and!.
  - intros i rq Hi. by apply (identifier_below_limit st).
  - intros i j rqi rqj Hi Hj Heq.
    rewrite (identifier_below_limit st i rqi), (identifier_below_limit st j rqj)
      in Heq by done.
    apply String_of_number_inj in Heq. lia.
  - apply Hc.
  - done.
Qed.

(** ** Written requests and the table *)

Lemma response_outcome_settled response o :
  response_outcome response = Some o -> o <> Pending.
Proof.
  unfold response_outcome. destruct (truthy _); [destruct (new_Error_ok _)|];
    by intros [= <-].
Qed.

Lemma tracked_same st st' :
  stdin st' = stdin st -> messageQueue st' = messageQueue st ->
  promises st' = promises st -> tracked st -> tracked st'.
Proof. unfold tracked. intros -> -> ->. done. Qed.

Lemma tracked_answered s e o es st :
  consistent st -> messageQueue st !! s = Some e -> o <> Pending ->
  tracked st -> tracked (answered s e o es st).
Proof.
  intros Hc He Ho Htr i rq Hi. change (stdin st !! i = Some rq) in Hi.
  change (messageQueue (answered s e o es st))
    with (delete s (messageQueue st)).
  change (promises (answered s e o es st))
    with (settle_in (settles e) o (promises st)).
  destruct (decide (rq_id rq = s)) as [<-|Hne].
  - right. split; [apply lookup_delete_eq|]. exists o. split; [|done].
    destruct (Htr i rq Hi) as [[Hq Hp]|[Hq _]]; [|congruence].
    rewrite He in Hq. injection Hq as ->. simpl.
    by apply settle_in_lookup_eq.
  - destruct (queue_key_written st s e Hc He) as (rq' & Hrq' & Hid').
    destruct (con_queue _ Hc _ _ He) as (Heq & _).
    assert (settles e <> i) as Hi'.
    { intros <-. rewrite Heq, Hi in Hrq'. congruence. }
    rewrite lookup_delete_ne, settle_in_lookup_ne by done. by apply Htr.
Qed.

Lemma tracked_handle_messages ms : forall st,
  consistent st -> tracked st -> tracked (handle_messages ms st).
Proof.
  induction ms as [|m ms IH]; intros st Hc Htr; [done|].
  apply IH; [by apply consistent_handle_message|].
  destruct (handle_message_cases m st)
    as [[es ->]|(r & s & e & o & _ & _ & _ & He & _ & Ho & ->)]; [done|].
  apply tracked_answered; try done. by eapply response_outcome_settled.
Qed.

Lemma tracked_fire k st : consistent st -> tracked st -> tracked (fire k st).
Proof.
  intros Hc Htr.
  destruct (fire_cases k st)
    as [[-> _]|[(t & Ht & _ & He & ->)|(t & e & Ht & _ & He & ->)]];
    [done|done|].
  destruct (con_timers _ Hc _ _ Ht) as (Hrej & Hp & rqk & Hk & Hidk & _).
  assert (e = mkPending k k) as ->.
  { destruct (Htr k rqk Hk) as [[Hq _]|[Hq _]]; rewrite Hidk in Hq; congruence. }
  intros i rq Hi. simpl in Hi |- *. rewrite Hrej.
  destruct (decide (rq_id rq = tm_id t)) as [Heq|Hne].
  - right. rewrite Heq. split; [apply lookup_delete_eq|].
    destruct (Htr i rq Hi) as [[Hq _]|[Hq _]]; rewrite Heq in Hq; [|congruence].
    rewrite He in Hq. injection Hq as <-.
    eexists. split; [by apply settle_in_lookup_eq|done].
  - assert (k <> i) as Hki.
    { intros <-. rewrite Hk in Hi. congruence. }
    rewrite lookup_delete_ne, settle_in_lookup_ne by done. by apply Htr.
Qed.

(** A call keeps the earlier requests registered provided its identifier
    is new, which it is while the counter still counts. *)
Lemma tracked_sendRequest method params st :
  consistent st ->
  N.of_nat (length (stdin st)) + 1 <= counter_limit + 1 ->
  tracked st -> tracked (sendRequest method params st).2.
Proof.
  intros Hc Hb Htr i rq Hi. unfold counter_limit in Hb.
  unfold sendRequest, sendRequest_register in Hi |- *. simpl in Hi |- *.
  assert (messageId st = N.of_nat (length (stdin st))) as Hnext.
  { rewrite (con_next _ Hc). lia. }
  pose proof (con_length _ Hc) as Hlen.
  apply lookup_app_Some in Hi as [Hi|[Hge Hi]].
  - assert (rq_id rq <> String_of_number (messageId st)) as Hne.
    { rewrite (identifier_below_limit st i rq Hc Hi), Hnext
        by (unfold counter_limit; lia).
      intros Heq. apply String_of_number_inj in Heq.
      apply lookup_lt_Some in Hi. lia. }
    rewrite lookup_insert_ne by done.
    destruct (Htr i rq Hi) as [[Hq Hp]|[Hq (o & Hp & Ho)]].
    + left. split; [done|]. by apply lookup_app_l_Some.
    + right. split; [done|]. exists o. split; [|done].
      by apply lookup_app_l_Some.
  - apply list_lookup_singleton_Some in Hi as [Hi <-]. simpl.
    assert (i = length (promises st)) as -> by lia.
    left. split; [apply lookup_insert_eq|].
    apply list_lookup_middle. reflexivity.
Qed.

Lemma tracked_handle e st :
  consistent st ->
  N.of_nat (length (stdin (handle e st))) <= counter_limit + 1 ->
  tracked st -> tracked (handle e st).
Proof.
  intros Hc Hb Htr. destruct e; simpl in Hb |- *; try done.
  - apply tracked_sendRequest; try done.
    rewrite length_app in Hb. simpl in Hb. lia.
  - eapply tracked_same; [..|apply (tracked_sendRequest (str "tools/list")
      (JObject []) (async_promise st).2)]; try done.
    + by apply consistent_async_promise.
    + rewrite length_app in Hb. simpl in Hb |- *. lia.
  - eapply tracked_same; [..|apply (tracked_sendRequest (str "tools/call")
      (JObject [(str "name", JString (namespace ++ str "-" ++ name));
                (str "arguments", params)]) (async_promise st).2)]; try done.
    + by apply consistent_async_promise.
    + rewrite length_app in Hb. simpl in Hb |- *. lia.
  - apply tracked_handle_messages; [by apply consistent_log|done].
  - by apply tracked_fire.
Qed.

Lemma tracked_step e st :
  consistent st ->
  N.of_nat (length (stdin (step e st))) <= counter_limit + 1 ->
  tracked st -> tracked (step e st).
Proof.
  intros Hc Hb Htr. rewrite step_stdin in Hb by done.
  destruct (run_microtasks_spec (handle e st) (consistent_handle e st Hc))
    as ((E1&E2&_&E4&_) & _).
  eapply tracked_same; [exact E1|exact E2|exact E4|].
  by apply tracked_handle.
Qed.

Lemma tracked_run tr : forall st,
  consistent st ->
  N.of_nat (length (stdin (run tr st))) <= counter_limit + 1 ->
  tracked st -> tracked (run tr st).
Proof.
  induction tr as [|e tr IH]; intros st Hc Hb Htr; [done|].
  simpl in Hb |- *. pose proof (consistent_step e st Hc) as Hc'.
  apply IH; try done. apply tracked_step; try done.
  pose proof (run_stdin_length tr (step e st) Hc'). lia.
Qed.

Lemma tracked_new t : tracked (new_StdioClient t).
Proof. intros i rq Hi. done. Qed.

(** While the counter counts, an armed timer finds its identifier in the
    table: nothing but the call's own response or timeout removes it. *)
Lemma armed_timer_registered st i t :
  reachable st ->
  N.of_nat (length (stdin st)) <= counter_limit + 1 ->
  timers st !! i = Some t ->
  messageQueue st !! tm_id t = Some (mkPending i i).
Proof.
  intros (c & tr & ->) Hb Ht.
  set (st := run tr (new_StdioClient c)) in *.
  assert (consistent st) as Hc by apply consistent_run, consistent_new.
  assert (tracked st) as Htr.
  { apply tracked_run; [apply consistent_new|done|apply tracked_new]. }
  destruct (con_timers _ Hc _ _ Ht) as (_ & Hp & rq & Hrq & <- & _).
  destruct (Htr i rq Hrq) as [[Hq _]|[_ (o & Ho & Hne)]]; [done|].
  congruence.
Qed.

Lemma sendRequest_fields method params st :
  let st' := (sendRequest method params st).2 in
  let id := String_of_number (messageId st) in
  let p := length (promises st) in
  stdin st' = stdin st ++ [mkRequest (str "2.0") id method params]
  /\ messageQueue st' = <[id := mkPending p p]> (messageQueue st)
  /\ messageId st' = js_incr (messageId st)
  /\ promises st' = promises st ++ [Pending]
  /\ timers st' = <[p := mkTimer id method p (now st + timeout_ms)]> (timers st)
  /\ frames st' = frames st /\ now st' = now st.
Proof. by split_and!. Qed.

Lemma step_no_frames e st : frames (handle e st) = [] -> step e st = handle e st.
Proof. apply run_microtasks_no_frames. Qed.

(** Two calls with the counter at its limit share an identifier; when the
    timer of the first runs it removes the entry of the second, whose
    promise stays pending and whose timer is not yet due. *)
Lemma collision st n :
  consistent st -> frames st = [] ->
  messageId st = 2 ^ 53 -> length (promises st) = n ->
  let st' := run [CallSendRequest (str "tools/call") (JObject []);
                  Elapse 1;
                  CallSendRequest (str "tools/call") (JObject []);
                  Elapse 9999;
                  TimerDue n] st in
  exists rq t,
    stdin st' !! S n = Some rq
    /\ messageQueue st' !! rq_id rq = None
    /\ promises st' !! S n = Some Pending
    /\ timers st' !! S n = Some t
    /\ now st' < tm_due t.
Proof.
  intros Hc Hf Hid Hn st'. pose proof (con_length _ Hc) as Hlen.
  assert (js_incr (2 ^ 53) = 2 ^ 53) as Hincr by done.
  set (m := str "tools/call") in *. set (pa := JObject []) in *.
  set (id := String_of_number (2 ^ 53)).
  (* first call *)
  set (s1 := (sendRequest m pa st).2).
  destruct (sendRequest_fields m pa st) as (A1 & A2 & A3 & A4 & A5 & A6 & A7).
  fold s1 in A1, A2, A3, A4, A5, A6, A7.
  rewrite Hid in A1, A2, A3, A5. fold id in A1, A2, A5.
  rewrite Hn in A2, A5. rewrite Hincr in A3. rewrite Hf in A6.
  assert (consistent s1) as Hc1 by by apply consistent_sendRequest.
  (* a millisecond passes *)
  set (s2 := set_now (now s1 + 1) s1).
  assert (consistent s2) as Hc2 by by apply consistent_elapse.
  (* second call *)
  set (s3 := (sendRequest m pa s2).2).
  destruct (sendRequest_fields m pa s2) as (B1 & B2 & B3 & B4 & B5 & B6 & B7).
  fold s3 in B1, B2, B3, B4, B5, B6, B7.
  change (messageId s2) with (messageId s1) in B1, B2, B5.
  change (stdin s2) with (stdin s1) in B1.
  change (messageQueue s2) with (messageQueue s1) in B2.
  change (promises s2) with (promises s1) in B2, B4, B5.
  change (timers s2) with (timers s1) in B5.
  change (frames s2) with (frames s1) in B6.
  change (now s2) with (now s1 + 1) in B5, B7.
  rewrite A3 in B1, B2, B5. fold id in B1, B2, B5.
  rewrite A4, length_app, Hn in B2, B5. simpl length in B2, B5.
  replace (n + 1)%nat with (S n) in B2, B5 by lia.
  rewrite A6 in B6. rewrite A7 in B5, B7.
  assert (consistent s3) as Hc3 by by apply consistent_sendRequest.
  (* the rest of the ten seconds passes *)
  set (s4 := set_now (now s3 + 9999) s3).
  assert (consistent s4) as Hc4 by by apply consistent_elapse.
  (* the first timer runs *)
  set (t1 := mkTimer id m n (now st + timeout_ms)).
  assert (timers s4 !! n = Some t1) as Ht1.
  { change (timers s4) with (timers s3). rewrite B5, A5.
    rewrite lookup_insert_ne by lia. apply lookup_insert_eq. }
  assert (tm_due t1 <= now s4) as Hdue.
  { change (now s4) with (now s3 + 9999). rewrite B7. simpl. unfold timeout_ms.
    lia. }
  assert (is_Some (messageQueue s4 !! tm_id t1)) as Hq.
  { change (messageQueue s4) with (messageQueue s3). rewrite B2. simpl.
    rewrite lookup_insert_eq. by eexists. }
  destruct (fire_due n t1 s4 Hc4 Ht1 Hdue Hq) as (F1 & _ & F3 & F4 & F5).
  destruct (fire_frame n s4) as (_ & _ & _ & F6 & F7 & _).
  assert (st' = fire n s4) as ->.
  { unfold st', run. simpl foldl.
    rewrite (step_no_frames (CallSendRequest m pa) st) by exact A6.
    change (handle (CallSendRequest m pa) st) with s1.
    rewrite (step_no_frames (Elapse 1) s1) by exact A6.
    change (handle (Elapse 1) s1) with s2.
    rewrite (step_no_frames (CallSendRequest m pa) s2) by exact B6.
    change (handle (CallSendRequest m pa) s2) with s3.
    rewrite (step_no_frames (Elapse 9999) s3) by exact B6.
    change (handle (Elapse 9999) s3) with s4.
    apply step_no_frames. simpl handle. by rewrite F6. }
  exists (mkRequest (str "2.0") id m pa),
         (mkTimer id m (S n) (now st + 1 + timeout_ms)).
  rewrite F1, F3, F4, F5, F7.
  change (stdin s4) with (stdin s3). change (promises s4) with (promises s3).
  change (timers s4) with (timers s3). change (messageQueue s4)
    with (messageQueue s3). change (now s4) with (now s3 + 9999).
  rewrite B1, A1, B4, A4, B5, B7. simpl tm_id. simpl rq_id. simpl tm_due.
  split_and!.
  - apply list_lookup_middle. rewrite length_app, <- Hlen, Hn. simpl. lia.
  - apply lookup_delete_eq.
  - rewrite list_lookup_insert_ne by lia.
    apply list_lookup_middle. rewrite length_app, Hn. simpl. lia.
  - rewrite lookup_delete_ne by lia. apply lookup_insert_eq.
  - unfold timeout_ms. lia.
Qed.

(** C10, as the specification states it, fails once the counter is at
    its limit: in [collided_client] the request number [2^53 + 1] has been
    written to the process, its identifier is not in the table, and yet
    its promise is pending and its own timer has not run. *)
Lemma request_dropped_unsettled :
  exists rq t,
    stdin collided_client !! S (N.to_nat (2 ^ 53)) = Some rq
    /\ messageQueue collided_client !! rq_id rq = None
    /\ promises collided_client !! S (N.to_nat (2 ^ 53)) = Some Pending
    /\ timers collided_client !! S (N.to_nat (2 ^ 53)) = Some t
    /\ now collided_client < tm_due t.
Proof.
  destruct (sends_run_new (N.to_nat (2 ^ 53)) 0) as (Hc & _ & Hf & Hlen & Hid).
  rewrite N2Nat.id, N.min_id in Hid.
  exact (collision _ _ Hc Hf Hid Hlen).
Qed.

(** C10, amended.  A call of [sendRequest] passes through its states
    in the order of the source, and ends in the last.  In every state of
    the call in which the line has been written, the entry is in the table
    under the call's identifier, the timer is armed for 10000 ms and the
    promise is pending; and there is a state of the call, the one in which
    the line is then written, that has all three while [stdin] is still
    without the line: registration and timer come strictly before the
    write.  Hence, as long as at most [2^53 + 1] requests were sent,
    every request written to the process is either in the table under its
    identifier, with its own entry and a pending promise, or its promise
    has been settled (fulfilled, rejected, or rejected by its timeout); no
    written request is absent from the table and still pending. *)
Theorem registered_before_written st :
  reachable st ->
  N.of_nat (length (stdin st)) <= 2 ^ 53 + 1 ->
  (forall method params s,
     let rq := mkRequest (str "2.0") (String_of_number (messageId s))
                 method params in
     let p := length (promises s) in
     let states := sendRequest_states method params s in
     let registered s' :=
       messageQueue s' !! rq_id rq = Some (mkPending p p)
       /\ timers s' !! p = Some (mkTimer (rq_id rq) method p (now s + 10000))
       /\ promises s' !! p = Some Pending in
     sendRequest method params s = (p, List.last states s)
     /\ stdin (sendRequest method params s).2 = stdin s ++ [rq]
     /\ (forall k s', states !! k = Some s' ->
           stdin s' <> stdin s -> registered s')
     /\ (exists k s',
           states !! k = Some s'
           /\ stdin s' = stdin s
           /\ registered s'
           /\ states !! S k = Some (stdin_write rq s')
           /\ (sendRequest method params s).2 = stdin_write rq s'))
  /\ (forall i rq, stdin st !! i = Some rq ->
        (messageQueue st !! rq_id rq = Some (mkPending i i)
         /\ promises st !! i = Some Pending)
        \/ (messageQueue st !! rq_id rq = None
            /\ exists o, promises st !! i = Some o /\ o <> Pending))
  /\ (forall i rq, stdin st !! i = Some rq ->
        messageQueue st !! rq_id rq = None ->
        exists o, promises st !! i = Some o /\ o <> Pending).
Proof.
  intros (t & tr & ->) Hb.
  assert (tracked (run tr (new_StdioClient t))) as Htr.
  { apply tracked_run; [apply consistent_new|done|apply tracked_new]. }
  split_and!.
  - intros method params s rq p states registered.
    assert (registered (stdin_write rq
              (List.last (removelast states) s))) as Hreg.
    { unfold registered, states, sendRequest_states. simpl. split_and!.
      - apply lookup_insert_eq.
      - apply lookup_insert_eq.
      - apply list_lookup_middle. reflexivity. }
    split_and!; try done.
    + intros k s' Hk Hne.
      destruct k as [|[|[|[|[|[|k]]]]]]; simpl in Hk; try done;
        injection Hk as <-; try (by destruct Hne).
      exact Hreg.
    + exists 4%nat, (List.last (removelast states) s).
      split_and!; try done.
  - exact Htr.
  - intros i rq Hi Hq. destruct (Htr i rq Hi) as [[Hq' _]|[_ Ho]]; [|done].
    congruence.
Qed.

(** ** Later states *)

Lemma handle_stdin e st :
  stdin (handle e st) = stdin st ++ written_by e st.
Proof.
  destruct e; simpl; try done; try by rewrite app_nil_r.
  - unfold on_data. rewrite (proj1 (handle_messages_frame _ _)). simpl.
    by rewrite app_nil_r.
  - rewrite (proj1 (fire_frame _ _)). by rewrite app_nil_r.
Qed.

Lemma run_stdin_keeps tr : forall st i rq,
  consistent st -> stdin st !! i = Some rq -> stdin (run tr st) !! i = Some rq.
Proof.
  induction tr as [|e' tr IH]; intros st i rq Hc Hi; [done|].
  apply (IH (step e' st)); [by apply consistent_step|].
  rewrite step_stdin, handle_stdin by done. by apply lookup_app_l_Some.
Qed.

Lemma handle_message_frame m st :
  let st' := handle_message m st in
  stdin st' = stdin st
  /\ (forall q r, promises st !! q = Some r -> r <> Pending ->
        promises st' !! q = Some r).
Proof.
  destruct (handle_messages_frame [m] st) as (E1 & _ & _ & _ & _ & _ & E7).
  split; [exact E1|exact E7].
Qed.

Lemma consistent_microtasks st : consistent st -> consistent (run_microtasks st).
Proof. intros Hc. by destruct (run_microtasks_spec st Hc) as (_ & ? & _). Qed.

(** Along the way a client stays consistent, keeps what it has written
    and keeps every settled promise. *)
Lemma later_keeps st0 st :
  later_than st0 st -> consistent st0 ->
  consistent st
  /\ (forall i rq, stdin st0 !! i = Some rq -> stdin st !! i = Some rq)
  /\ (forall p r, promises st0 !! p = Some r -> r <> Pending ->
        promises st !! p = Some r).
Proof.
  intros Hl Hc0. induction Hl as [|st' raw _ (Hc & Hs & Hp)
    |st' m _ (Hc & Hs & Hp)|st' e _ (Hc & Hs & Hp)|st' _ (Hc & Hs & Hp)].
  - done.
  - split_and!; [by apply consistent_log|done|done].
  - destruct (handle_message_frame m st') as (E1 & E2).
    split_and!; [by apply consistent_handle_message| |].
    + intros i rq Hi. rewrite E1. by apply Hs.
    + intros p r Hr Hne. apply E2; [|done]. by apply Hp.
  - split_and!; [by apply consistent_handle| |].
    + intros i rq Hi. rewrite handle_stdin. apply lookup_app_l_Some.
      by apply Hs.
    + intros p r Hr Hne. apply handle_settled; [|done]. by apply Hp.
  - destruct (run_microtasks_spec st' Hc) as ((E1 & _ & _ & E4 & _) & Hc' & _).
    split_and!; [done| |].
    + intros i rq Hi. rewrite E1. by apply Hs.
    + intros p r Hr Hne. rewrite E4. by apply Hp.
Qed.

Lemma later_stdin_length st0 st :
  later_than st0 st -> consistent st0 ->
  (length (stdin st0) <= length (stdin st))%nat.
Proof.
  intros Hl Hc0. induction Hl as [|st' raw Hl IH|st' m Hl IH|st' e Hl IH
    |st' Hl IH].
  - done.
  - done.
  - by rewrite (proj1 (handle_message_frame m st')).
  - etrans; [exact IH|apply handle_stdin_length].
  - destruct (later_keeps st0 st' Hl Hc0) as (Hc & _).
    destruct (run_microtasks_spec st' Hc) as ((E1 & _) & _). by rewrite E1.
Qed.







(** ** Responses that find their request *)




(** ** Timeouts of calls *)

Lemma step_core e st : consistent st -> same_core (handle e st) (step e st).
Proof.
  intros Hc.
  by destruct (run_microtasks_spec (handle e st) (consistent_handle e st Hc))
    as (? & _).
Qed.

(** While the counter counts, a pending promise has its request written,
    its entry in the table and its timer armed. *)
Lemma pending_registered st i :
  reachable st ->
  N.of_nat (length (stdin st)) <= 2 ^ 53 + 1 ->
  promises st !! i = Some Pending ->
  exists rq t,
    stdin st !! i = Some rq
    /\ messageQueue st !! rq_id rq = Some (mkPending i i)
    /\ timers st !! i = Some t
    /\ tm_id t = rq_id rq /\ tm_method t = rq_method rq
    /\ tm_due t <= now st + 10000.
Proof.
  intros Hr Hb Hp. pose proof (reachable_consistent st Hr) as Hc.
  destruct Hr as (c & tr & ->).
  set (st := run tr (new_StdioClient c)) in *.
  assert (tracked st) as Htr.
  { apply tracked_run; [apply consistent_new|done|apply tracked_new]. }
  destruct (lookup_lt_is_Some_2 (stdin st) i) as [rq Hrq].
  { rewrite <- (con_length _ Hc). by eapply lookup_lt_Some. }
  destruct (Htr i rq Hrq) as [[Hq _]|[_ (o & Ho & Hne)]]; [|congruence].
  destruct (con_queue _ Hc _ _ Hq) as (_ & t & Ht & Hid). simpl in Ht.
  destruct (con_timers _ Hc _ _ Ht) as (Hrej & _ & rq' & Hrq' & _ & Hm).
  rewrite Hrq in Hrq'. injection Hrq' as <-.
  exists rq, t. split_and!; try done. apply (con_due _ Hc _ _ Ht).
Qed.

(** A timer that runs once it is due: with its identifier in the table
    it rejects its promise and removes the entry; without, it does
    nothing but disappear. *)
Lemma due_timer_runs st i t ms :
  consistent st ->
  timers st !! i = Some t ->
  tm_due t <= now st + ms ->
  let st' := step (TimerDue i) (step (Elapse ms) st) in
  timers st' = delete i (timers st)
  /\ (is_Some (messageQueue st !! tm_id t) ->
        promises st'
        = <[i := Rejected (timeout_message (tm_method t))]> (promises st)
        /\ promises st' !! i = Some (Rejected (timeout_message (tm_method t)))
        /\ messageQueue st' = delete (tm_id t) (messageQueue st))
  /\ (messageQueue st !! tm_id t = None ->
        promises st' = promises st /\ messageQueue st' = messageQueue st).
Proof.
  intros Hc Ht Hdue st'.
  set (s1 := step (Elapse ms) st) in *.
  assert (consistent s1) as Hc1 by by apply consistent_step.
  destruct (step_core (Elapse ms) st Hc) as (_ & E2 & _ & E4 & E5 & E6).
  fold s1 in E2, E4, E5, E6. simpl in E2, E4, E5, E6.
  destruct (step_core (TimerDue i) s1 Hc1) as (_ & F2 & _ & F4 & F5 & _).
  fold st' in F2, F4, F5. simpl handle in F2, F4, F5.
  assert (timers s1 !! i = Some t) as Ht1 by by rewrite E5.
  assert (tm_due t <= now s1) as Hdue1 by (rewrite E6; lia).
  rewrite F2, F4, F5.
  destruct (fire_cases i s1)
    as [[_ [Hn|(t' & Ht' & Hearly)]]
       |[(t' & Ht' & _ & Hq & ->)|(t' & e & Ht' & _ & Hq & ->)]].
  - congruence.
  - rewrite Ht1 in Ht'. injection Ht' as <-. lia.
  - rewrite Ht1 in Ht'. injection Ht' as <-. rewrite E2 in Hq.
    simpl. rewrite E2, E4, E5. split_and!; [done| |done].
    intros [e He]. congruence.
  - rewrite Ht1 in Ht'. injection Ht' as <-. rewrite E2 in Hq.
    destruct (con_timers _ Hc _ _ Ht) as (Hr & Hp & _).
    simpl. rewrite E2, E4, E5, Hr. rewrite (settle_in_pending _ _ _ Hp).
    split_and!; [done| |intros Hn; congruence].
    intros _. split_and!; try done.
    apply list_lookup_insert_eq. by eapply lookup_lt_Some.
Qed.

Lemma run_app tr1 tr2 st : run tr2 (run tr1 st) = run (tr1 ++ tr2) st.
Proof. unfold run. symmetry. apply foldl_app. Qed.

Lemma reachable_collided : reachable collided_client.
Proof. exact (ex_intro _ 0 (ex_intro _ _ (run_app _ _ _))). Qed.

(** A pending call whose identifier is not in the table is not rejected
    by its timer. *)
Lemma unregistered_call_not_rejected st i :
  consistent st ->
  (exists rq t,
     stdin st !! i = Some rq
     /\ messageQueue st !! rq_id rq = None
     /\ promises st !! i = Some Pending
     /\ timers st !! i = Some t
     /\ now st < tm_due t) ->
  exists rq t,
    stdin st !! i = Some rq
    /\ promises st !! i = Some Pending
    /\ timers st !! i = Some t
    /\ tm_id t = rq_id rq /\ tm_method t = rq_method rq
    /\ forall ms, tm_due t <= now st + ms ->
         let st' := step (TimerDue i) (step (Elapse ms) st) in
         promises st' !! i = Some Pending
         /\ timers st' !! i = None
         /\ messageQueue st' !! rq_id rq = None.
Proof.
  intros Hcc (rq & t & Hrq & Hq & Hp & Ht & _).
  destruct (con_timers _ Hcc _ _ Ht) as (_ & _ & rq' & Hrq' & Hrid & Hm).
  rewrite Hrq in Hrq'. injection Hrq' as <-.
  exists rq, t. split_and!; try done.
  intros ms Hdue st'.
  destruct (due_timer_runs st i t ms Hcc Ht Hdue) as (T1 & _ & T3).
  rewrite <- Hrid in T3. destruct (T3 Hq) as (T4 & T5).
  fold st' in T1, T4, T5. rewrite T1, T4, T5.
  split_and!; [done|apply lookup_delete_eq|done].
Qed.

(** C4, as the specification states it, fails once the counter is at its
    limit.  In [collided_client] the call number [2^53 + 1] has been
    written, has received nothing and is pending with its timer armed,
    but the timer of the call before it, which has the same identifier,
    has taken its entry.  However long after its ten seconds its own
    timer runs, the call is not rejected: its promise stays pending, and
    the timer is gone. *)
Lemma timeout_rejects_nothing :
  reachable collided_client
  /\ exists rq t,
       stdin collided_client !! S (N.to_nat (2 ^ 53)) = Some rq
       /\ promises collided_client !! S (N.to_nat (2 ^ 53)) = Some Pending
       /\ timers collided_client !! S (N.to_nat (2 ^ 53)) = Some t
       /\ tm_id t = rq_id rq /\ tm_method t = rq_method rq
       /\ forall ms, tm_due t <= now collided_client + ms ->
            let st' := step (TimerDue (S (N.to_nat (2 ^ 53))))
                         (step (Elapse ms) collided_client) in
            promises st' !! S (N.to_nat (2 ^ 53)) = Some Pending
            /\ timers st' !! S (N.to_nat (2 ^ 53)) = None
            /\ messageQueue st' !! rq_id rq = None.
Proof.
  split; [exact reachable_collided|].
  destruct (sends_run_new (N.to_nat (2 ^ 53)) 0) as (Hc & _ & Hf & Hlen & Hid).
  rewrite N2Nat.id, N.min_id in Hid.
  exact (unregistered_call_not_rejected _ _
           (reachable_consistent _ reachable_collided)
           (collision _ _ Hc Hf Hid Hlen)).
Qed.

(** C4, amended.  The call of [sendRequest] arms a timer due 10000 ms
    later that carries the call's identifier and method.  In every state
    a client can reach in which at most [2^53 + 1] requests were sent, a
    call that has not been answered, its promise being pending, has that
    timer armed, due at most 10000 ms from now, and its identifier in the
    table with its own entry.  Before it is due the timer does not run.
    When it runs, at once if it is due or after any time that makes it
    due, the call's promise is rejected with the error "Request timed out
    after 10 seconds: " followed by the method, no other promise changes,
    and afterwards the table does not contain the identifier and the
    timer is gone. *)
Theorem timeout_rejects st i rq :
  reachable st ->
  N.of_nat (length (stdin st)) <= 2 ^ 53 + 1 ->
  stdin st !! i = Some rq ->
  promises st !! i = Some Pending ->
  (forall method params s,
     let '(p, s') := sendRequest method params s in
     timers s' !! p
     = Some (mkTimer (String_of_number (messageId s)) method p (now s + 10000)))
  /\ exists t,
       timers st !! i = Some t
       /\ tm_id t = rq_id rq /\ tm_method t = rq_method rq
       /\ tm_due t <= now st + 10000
       /\ messageQueue st !! rq_id rq = Some (mkPending i i)
       /\ (now st < tm_due t -> fire i st = st)
       /\ (forall ms, tm_due t <= now st + ms ->
             let st' := step (TimerDue i) (step (Elapse ms) st) in
             promises st' !! i
             = Some (Rejected
                       (Error (Some (JString
                          (str "Request timed out after 10 seconds: "
                           ++ rq_method rq)))))
             /\ (forall j, j <> i -> promises st' !! j = promises st !! j)
             /\ messageQueue st' !! rq_id rq = None
             /\ timers st' !! i = None)
       /\ (tm_due t <= now st ->
             let st' := step (TimerDue i) st in
             promises st' !! i
             = Some (Rejected
                       (Error (Some (JString
                          (str "Request timed out after 10 seconds: "
                           ++ rq_method rq)))))
             /\ (forall j, j <> i -> promises st' !! j = promises st !! j)
             /\ messageQueue st' !! rq_id rq = None
             /\ timers st' !! i = None).
Proof.
  intros Hr Hb Hrq Hp. pose proof (reachable_consistent st Hr) as Hc.
  destruct (pending_registered st i Hr Hb Hp)
    as (rq' & t & Hrq' & Hq & Ht & Hid & Hm & Hdue).
  rewrite Hrq in Hrq'. injection Hrq' as <-.
  split.
  { intros method params s. unfold sendRequest. simpl.
    apply lookup_insert_eq. }
  exists t.
  assert (is_Some (messageQueue st !! tm_id t)) as Hsome.
  { rewrite Hid, Hq. by eexists. }
  split_and!; try done.
  - intros Hearly. unfold fire. rewrite Ht.
    by destruct (N.leb_spec (tm_due t) (now st)); [lia|].
  - intros ms Hms st'.
    destruct (due_timer_runs st i t ms Hc Ht Hms) as (T1 & T2 & _).
    destruct (T2 Hsome) as (T3 & T4 & T5).
    fold st' in T1, T3, T4, T5. rewrite T1, T3, T5, Hid, <- Hm.
    split_and!.
    + apply list_lookup_insert_eq. by eapply lookup_lt_Some.
    + intros j Hj. by apply list_lookup_insert_ne.
    + apply lookup_delete_eq.
    + apply lookup_delete_eq.
  - intros Hnow st'.
    destruct (fire_due i t st Hc Ht Hnow Hsome) as (E1 & E2 & E3 & E4 & E5).
    destruct (step_core (TimerDue i) st Hc) as (_ & F2 & _ & F4 & F5 & _).
    fold st' in F2, F4, F5. simpl handle in F2, F4, F5.
    rewrite F2, F4, F5, E1, E3, E4, Hid, <- Hm.
    split_and!.
    + apply list_lookup_insert_eq. by eapply lookup_lt_Some.
    + intros j Hj. by apply list_lookup_insert_ne.
    + apply lookup_delete_eq.
    + apply lookup_delete_eq.
Qed.

(** ** Pending calls after the transport has closed *)

(** Calls, the passage of time and the timers of other promises leave a
    pending promise and its timer as they are. *)
Lemma quiet_step i e st t :
  consistent st ->
  promises st !! i = Some Pending ->
  timers st !! i = Some t ->
  quiet i e ->
  promises (step e st) !! i = Some Pending
  /\ timers (step e st) !! i = Some t.
Proof.
  intros Hc Hp Ht Hq.
  destruct (step_core e st Hc) as (_ & _ & _ & F4 & F5 & _).
  rewrite F4, F5. clear F4 F5.
  assert (forall method params s,
            promises s = promises st -> timers s = timers st ->
            promises (sendRequest method params s).2 !! i = Some Pending
            /\ timers (sendRequest method params s).2 !! i = Some t) as Hsend.
  { intros method params s Ep Et.
    destruct (sendRequest_fields method params s) as (_ & _ & _ & A4 & A5 & _).
    rewrite A4, A5, Ep, Et. split.
    - by apply lookup_app_l_Some.
    - rewrite lookup_insert_ne; [done|].
      apply lookup_lt_Some in Hp. lia. }
  destruct e as [method params| |namespace name params| |raw|k|ms];
    simpl in Hq; try done.
  - exact (Hsend method params st eq_refl eq_refl).
  - exact (Hsend (str "tools/list") (JObject []) (async_promise st).2
             eq_refl eq_refl).
  - exact (Hsend (str "tools/call")
             (JObject [(str "name", JString (namespace ++ str "-" ++ name));
                       (str "arguments", params)])
             (async_promise st).2 eq_refl eq_refl).
  - simpl handle. destruct (fire_cases k st)
      as [[-> _]|[(t' & Ht' & _ & _ & ->)|(t' & e & Ht' & _ & _ & ->)]];
      [done| |].
    + simpl. by rewrite lookup_delete_ne.
    + destruct (con_timers _ Hc _ _ Ht') as (Hr & _).
      simpl. rewrite Hr, settle_in_lookup_ne by done.
      by rewrite lookup_delete_ne.
Qed.

Lemma quiet_run i t tr : forall st,
  consistent st ->
  promises st !! i = Some Pending ->
  timers st !! i = Some t ->
  Forall (quiet i) tr ->
  promises (run tr st) !! i = Some Pending
  /\ timers (run tr st) !! i = Some t.
Proof.
  induction tr as [|e tr IH]; intros st Hc Hp Ht Hq; [done|].
  apply Forall_cons in Hq as [He Hq].
  destruct (quiet_step i e st t Hc Hp Ht He) as [Hp' Ht'].
  apply IH; try done. by apply consistent_step.
Qed.

(** C5, amended.  Neither the [exit] listener nor
    [shutdownNotionMCPServer] rejects or removes anything: every client
    object is left exactly as it was.  A call that is pending then stays
    pending, with its entry in the table and its timer armed, through
    whatever follows except a chunk from the server and its own timer:
    further calls, the passage of time, the timers of other calls.  That
    timer is due at most 10000 ms after the transport closed, and when it
    runs, after any time that makes it due, it rejects the call with the
    timeout error naming its method.  This holds as long as at most
    [2^53 + 1] requests were sent on the client; the timeout is the only
    rejection a pending call gets after the transport has closed. *)
Theorem closure_rejects_nothing w a st reason code signal :
  objects w !! a = Some st ->
  reachable st ->
  objects (shutdownNotionMCPServer reason w) !! a = Some st
  /\ objects (on_exit code signal w) !! a = Some st
  /\ forall i tr,
       promises st !! i = Some Pending ->
       Forall (quiet i) tr ->
       let st2 := run tr st in
       N.of_nat (length (stdin st2)) <= 2 ^ 53 + 1 ->
       exists rq t,
         stdin st !! i = Some rq
         /\ timers st !! i = Some t
         /\ tm_due t <= now st + 10000
         /\ promises st2 !! i = Some Pending
         /\ timers st2 !! i = Some t
         /\ messageQueue st2 !! rq_id rq = Some (mkPending i i)
         /\ forall ms, tm_due t <= now st2 + ms ->
              promises (step (TimerDue i) (step (Elapse ms) st2)) !! i
              = Some (Rejected (timeout_message (rq_method rq))).
Proof.
  intros Ha Hr. pose proof (reachable_consistent st Hr) as Hc.
  rewrite shutdown_objects, on_exit_objects. split_and!; [done..|].
  intros i tr Hp Hq st2 Hb2.
  assert (N.of_nat (length (stdin st)) <= 2 ^ 53 + 1) as Hb.
  { pose proof (run_stdin_length tr st Hc). fold st2 in H. lia. }
  destruct (pending_registered st i Hr Hb Hp)
    as (rq & t & Hrq & _ & Ht & _ & _ & Hdue).
  destruct (quiet_run i t tr st Hc Hp Ht Hq) as [Hp2 Ht2].
  fold st2 in Hp2, Ht2.
  assert (reachable st2) as Hr2 by by apply reachable_run.
  pose proof (reachable_consistent st2 Hr2) as Hc2.
  destruct (pending_registered st2 i Hr2 Hb2 Hp2)
    as (rq2 & t2 & Hrq2 & Hq2 & Ht2' & Hid2 & Hm2 & _).
  rewrite Ht2 in Ht2'. injection Ht2' as <-.
  assert (rq2 = rq) as ->.
  { pose proof (run_stdin_keeps tr st i rq Hc Hrq) as Hk. fold st2 in Hk.
    congruence. }
  exists rq, t. split_and!; try done.
  intros ms Hms.
  destruct (due_timer_runs st2 i t ms Hc2 Ht2 Hms) as (_ & T2 & _).
  destruct T2 as (_ & T4 & _); [rewrite Hid2, Hq2; by eexists|].
  by rewrite T4, Hm2.
Qed.

(** * The theorems at work on sample states *)

Lemma reachable_one_pending : reachable one_pending_client.
Proof.
  exists 0, [CallSendRequest (str "tools/call") (JObject [])]. reflexivity.
Defined.

Lemma reachable_two_pending : reachable two_pending_client.
Proof.
  exists 0, [CallSendRequest (str "tools/call") (JObject []);
             CallSendRequest (str "tools/call") (JObject [])].
  reflexivity.
Defined.

Lemma reachable_overdue : reachable overdue_client.
Proof.
  exists 0, [CallSendRequest (str "tools/call") (JObject []); Elapse 10000].
  reflexivity.
Defined.

Lemma reachable_fresh : reachable (new_StdioClient 0).
Proof. exists 0, []. reflexivity. Defined.


(** Two requests: identifiers 0 and 1. *)
Lemma identifiers_unique_witness :
  reachable two_pending_client
  /\ N.of_nat (length (stdin two_pending_client)) <= 2 ^ 53 + 1
  /\ forall i rq, stdin two_pending_client !! i = Some rq ->
       rq_id rq = String_of_number (N.of_nat i).
Proof.
  assert (N.of_nat (length (stdin two_pending_client)) <= 2 ^ 53 + 1) as H2
    by (vm_compute; discriminate).
  split; [exact reachable_two_pending|]. split; [exact H2|].
  exact (proj1 (identifiers_unique two_pending_client
                  reachable_two_pending H2)).
Defined.

(** The unanswered request is rejected when its timer runs. *)
Lemma timeout_rejects_witness :
  reachable overdue_client
  /\ N.of_nat (length (stdin overdue_client)) <= 2 ^ 53 + 1
  /\ stdin overdue_client !! 0%nat = Some overdue_request
  /\ promises overdue_client !! 0%nat = Some Pending
  /\ timers overdue_client !! 0%nat = Some overdue_timer
  /\ promises (step (TimerDue 0) overdue_client) !! 0%nat
     = Some (Rejected (Error (Some (JString
         (str "Request timed out after 10 seconds: tools/call"))))).
Proof.
  assert (N.of_nat (length (stdin overdue_client)) <= 2 ^ 53 + 1) as H2
    by (vm_compute; discriminate).
  assert (stdin overdue_client !! 0%nat = Some overdue_request) as H3
    by (vm_compute; reflexivity).
  assert (promises overdue_client !! 0%nat = Some Pending) as H4
    by (vm_compute; reflexivity).
  assert (timers overdue_client !! 0%nat = Some overdue_timer) as H5
    by (vm_compute; reflexivity).
  split; [exact reachable_overdue|]. split; [exact H2|]. split; [exact H3|].
  split; [exact H4|]. split; [exact H5|].
  destruct (proj2 (timeout_rejects overdue_client 0 overdue_request
                     reachable_overdue H2 H3 H4))
    as (t & Ht & _ & _ & _ & _ & _ & _ & Hnow).
  rewrite H5 in Ht. injection Ht as <-.
  apply Hnow. vm_compute. discriminate.
Defined.

(** Shutdown leaves the pending request to its timer: five seconds later
    it is still pending. *)
Lemma closure_rejects_nothing_witness :
  objects one_pending_world !! 0%nat = Some one_pending_client
  /\ reachable one_pending_client
  /\ objects (shutdownNotionMCPServer (str "SIGINT signal") one_pending_world)
       !! 0%nat = Some one_pending_client
  /\ objects (on_exit (Some 0) None one_pending_world) !! 0%nat
     = Some one_pending_client
  /\ promises one_pending_client !! 0%nat = Some Pending
  /\ Forall (quiet 0) [Elapse 5000]
  /\ promises (run [Elapse 5000] one_pending_client) !! 0%nat = Some Pending.
Proof.
  assert (objects one_pending_world !! 0%nat = Some one_pending_client) as H1
    by (vm_compute; reflexivity).
  assert (promises one_pending_client !! 0%nat = Some Pending) as H3
    by (vm_compute; reflexivity).
  assert (Forall (quiet 0) [Elapse 5000]) as H4
    by (constructor; [exact I|constructor]).
  assert (N.of_nat (length (stdin (run [Elapse 5000] one_pending_client)))
          <= 2 ^ 53 + 1) as H5 by (vm_compute; discriminate).
  split; [exact H1|]. split; [exact reachable_one_pending|].
  pose proof (closure_rejects_nothing one_pending_world 0 one_pending_client
                (str "SIGINT signal") (Some 0) None H1 reachable_one_pending)
    as (Ha & Hb & Hc).
  split; [exact Ha|]. split; [exact Hb|]. split; [exact H3|].
  split; [exact H4|].
  destruct (Hc 0%nat [Elapse 5000] H3 H4 H5)
    as (rq & t & _ & _ & _ & Hp & _).
  exact Hp.
Defined.

(** A line of noise before an answer does not keep the answer from being
    handled. *)
Lemma malformed_line_skipped_witness :
  split_nl (trim noisy_chunk)
  = [] ++ wire "noise" :: [wire "{'id':'0','result':{}}"]
  /\ (startsWith_brace (wire "noise") = false
      \/ JSON_parse (wire "noise") = None)
  /\ on_data noisy_chunk one_pending_client
     = handle_messages [wire "{'id':'0','result':{}}"]
         (handle_message (wire "noise")
            (handle_messages []
               (log (RawResponse noisy_chunk) one_pending_client))).
Proof.
  assert (split_nl (trim noisy_chunk)
          = [] ++ wire "noise" :: [wire "{'id':'0','result':{}}"]) as H1
    by (vm_compute; reflexivity).
  assert (startsWith_brace (wire "noise") = false
          \/ JSON_parse (wire "noise") = None) as H2
    by (left; vm_compute; reflexivity).
  split; [exact H1|]. split; [exact H2|].
  exact (proj1 (proj2 (proj2 (proj2 (proj2 (proj2 (proj2 (proj2
    (malformed_line_skipped noisy_chunk [] (wire "noise")
       [wire "{'id':'0','result':{}}"] one_pending_client H1 H2))))))))).
Defined.

(** [listTools] on a fresh client whose request then times out. *)
Lemma listTools_swallows_failure_witness :
  reachable (new_StdioClient 0)
  /\ returned (run [Elapse 10000; TimerDue 0]
                 (step CallListTools (new_StdioClient 0))) !! 0%nat
     = Some (Fulfilled (Some (JObject [(str "tools", JArray [])]))).
Proof.
  split; [exact reachable_fresh|].
  apply (proj1 (proj2 (proj2
    (listTools_swallows_failure (new_StdioClient 0) [Elapse 10000; TimerDue 0]
       [] [] JNull [] reachable_fresh)))
    (timeout_message (str "tools/list"))).
  vm_compute. reflexivity.
Defined.

(** Both written requests are in the table, and a third call has its
    entry and its timer before its line is written. *)
Lemma registered_before_written_witness :
  reachable two_pending_client
  /\ N.of_nat (length (stdin two_pending_client)) <= 2 ^ 53 + 1
  /\ (forall i rq, stdin two_pending_client !! i = Some rq ->
        (messageQueue two_pending_client !! rq_id rq = Some (mkPending i i)
         /\ promises two_pending_client !! i = Some Pending)
        \/ (messageQueue two_pending_client !! rq_id rq = None
            /\ exists o, promises two_pending_client !! i = Some o
                         /\ o <> Pending))
  /\ exists k s',
       sendRequest_states (str "tools/call") (JObject []) two_pending_client
         !! k = Some s'
       /\ stdin s' = stdin two_pending_client
       /\ messageQueue s' !! str "2" = Some (mkPending 2 2)
       /\ is_Some (timers s' !! 2%nat).
Proof.
  assert (N.of_nat (length (stdin two_pending_client)) <= 2 ^ 53 + 1) as H2
    by (vm_compute; discriminate).
  split; [exact reachable_two_pending|]. split; [exact H2|].
  pose proof (registered_before_written two_pending_client
                reachable_two_pending H2) as (Horder & Htracked & _).
  split; [exact Htracked|].
  destruct (Horder (str "tools/call") (JObject []) two_pending_client)
    as (_ & _ & _ & k & s' & Hk & Hs & (Hq & Ht & _) & _).
  exists k, s'. split; [exact Hk|]. split; [exact Hs|].
  split; [exact Hq|]. eexists. exact Ht.
Defined.

(** * Further properties of the client *)

(** ** Promises settle once *)

Lemma step_promises e st :
  consistent st -> promises (step e st) = promises (handle e st).
Proof.
  intros Hc.
  by destruct (run_microtasks_spec (handle e st) (consistent_handle e st Hc))
    as ((_&_&_&E&_) & _).
Qed.

Lemma step_returned_settled e st q r :
  consistent st -> returned st !! q = Some r -> r <> Pending ->
  returned (step e st) !! q = Some r.
Proof.
  intros Hc Hq Hr.
  destruct (run_microtasks_spec (handle e st) (consistent_handle e st Hc))
    as (_ & _ & _ & _ & _ & _ & Hkeep & _).
  apply Hkeep; [|done]. by apply handle_returned.
Qed.

(** A promise that is fulfilled or rejected keeps its outcome through
    every later call, chunk and timer: a response that comes after the
    timeout, a second response, or a timer after the response change
    nothing for the caller.  The same holds of the promises the facade
    returned. *)
Theorem settled_for_good st tr :
  reachable st ->
  (forall p r, promises st !! p = Some r -> r <> Pending ->
     promises (run tr st) !! p = Some r)
  /\ (forall q r, returned st !! q = Some r -> r <> Pending ->
        returned (run tr st) !! q = Some r).
Proof.
  intros Hr. pose proof (reachable_consistent st Hr) as Hc. clear Hr.
  revert st Hc. induction tr as [|e tr IH]; intros st Hc; [done|].
  destruct (IH (step e st) (consistent_step e st Hc)) as [IH1 IH2].
  split.
  - intros p r Hp Hne. apply IH1; [|done].
    rewrite step_promises by done. by apply handle_settled.
  - intros q r Hq Hne. apply IH2; [|done]. by apply step_returned_settled.
Qed.

(** ** Envelopes that find no entry *)

(** A line that parses to an envelope whose [id] is missing, falsy, not a
    string, or a string the table does not hold, changes nothing but the
    console; where the string of the [id] can be taken (it always can for
    null, booleans, numbers and strings) the console gets the parsed
    envelope and then the line for a missing id or for no pending request.
    In particular a numeric [id] never finds the request it answers,
    whatever the table holds, because the keys are strings. *)
Theorem unmatched_envelope_dropped st message response :
  startsWith_brace message = true ->
  JSON_parse message = Some response ->
  (forall s, prop (str "id") (Some response) = Some (JString s) ->
             messageQueue st !! s = None) ->
  same_but_console st (handle_message message st)
  /\ ((forall id, prop (str "id") (Some response) = Some id ->
         to_string_ok id = true) ->
      handle_message message st = logs (unmatched_lines message response) st)
  /\ (forall id, prop (str "id") (Some response) = Some id ->
        (forall s, id <> JString s) ->
        forall st', same_but_console st' (handle_message message st')).
Proof.
  intros Hb Hp Hno.
  assert (forall st',
    (forall s, prop (str "id") (Some response) = Some (JString s) ->
               messageQueue st' !! s = None) ->
    same_but_console st' (handle_message message st')) as Hsame.
  { intros st' Hno'. destruct (handle_message_unknown message st') as [es ->].
    - intros r s Hr Hs. rewrite Hp in Hr. injection Hr as <-. by apply Hno'.
    - apply same_but_console_logs. }
  split_and!.
  - by apply Hsame.
  - intros Hok. rewrite (handle_message_valid _ _ _ Hb Hp).
    unfold dispatch, unmatched_lines.
    destruct (prop (str "id") (Some response)) as [id|] eqn:Hid;
      [|by rewrite !log_as_logs, logs_logs].
    destruct (truthy (Some id)) eqn:Ht; simpl negb; cbv iota;
      [|by rewrite !log_as_logs, logs_logs].
    rewrite (Hok id eq_refl).
    destruct id as [| | |s| |]; cbn [queue_get];
      try by rewrite !log_as_logs, logs_logs.
    change (messageQueue (log (ParsedResponse response) st))
      with (messageQueue st).
    rewrite (Hno s eq_refl). by rewrite !log_as_logs, logs_logs.
  - intros id Hid Hns st'. apply Hsame.
    intros s Hs. rewrite Hid in Hs. injection Hs as ->. by destruct (Hns s).
Qed.

(** ** Table, timers and promises stay in step *)

(** In every state of a client: each entry of the table stands for a
    written request, its promise is pending and its timer is armed for its
    key and due within 10000 ms; each armed timer belongs to a pending
    promise and carries the identifier and method of the request with its
    number.  A settled promise therefore has no timer left, and its timer
    event does nothing. *)
Theorem table_timers_promises st :
  reachable st ->
  length (promises st) = length (stdin st)
  /\ (forall id e, messageQueue st !! id = Some e ->
        timeoutId e = settles e
        /\ promises st !! settles e = Some Pending
        /\ exists t rq,
             timers st !! timeoutId e = Some t /\ tm_id t = id
             /\ tm_due t <= now st + 10000
             /\ stdin st !! timeoutId e = Some rq /\ rq_id rq = id)
  /\ (forall k t, timers st !! k = Some t ->
        promises st !! k = Some Pending
        /\ tm_rejects t = k
        /\ exists rq, stdin st !! k = Some rq
             /\ rq_id rq = tm_id t /\ rq_method rq = tm_method t)
  /\ (forall p r, promises st !! p = Some r -> r <> Pending ->
        timers st !! p = None /\ fire p st = st).
Proof.
  intros Hr. pose proof (reachable_consistent st Hr) as Hc.
  split_and!.
  - apply Hc.
  - intros id e He.
    destruct (con_queue _ Hc _ _ He) as (Heq & t & Ht & Hid).
    destruct (con_timers _ Hc _ _ Ht) as (_ & Hp & rq & Hrq & Hrid & _).
    split_and!; [done|by rewrite <- Heq|].
    exists t, rq. split_and!; try done.
    + apply (con_due _ Hc _ _ Ht).
    + congruence.
  - intros k t Ht. destruct (con_timers _ Hc _ _ Ht) as (? & ? & ?). done.
  - intros p r Hp Hne.
    assert (timers st !! p = None) as Hnone.
    { destruct (timers st !! p) as [t|] eqn:Ht; [|done].
      destruct (con_timers _ Hc _ _ Ht) as (_ & Hp' & _). congruence. }
    split; [done|]. unfold fire. by rewrite Hnone.
Qed.

(** ** What is written to the process *)

(** The client writes to the process only when it is called, and then
    exactly one request: [sendRequest] its method and parameters,
    [listTools] the method tools/list with empty parameters, the [call] of
    [getTool] the method tools/call with the tool name
    namespace-name and the arguments; each with protocol version 2.0 and
    the numeral of the counter as identifier.  Responses, timers and
    [getServerInfo] write nothing, and nothing written is ever changed. *)
Theorem one_request_per_call st tr e :
  reachable st ->
  stdin (step e st) = stdin st ++ written_by e st
  /\ (forall rq, rq ∈ written_by e st ->
        rq_jsonrpc rq = str "2.0"
        /\ rq_id rq = String_of_number (messageId st))
  /\ (forall i rq, stdin st !! i = Some rq -> stdin (run tr st) !! i = Some rq).
Proof.
  intros Hr. pose proof (reachable_consistent st Hr) as Hc. split_and!.
  - rewrite step_stdin by done. apply handle_stdin.
  - intros rq Hrq. destruct e; simpl in Hrq;
      try (apply list_elem_of_singleton in Hrq as ->; done);
      by apply not_elem_of_nil in Hrq.
  - intros i rq Hi. by apply run_stdin_keeps.
Qed.

(** ** No call hangs *)

(** While at most [2^53 + 1] requests were sent, every pending promise of
    [sendRequest] has its entry in the table and its timer armed, due at
    most 10000 ms from now; running that timer when it is due rejects the
    promise.  So every call is settled by its response or, at the latest
    ten seconds after it was made, by its timeout. *)
Theorem pending_call_times_out st i :
  reachable st ->
  N.of_nat (length (stdin st)) <= 2 ^ 53 + 1 ->
  promises st !! i = Some Pending ->
  exists rq t,
    stdin st !! i = Some rq
    /\ messageQueue st !! rq_id rq = Some (mkPending i i)
    /\ timers st !! i = Some t
    /\ tm_due t <= now st + 10000
    /\ promises (step (TimerDue i) (step (Elapse (tm_due t - now st)) st)) !! i
       = Some (Rejected (timeout_message (rq_method rq))).
Proof.
  intros Hr Hb Hp.
  destruct (pending_registered st i Hr Hb Hp)
    as (rq & t & Hrq & Hq & Ht & Hid & Hm & Hdue).
  exists rq, t. split_and!; try done.
  rewrite <- Hm.
  destruct (due_timer_runs st i t (tm_due t - now st)
              (reachable_consistent st Hr) Ht) as (_ & T & _); [lia|].
  apply T. rewrite Hid, Hq. by eexists.
Qed.

(** ** The lines of a chunk *)

Lemma parse_members_object fuel : forall s acc v r,
  parse_members fuel s acc = Ok (v, r) -> exists fields, v = JObject fields.
Proof.
  induction fuel as [|f IH]; intros s acc v r H; [discriminate|].
  cbn [parse_members] in H.
  destruct s as [|q r0]; [discriminate|].
  destruct (q =? 34); [|discriminate].
  destruct (parse_chars r0 []) as [[k r1]|]; [|discriminate].
  destruct (skip_ws r1) as [|d r2]; [discriminate|].
  destruct (d =? 58); [|discriminate].
  destruct (parse_value f (skip_ws r2)) as [[v1 r3]| |]; try discriminate.
  destruct (skip_ws r3) as [|e r4]; [discriminate|].
  destruct (e =? 44); [by eapply IH|].
  destruct (e =? 125); [|discriminate].
  injection H as <- <-. by eexists.
Qed.

(** Whatever [JSON.parse] returns for a line that starts with a brace is
    an object, so reading [id], [error] and [result] off it cannot
    throw. *)
Theorem parsed_line_is_object message response :
  startsWith_brace message = true ->
  JSON_parse message = Some response ->
  exists fields, response = JObject fields.
Proof.
  intros Hb Hp. destruct message as [|c m]; [done|].
  simpl in Hb. apply N.eqb_eq in Hb as ->.
  unfold JSON_parse, JSON_parse_result in Hp.
  change (skip_ws (123 :: m)) with (123 :: m) in Hp.
  destruct (parse_value _ _) as [[v r]| |] eqn:Hv; try discriminate.
  destruct (skip_ws r); [|discriminate]. injection Hp as ->.
  remember (2 * length (123%N :: m) + 1)%nat as fuel eqn:Hf. clear Hf.
  destruct fuel as [|f]; [discriminate|]. cbn [parse_value] in Hv.
  change (123 =? 123) with true in Hv. cbv iota in Hv.
  destruct (skip_ws m) as [|d r']; [discriminate|].
  destruct (d =? 125); [injection Hv as <- _; by eexists|].
  by eapply parse_members_object.
Qed.

Lemma trim_start_spaces s :
  Forall (fun c => is_trim_space c = true) s -> trim_start s = [].
Proof. induction 1 as [|c s Hc _ IH]; simpl; [done|]. by rewrite Hc. Qed.

(** A chunk that is empty or holds nothing but white space and line ends
    is only logged as raw text; no line of it is looked at. *)
Theorem blank_chunk_ignored rawData st :
  Forall (fun c => is_trim_space c = true) rawData ->
  on_data rawData st = log (RawResponse rawData) st.
Proof.
  intros H. unfold on_data, trim. by rewrite (trim_start_spaces _ H).
Qed.

Lemma trim_start_split s :
  exists ws, s = ws ++ trim_start s
    /\ Forall (fun c => is_trim_space c = true) ws
    /\ (forall c r, trim_start s = c :: r -> is_trim_space c = false).
Proof.
  induction s as [|c s (ws & E & Hws & Hh)]; simpl.
  { exists []. split_and!; try done. }
  destruct (is_trim_space c) eqn:Hc.
  - exists (c :: ws). split_and!; [simpl; congruence|by constructor|done].
  - exists []. split_and!; [done|constructor|]. by intros c' r [= <- <-].
Qed.

Lemma join_nl_cons l l' ls :
  join_nl (l :: l' :: ls) = l ++ 10 :: join_nl (l' :: ls).
Proof. reflexivity. Qed.

Lemma split_nl_join s :
  join_nl (split_nl s) = s /\ Forall (fun l => 10 ∉ l) (split_nl s)
  /\ split_nl s <> [].
Proof.
  induction s as [|c s (IH1 & IH2 & IH3)]; simpl.
  { split_and!; [done| |done]. repeat constructor. set_solver. }
  destruct (N.eqb_spec c 10) as [->|Hc].
  - split_and!; [|constructor; [set_solver|done]|done].
    destruct (split_nl s) as [|l ls]; [done|].
    rewrite join_nl_cons, IH1. done.
  - destruct (split_nl s) as [|l ls]; [done|].
    apply Forall_cons in IH2 as [Hl Hls].
    split_and!; [|constructor; [set_solver|done]|done].
    destruct ls as [|l' ls].
    + change (l = s) in IH1. change (c :: l = c :: s). by rewrite IH1.
    + rewrite join_nl_cons in IH1. rewrite join_nl_cons, <- IH1. done.
Qed.

(** The lines the listener loops over lose nothing of a chunk but the
    white space at its two ends: the chunk is some white space, then the
    lines joined by line feeds, then some white space.  No line contains a
    line feed, there is always at least one line, and the first line does
    not begin, nor the last one end, with white space. *)
Theorem lines_partition_chunk rawData :
  let lines := split_nl (trim rawData) in
  (exists ws1 ws2,
     rawData = ws1 ++ join_nl lines ++ ws2
     /\ Forall (fun c => is_trim_space c = true) ws1
     /\ Forall (fun c => is_trim_space c = true) ws2)
  /\ Forall (fun l => 10 ∉ l) lines
  /\ lines <> []
  /\ (forall c r, trim rawData = c :: r -> is_trim_space c = false)
  /\ (forall c r, trim rawData = r ++ [c] -> is_trim_space c = false).
Proof.
  intros lines. unfold lines.
  destruct (split_nl_join (trim rawData)) as (J1 & J2 & J3).
  destruct (trim_start_split rawData) as (ws1 & E1 & H1 & Hh1).
  destruct (trim_start_split (rev (trim_start rawData)))
    as (ws2 & E2 & H2 & Hh2).
  assert (trim_start rawData = trim rawData ++ rev ws2) as E3.
  { unfold trim. rewrite <- rev_app_distr, <- E2. by rewrite rev_involutive. }
  split_and!; try done.
  - exists ws1, (rev ws2). rewrite J1. split_and!; [congruence|done|].
    by apply Forall_rev.
  - intros c r Hc. apply (Hh1 c (r ++ rev ws2)). by rewrite E3, Hc.
  - intros c r Hc. apply (Hh2 c (rev r)). apply (f_equal (@rev N)) in Hc.
    unfold trim in Hc. by rewrite rev_involutive, rev_app_distr in Hc.
Qed.

(** * The host: initialisation, exit and signals *)

Lemma shutdown_fields reason w :
  let w' := shutdownNotionMCPServer reason w in
  notionMCPServerProcess w' = None
  /\ (notionMCPServerProcess w = None -> notionMCPClient w' = notionMCPClient w)
  /\ (is_Some (notionMCPServerProcess w) -> notionMCPClient w' = None)
  /\ objects w' = objects w
  /\ killed w' = killed w ++ option_list (notionMCPServerProcess w).
Proof.
  unfold shutdownNotionMCPServer.
  destruct (notionMCPServerProcess w) as [p|] eqn:Hp; simpl;
    rewrite ?Hp, ?app_nil_r; split_and!; try done; by intros [? ?].
Qed.

Lemma host_ok_shutdown reason h :
  host_ok h ->
  host_ok (set_globals (shutdownNotionMCPServer reason (globals h)) h).
Proof.
  intros [H1 H2 H3 H4 H5 H6].
  destruct (shutdown_fields reason (globals h)) as (E1 & E2 & E3 & E4 & E5).
  split; simpl; rewrite ?E1, ?E4, ?E5; try done.
  - destruct (notionMCPServerProcess (globals h)) as [p|] eqn:Hp.
    + by rewrite E3.
    + rewrite E2 by done. split; [by intros; apply H1|done].
  - intros a Ha. destruct (notionMCPServerProcess (globals h)) as [p|] eqn:Hp.
    + by rewrite E3 in Ha.
    + rewrite E2 in Ha by done. by apply H2.
  - intros p Hp. apply elem_of_app in Hp as [Hp|Hp]; [by apply H6|].
    destruct (notionMCPServerProcess (globals h)) as [q|] eqn:Hq;
      simpl in Hp; [|by apply not_elem_of_nil in Hp].
    apply list_elem_of_singleton in Hp as ->. by apply H4.
Qed.

Lemma host_ok_logs es h : host_ok h -> host_ok (host_logs es h).
Proof. by intros []. Qed.

Lemma host_ok_fail e h : host_ok h -> host_ok (init_fail e h).2.
Proof.
  intros Hok. unfold init_fail. simpl.
  apply (host_ok_shutdown _ (host_logs [FailedToConnect e] h)).
  by apply host_ok_logs.
Qed.

Lemma host_ok_client_event a e h :
  host_ok h -> host_ok (set_globals (client_event a e (globals h)) h).
Proof.
  intros [H1 H2 H3 H4 H5 H6]. unfold client_event.
  destruct (objects (globals h) !! a) as [st|] eqn:Ha.
  - split; simpl; try done.
    + intros b Hb. destruct (decide (a = b)) as [->|Hne].
      * rewrite lookup_insert_eq. by eexists.
      * rewrite lookup_insert_ne by done. by apply H2.
    + intros b st' Hb. apply lookup_insert_Some in Hb as [[<- <-]|[_ Hb]].
      * apply reachable_step. by eapply H3.
      * by eapply H3.
  - by destruct h.
Qed.

Lemma host_ok_on_exit code signal h :
  host_ok h -> host_ok (set_globals (on_exit code signal (globals h)) h).
Proof. intros [H1 H2 H3 H4 H5 H6]. split; simpl; try done. Qed.

Lemma host_ok_child_exit proc code signal h :
  host_ok h -> host_ok (child_exit proc code signal h).
Proof.
  intros Hok. unfold child_exit.
  assert (forall l w, host_ok (set_globals w h) ->
    host_ok (set_globals
      (foldr (fun p w => if decide (p = proc) then on_exit code signal w else w)
             w l) h)) as Hgen.
  { induction l as [|p l IH]; intros w Hw; [done|]. simpl.
    destruct (decide (p = proc)); [|by apply IH].
    apply (host_ok_on_exit code signal (set_globals _ h)). by apply IH. }
  apply Hgen. by destruct h.
Qed.

Lemma host_ok_init_enter key t h : host_ok h -> host_ok (init_enter key t h).2.
Proof.
  intros Hok. unfold init_enter.
  destruct (notionMCPClient (globals h)) as [a|] eqn:Hc; [done|].
  destruct key as [[|c k]|]; try done.
  destruct Hok as [H1 H2 H3 H4 H5 H6]. split; simpl.
  - done.
  - intros a [= <-]. rewrite lookup_insert_eq. by eexists.
  - intros a st Ha. apply lookup_insert_Some in Ha as [[_ <-]|[_ Ha]].
    + apply reachable_new.
    + by eapply H3.
  - intros p [= <-]. rewrite length_app. simpl. lia.
  - intros p Hp. rewrite length_app. specialize (H5 p Hp). lia.
  - intros p Hp. rewrite length_app. specialize (H6 p Hp). lia.
Qed.

Lemma host_ok_init_list_tools h : host_ok h -> host_ok (init_list_tools h).2.
Proof.
  intros Hok. unfold init_list_tools.
  pose proof (host_ok_logs [ConnectedTo server_info] h Hok) as Hok'.
  set (h' := host_logs [ConnectedTo server_info] h) in *.
  destruct (notionMCPClient (globals h')) as [a|]; [|by apply host_ok_fail].
  destruct (objects (globals h') !! a) as [st|]; [|done].
  by apply host_ok_client_event.
Qed.

Lemma host_ok_init_check result h : host_ok h -> host_ok (init_check result h).2.
Proof.
  intros Hok. unfold init_check.
  destruct (destructure_tools result) as [[[| | | |tools|]|]|];
    try by apply host_ok_fail.
  destruct (tool_names tools) as [names|]; [|by apply host_ok_fail].
  pose proof (host_ok_logs [AvailableTools names] h Hok) as Hok1.
  destruct (find_search_tool tools) as [found|]; [|by apply host_ok_fail].
  set (h2 := match found with
             | Some _ => host_logs [AvailableTools names] h
             | None => host_logs [SearchToolNotFound]
                         (host_logs [AvailableTools names] h)
             end).
  assert (host_ok h2) as Hok2.
  { unfold h2. destruct found; [done|]. by apply host_ok_logs. }
  destruct (notionMCPServerProcess (globals h2)) as [proc|] eqn:Hp; [|done].
  destruct Hok2 as [H1 H2 H3 H4 H5 H6]. split; simpl; try done.
  intros p Hin. apply elem_of_app in Hin as [Hin|Hin]; [by apply H5|].
  apply list_elem_of_singleton in Hin as ->. by apply H4.
Qed.

Lemma host_ok_init_finish a outer h :
  host_ok h -> host_ok (init_finish a outer h).2.
Proof.
  intros Hok. unfold init_finish.
  destruct (objects (globals h) !! a) as [st|]; [|done].
  destruct (returned st !! outer) as [[|v|e]|]; try done.
  - by apply host_ok_init_check.
  - by apply host_ok_fail.
Qed.

Lemma host_ok_new : host_ok new_host.
Proof. split; simpl; try done; intros p Hp; by apply not_elem_of_nil in Hp. Qed.

Lemma host_ok_iter_shutdown n reason h :
  host_ok h ->
  host_ok (set_globals
             (Nat.iter n (shutdownNotionMCPServer reason) (globals h)) h).
Proof.
  intros Hok. induction n as [|n IH]; [by destruct h|]. simpl.
  by apply (host_ok_shutdown reason (set_globals _ h)).
Qed.

Lemma host_ok_step e h : host_ok h -> host_ok (host_step e h).
Proof.
  intros Hok. destruct e; simpl.
  - by apply host_ok_init_enter.
  - by apply host_ok_init_list_tools.
  - by apply host_ok_init_finish.
  - by apply host_ok_shutdown.
  - by apply host_ok_child_exit.
  - by apply host_ok_client_event.
  - by apply host_ok_logs.
  - by destruct Hok.
  - unfold on_signal. destruct (shutdown_hooks h) as [|n] eqn:Hn.
    + by destruct Hok.
    + pose proof (host_ok_iter_shutdown (S n) (str "process exit") _
        (host_ok_shutdown (name ++ str " signal") h Hok)) as [H1 H2 H3 H4 H5 H6].
      unfold host_exit. simpl shutdown_hooks. rewrite Hn.
      split; simpl in *; done.
  - pose proof (host_ok_iter_shutdown (shutdown_hooks h) (str "process exit")
                  h Hok) as [H1 H2 H3 H4 H5 H6].
    split; simpl in *; done.
Qed.

(** In every state of the host, whatever initialisations, shutdowns,
    exits, signals and client events led to it: the two module variables
    are either both set or both null, the client variable refers to an
    existing client object, every client object is in a state a client can
    reach by its own events, and every process that is current, was killed
    or has the exit listener attached was spawned by an initialisation. *)
Theorem module_variables_paired h :
  host_reachable h ->
  (notionMCPServerProcess (globals h) = None
   <-> notionMCPClient (globals h) = None)
  /\ (forall a, notionMCPClient (globals h) = Some a ->
        exists st, objects (globals h) !! a = Some st /\ reachable st)
  /\ (forall a st, objects (globals h) !! a = Some st -> reachable st)
  /\ (forall p, notionMCPServerProcess (globals h) = Some p
                \/ p ∈ killed (globals h) \/ p ∈ exit_listeners h ->
        (p < length (children h))%nat).
Proof.
  intros (tr & ->).
  assert (host_ok (host_run tr new_host)) as [H1 H2 H3 H4 H5 H6].
  { generalize host_ok_new. generalize new_host.
    induction tr as [|e tr IH]; intros h Hok; [done|].
    apply IH. by apply host_ok_step. }
  split_and!; try done.
  - intros a Ha. destruct (H2 a Ha) as [st Hst]. exists st. split; [done|].
    by eapply H3.
  - intros p [Hp|[Hp|Hp]]; eauto.
Qed.

(** * Initialisation and the connection check *)

Lemma starts_with_spec needle : forall hay,
  starts_with needle hay = true <-> exists post, hay = needle ++ post.
Proof.
  induction needle as [|n ns IH]; intros hay; simpl.
  - split; [by exists hay|done].
  - destruct hay as [|x hay].
    + split; [done|]. by intros (post & ?).
    + rewrite andb_true_iff, N.eqb_eq, IH. split.
      * intros (-> & post & ->). by exists post.
      * intros (post & [= -> ->]). split; [done|]. by exists post.
Qed.

Lemma includes_spec needle : forall hay,
  includes needle hay = true <-> exists pre post, hay = pre ++ needle ++ post.
Proof.
  induction hay as [|x hay IH].
  - simpl. rewrite orb_false_r, starts_with_spec. split.
    + intros (post & ->). by exists [], post.
    + intros (pre & post & H). destruct pre as [|? pre]; [by exists post|].
      done.
  - change (includes needle (x :: hay))
      with (starts_with needle (x :: hay) || includes needle hay).
    rewrite orb_true_iff, starts_with_spec, IH. split.
    + intros [(post & ->)|(pre & post & ->)].
      * by exists [], post.
      * by exists (x :: pre), post.
    + intros (pre & post & H). destruct pre as [|y pre].
      * left. by exists post.
      * right. injection H as -> ->. by exists pre, post.
Qed.

Lemma includes_suffix a b hay :
  includes (a ++ b) hay = true -> includes b hay = true.
Proof.
  rewrite !includes_spec. intros (pre & post & ->).
  exists (pre ++ a), post. by rewrite <- !app_assoc.
Qed.

Lemma is_search_tool_named tool :
  named_tool tool -> is_search_tool tool = Some (name_has_search tool).
Proof.
  intros (fields & s & -> & Hs). unfold is_search_tool, name_has_search.
  cbn [prop]. rewrite Hs. f_equal.
  destruct (includes (str "search") s) eqn:E1; [done|]. simpl.
  destruct (includes (str "notion-search") s) eqn:E2; [|done].
  apply (includes_suffix (str "notion-") (str "search")) in E2. congruence.
Qed.

Lemma find_search_tool_named tools :
  Forall named_tool tools ->
  find_search_tool tools = Some (List.find name_has_search tools).
Proof.
  induction 1 as [|tool tools Ht _ IH]; [done|]. simpl.
  rewrite (is_search_tool_named _ Ht).
  by destruct (name_has_search tool).
Qed.

Lemma tool_names_named tools :
  Forall named_tool tools ->
  tool_names tools = Some ((fun t => prop (str "name") (Some t)) <$> tools).
Proof.
  intros H. unfold tool_names.
  assert (existsb (fun t => match t with JNull => true | _ => false end) tools
          = false) as ->.
  { induction H as [|tool tools (fields & s & -> & _) _ IH]; [done|]. done. }
  assert (forallb (fun n => match n with
                            | Some v => to_string_ok v
                            | None => true
                            end)
            ((fun t => prop (str "name") (Some t)) <$> tools) = true) as ->.
  { induction H as [|tool tools (fields & s & -> & Hs) _ IH]; [done|].
    cbn [fmap list_fmap forallb prop]. rewrite Hs. done. }
  done.
Qed.

Lemma init_check_outcome result h :
  (exists c, (init_check result h).1 = InitDone (InitReturned c))
  \/ (init_check result h).1 = InitDone (InitThrew TypeError).
Proof.
  unfold init_check.
  destruct (destructure_tools result) as [[[| | | |tools|]|]|];
    try by right.
  destruct (tool_names tools) as [names|]; [|by right].
  destruct (find_search_tool tools) as [found|]; [|by right].
  match goal with
  | |- context [notionMCPServerProcess ?w] =>
      destruct (notionMCPServerProcess w)
  end; [left; by eexists|by right].
Qed.

(** The connection check on a tool list as a server sends it, every tool
    an object with a string [name]: it never throws, it logs the names,
    warns exactly when no name contains "search" (the second test, for
    "notion-search", never decides anything), attaches the exit listener to
    the current process and returns the client; nothing is killed. *)
Theorem named_tools_pass_check result tools proc h :
  prop (str "tools") (Some result) = Some (JArray tools) ->
  Forall named_tool tools ->
  notionMCPServerProcess (globals h) = Some proc ->
  let names := (fun t => prop (str "name") (Some t)) <$> tools in
  let h' := (init_check (Some result) h).2 in
  (init_check (Some result) h).1
  = InitDone (InitReturned (notionMCPClient (globals h)))
  /\ globals h' = globals h
  /\ children h' = children h
  /\ exit_listeners h' = exit_listeners h ++ [proc]
  /\ host_console h'
     = host_console h
       ++ AvailableTools names
          :: (if existsb name_has_search tools then [] else [SearchToolNotFound])
  /\ forall tool, named_tool tool ->
       is_search_tool tool = Some (name_has_search tool).
Proof.
  intros Ht Hn Hp names h'. subst h'. unfold init_check.
  assert (destructure_tools (Some result) = Some (Some (JArray tools))) as ->.
  { unfold destructure_tools. rewrite <- Ht. by destruct result. }
  rewrite (tool_names_named _ Hn), (find_search_tool_named _ Hn).
  assert (existsb name_has_search tools
          = bool_decide (is_Some (List.find name_has_search tools))) as ->.
  { clear. induction tools as [|t ts IH]; [done|]. simpl.
    by destruct (name_has_search t). }
  destruct (List.find name_has_search tools) as [found|]; simpl;
    rewrite Hp; simpl; rewrite <- ?app_assoc; split_and!; try done.
  all: apply is_search_tool_named.
Qed.

Lemma client_events_fields a tr : forall w st,
  objects w !! a = Some st ->
  let w' := foldl (fun w e => client_event a e w) w tr in
  objects w' = <[a := run tr st]> (objects w)
  /\ notionMCPServerProcess w' = notionMCPServerProcess w
  /\ notionMCPClient w' = notionMCPClient w
  /\ killed w' = killed w
  /\ supervisor_console w' = supervisor_console w.
Proof.
  induction tr as [|e tr IH]; intros w st Hst; simpl.
  - split_and!; try done. by rewrite insert_id.
  - assert (client_event a e w
            = mkWorld (notionMCPServerProcess w) (notionMCPClient w)
                (<[a := step e st]> (objects w)) (killed w)
                (supervisor_console w)) as ->.
    { unfold client_event. by rewrite Hst. }
    edestruct (IH (mkWorld (notionMCPServerProcess w) (notionMCPClient w)
                     (<[a := step e st]> (objects w)) (killed w)
                     (supervisor_console w)) (step e st))
      as (E1 & E2 & E3 & E4 & E5); [apply lookup_insert_eq|].
    rewrite E1, E2, E3, E4, E5. simpl. split_and!; try done.
    by rewrite insert_insert_eq.
Qed.

Lemma init_client_fresh h : objects (globals h) !! init_client h = None.
Proof.
  unfold init_client. apply (not_elem_of_dom (D := gset nat)).
  apply (is_fresh (dom (objects (globals h)))).
Qed.

(** What a new initialisation has done when it waits for the tool list. *)
Lemma init_started_fields c k t h :
  notionMCPClient (globals h) = None ->
  let a := init_client h in
  let h2 := init_started (c :: k) t h in
  (init_enter (Some (c :: k)) t h).1 = InitAwaitsInfo
  /\ (init_list_tools (init_enter (Some (c :: k)) t h).2).1
     = InitAwaitsTools a 0
  /\ objects (globals h2)
     = <[a := step CallListTools (new_StdioClient t)]> (objects (globals h))
  /\ notionMCPServerProcess (globals h2) = Some (length (children h))
  /\ notionMCPClient (globals h2) = Some a
  /\ killed (globals h2) = killed (globals h)
  /\ supervisor_console (globals h2) = supervisor_console (globals h)
  /\ children h2 = children h ++ [c :: k]
  /\ exit_listeners h2 = exit_listeners h
  /\ shutdown_hooks h2 = shutdown_hooks h
  /\ host_exited h2 = host_exited h
  /\ host_console h2 = host_console h ++ [ConnectedTo server_info].
Proof.
  intros Hnone a h2. subst h2. unfold init_started, init_enter.
  rewrite Hnone. fold (init_client h). fold a.
  unfold init_list_tools. cbn [snd fst host_logs globals notionMCPClient objects].
  rewrite lookup_insert_eq. cbn [snd fst]. unfold client_event.
  cbn [objects set_globals globals]. rewrite lookup_insert_eq.
  cbn. split_and!; try done. by rewrite insert_insert_eq.
Qed.

Lemma init_waiting_fields c k t tr h :
  notionMCPClient (globals h) = None ->
  let a := init_client h in
  let h3 := client_events a tr (init_started (c :: k) t h) in
  objects (globals h3)
  = <[a := run tr (step CallListTools (new_StdioClient t))]>
      (objects (globals h))
  /\ notionMCPServerProcess (globals h3) = Some (length (children h))
  /\ notionMCPClient (globals h3) = Some a
  /\ killed (globals h3) = killed (globals h)
  /\ supervisor_console (globals h3) = supervisor_console (globals h)
  /\ children h3 = children h ++ [c :: k]
  /\ exit_listeners h3 = exit_listeners h
  /\ shutdown_hooks h3 = shutdown_hooks h
  /\ host_exited h3 = host_exited h
  /\ host_console h3 = host_console h ++ [ConnectedTo server_info].
Proof.
  intros Hnone a h3.
  destruct (init_started_fields c k t h Hnone)
    as (_ & _ & E1 & E2 & E3 & E4 & E5 & E6 & E7 & E8 & E9 & E10).
  fold a in E1, E3.
  destruct (client_events_fields a tr (globals (init_started (c :: k) t h))
              (step CallListTools (new_StdioClient t)))
    as (F1 & F2 & F3 & F4 & F5).
  { rewrite E1. apply lookup_insert_eq. }
  subst h3. unfold client_events. cbn [globals set_globals children
    exit_listeners shutdown_hooks host_exited host_console].
  rewrite F1, F2, F3, F4, F5, E1. split_and!; try done.
  by rewrite insert_insert_eq.
Qed.

Lemma listed_linked t tr :
  let st := run tr (step CallListTools (new_StdioClient t)) in
  consistent st /\ linked (ListToolsFrame 0 0) st.
Proof.
  pose proof (consistent_new t) as Hc. split.
  - apply consistent_run. by apply consistent_step.
  - apply linked_run; [by apply consistent_step|].
    by apply (linked_async_call (ListToolsFrame 0 0)).
Qed.

(** Initialisation survives a failed tools/list request.  Once a new
    initialisation waits for the tool list, whatever happens on its
    client: the continuation never sees a rejection, so the only error
    initialisation can still throw is a TypeError of the check itself; and
    when the tools/list request was rejected, by its timeout or by an
    error response, initialisation completes: it logs an empty tool list
    and the warning that no search tool was found, attaches the exit
    listener to the new process, kills nothing, keeps both module
    variables and returns the new client. *)
Theorem init_survives_failed_listing c k t tr h :
  notionMCPClient (globals h) = None ->
  let a := init_client h in
  let h3 := client_events a tr (init_started (c :: k) t h) in
  let st := run tr (step CallListTools (new_StdioClient t)) in
  objects (globals h3) !! a = Some st
  /\ (forall err,
        (init_finish a 0 h3).1 <> InitDone (InitThrew (Thrown err)))
  /\ (forall err, promises st !! 0%nat = Some (Rejected err) ->
        let h4 := (init_finish a 0 h3).2 in
        (init_finish a 0 h3).1 = InitDone (InitReturned (Some a))
        /\ globals h4 = globals h3
        /\ notionMCPServerProcess (globals h4) = Some (length (children h))
        /\ notionMCPClient (globals h4) = Some a
        /\ killed (globals h4) = killed (globals h)
        /\ children h4 = children h ++ [c :: k]
        /\ exit_listeners h4 = exit_listeners h ++ [length (children h)]
        /\ host_console h4
           = host_console h
             ++ [ConnectedTo server_info; AvailableTools [];
                 SearchToolNotFound]).
Proof.
  intros Hnone a h3 st.
  destruct (init_waiting_fields c k t tr h Hnone)
    as (E1 & E2 & E3 & E4 & E5 & E6 & E7 & E8 & E9 & E10).
  fold a h3 st in E1, E2, E3, E4, E5, E6, E7, E8, E9, E10.
  destruct (listed_linked t tr) as [Hc Hl]. fold st in Hc, Hl.
  assert (objects (globals h3) !! a = Some st) as Hst.
  { rewrite E1. apply lookup_insert_eq. }
  clear E1. clearbody h3 st a.
  split_and!; [done|..].
  - intros err. unfold init_finish. rewrite Hst.
    destruct (returned st !! 0%nat) as [[|v|e]|] eqn:Hr; try done.
    + destruct (init_check_outcome v h3) as [[cl ->]| ->]; done.
    + unfold linked, frame_outcome in Hl. cbn [awaited_of outer_of] in Hl.
      destruct (promises st !! 0%nat) as [[|v'|e']|] eqn:Hp.
      * apply (con_outers _ Hc) in Hl as [Hl _]. cbn [outer_of] in Hl.
        congruence.
      * congruence.
      * congruence.
      * apply (con_outers _ Hc) in Hl as [Hl _]. cbn [outer_of] in Hl.
        congruence.
  - intros err Hp h4. subst h4.
    unfold linked, frame_outcome in Hl. cbn [awaited_of outer_of] in Hl.
    rewrite Hp in Hl. unfold init_finish. rewrite Hst, Hl.
    unfold init_check.
    assert (destructure_tools (Some no_tools) = Some (Some (JArray []))) as ->
      by reflexivity.
    cbn. rewrite E2. cbn. rewrite ?E2, ?E3, ?E4, ?E6, ?E7, ?E10.
    rewrite <- ?app_assoc. by split_and!.
Qed.

Lemma init_fail_fields e h proc :
  notionMCPServerProcess (globals h) = Some proc ->
  let h' := (init_fail e h).2 in
  (init_fail e h).1 = InitDone (InitThrew e)
  /\ notionMCPServerProcess (globals h') = None
  /\ notionMCPClient (globals h') = None
  /\ objects (globals h') = objects (globals h)
  /\ killed (globals h') = killed (globals h) ++ [proc]
  /\ supervisor_console (globals h')
     = supervisor_console (globals h)
       ++ [ShuttingDown (str "Failed to connect")]
  /\ children h' = children h
  /\ exit_listeners h' = exit_listeners h
  /\ host_console h' = host_console h ++ [FailedToConnect e].
Proof.
  intros Hp h'. subst h'. unfold init_fail, shutdownNotionMCPServer.
  cbn [snd fst globals host_logs set_globals children exit_listeners
       host_console]. rewrite Hp. by split_and!.
Qed.

(** A tool list that is no list ends initialisation and the server.
    While a new initialisation waits for the tool list, any further call
    of [initNotionMCPServer] returns the new, unchecked client at once and
    changes nothing.  When the tools/list request is then answered by a
    result that has no array [tools] (no result at all, null, or an object
    without that member), initialisation throws a TypeError: the failure
    is logged, the new process is killed, both module variables are null,
    no exit listener was attached, and the client object handed out
    earlier still exists. *)
Theorem init_fails_without_tool_list c k t tr h result :
  notionMCPClient (globals h) = None ->
  let a := init_client h in
  let h3 := client_events a tr (init_started (c :: k) t h) in
  let st := run tr (step CallListTools (new_StdioClient t)) in
  promises st !! 0%nat = Some (Fulfilled result) ->
  (forall tools, prop (str "tools") result <> Some (JArray tools)) ->
  let h4 := (init_finish a 0 h3).2 in
  (forall key' t', init_enter key' t' h3 = (InitDone (InitReturned (Some a)), h3))
  /\ (init_finish a 0 h3).1 = InitDone (InitThrew TypeError)
  /\ notionMCPServerProcess (globals h4) = None
  /\ notionMCPClient (globals h4) = None
  /\ killed (globals h4) = killed (globals h) ++ [length (children h)]
  /\ exit_listeners h4 = exit_listeners h
  /\ objects (globals h4) !! a = Some st
  /\ host_console h4
     = host_console h ++ [ConnectedTo server_info; FailedToConnect TypeError]
  /\ supervisor_console (globals h4)
     = supervisor_console (globals h)
       ++ [ShuttingDown (str "Failed to connect")].
Proof.
  intros Hnone a h3 st Hp Hno h4.
  destruct (init_waiting_fields c k t tr h Hnone)
    as (E1 & E2 & E3 & E4 & E5 & E6 & E7 & E8 & E9 & E10).
  fold a h3 st in E1, E2, E3, E4, E5, E6, E7, E8, E9, E10.
  destruct (listed_linked t tr) as [Hc Hl]. fold st in Hc, Hl.
  assert (objects (globals h3) !! a = Some st) as Hst.
  { rewrite E1. apply lookup_insert_eq. }
  unfold linked, frame_outcome in Hl. cbn [awaited_of outer_of] in Hl.
  rewrite Hp in Hl.
  assert (init_finish a 0 h3 = init_fail TypeError h3) as Hfin.
  { unfold init_finish. rewrite Hst, Hl. unfold init_check.
    destruct result as [v|]; [|done].
    unfold destructure_tools.
    destruct v as [| | | | |fields]; try done.
    destruct (prop (str "tools") (Some (JObject fields)))
      as [[| | | |tools|]|] eqn:Ht; try done.
    by destruct (Hno tools). }
  subst h4. rewrite Hfin.
  destruct (init_fail_fields TypeError h3 _ E2)
    as (F1 & F2 & F3 & F4 & F5 & F6 & F7 & F8 & F9).
  rewrite F1, F2, F3, F4, F5, F6, F8, F9, E4, E5, E7, E10, Hst.
  rewrite <- app_assoc. split_and!; try done.
  intros key' t'. unfold init_enter. by rewrite E3.
Qed.

(** * Exit listeners and signals *)

Lemma host_ok_reachable h : host_reachable h -> host_ok h.
Proof.
  intros (tr & ->). generalize host_ok_new. generalize new_host.
  induction tr as [|e tr IH]; intros h Hok; [done|].
  apply IH. by apply host_ok_step.
Qed.

Lemma exit_listeners_run (proc : nat) code signal l : forall w,
  proc ∈ l ->
  let w' := foldr (fun p w => if decide (p = proc)
                              then on_exit code signal w else w) w l in
  notionMCPServerProcess w' = None /\ notionMCPClient w' = None
  /\ objects w' = objects w /\ killed w' = killed w.
Proof.
  intros w Hin.
  assert (forall l',
    let w' := foldr (fun p w => if decide (p = proc)
                                then on_exit code signal w else w) w l' in
    objects w' = objects w /\ killed w' = killed w) as Hkeep.
  { induction l' as [|p l' [IH1 IH2]]; [done|]. simpl.
    by destruct (decide (p = proc)). }
  induction l as [|p l IH]; [by apply not_elem_of_nil in Hin|].
  simpl. destruct (decide (p = proc)) as [->|Hne].
  - simpl. destruct (Hkeep l) as [-> ->]. done.
  - apply IH. apply elem_of_cons in Hin as [->|Hin]; done.
Qed.

(** The exit listener outlives its server.  Take any state of the host
    in which a server runs with the exit listener attached.  If the server
    is shut down and initialisation starts a new one before the exit event
    of the old process arrives, that event clears both module variables
    although they refer to the new server: the new process was never
    killed, its client object still exists, and the next call of
    [initNotionMCPServer] spawns one more process beside it. *)
Theorem stale_exit_listener_orphans_server h p reason c k t code signal c' k' t' :
  host_reachable h ->
  notionMCPServerProcess (globals h) = Some p ->
  p ∈ exit_listeners h ->
  let h1 := set_globals (shutdownNotionMCPServer reason (globals h)) h in
  let h2 := init_started (c :: k) t h1 in
  let h3 := child_exit p code signal h2 in
  let new := length (children h) in
  notionMCPServerProcess (globals h2) = Some new
  /\ notionMCPClient (globals h2) = Some (init_client h)
  /\ new <> p
  /\ notionMCPServerProcess (globals h3) = None
  /\ notionMCPClient (globals h3) = None
  /\ killed (globals h3) = killed (globals h) ++ [p]
  /\ (new ∉ killed (globals h3))
  /\ is_Some (objects (globals h3) !! init_client h)
  /\ children (init_enter (Some (c' :: k')) t' h3).2
     = children h ++ [c :: k; c' :: k'].
Proof.
  intros Hr Hp Hin h1 h2 h3 new.
  pose proof (host_ok_reachable h Hr) as [H1 H2 H3 H4 H5 H6].
  destruct (shutdown_fields reason (globals h)) as (S1 & S2 & S3 & S4 & S5).
  assert (notionMCPClient (globals h1) = None) as Hnone.
  { apply S3. by eexists. }
  destruct (init_started_fields c k t h1 Hnone)
    as (_ & _ & E1 & E2 & E3 & E4 & E5 & E6 & E7 & E8 & E9 & E10).
  fold h2 in E1, E2, E3, E4, E5, E6, E7, E8, E9, E10.
  assert (init_client h1 = init_client h) as Ha.
  { unfold init_client, h1. cbn [globals set_globals]. by rewrite S4. }
  rewrite Ha in *.
  change (children h1) with (children h) in *.
  change (exit_listeners h1) with (exit_listeners h) in *.
  change (globals h1) with (shutdownNotionMCPServer reason (globals h)) in *.
  rewrite S5, Hp in E4. cbn [option_list] in E4.
  destruct (exit_listeners_run p code signal (exit_listeners h2) (globals h2))
    as (X1 & X2 & X3 & X4); [by rewrite E7|].
  assert (new <> p) as Hne.
  { specialize (H4 p Hp). unfold new. lia. }
  assert (globals h3
          = foldr (fun q w => if decide (q = p)
                              then on_exit code signal w else w)
              (globals h2) (exit_listeners h2)) as Hg by done.
  rewrite Hg, X1, X2, X3, X4, E1, E4.
  split_and!; try done.
  - intros Hk. apply elem_of_app in Hk as [Hk|Hk].
    + specialize (H6 _ Hk). unfold new in Hk. lia.
    + apply list_elem_of_singleton in Hk. done.
  - rewrite lookup_insert_eq. by eexists.
  - unfold init_enter. rewrite Hg, X2. cbn [snd children].
    change (children h3) with (children h2). rewrite E6.
    by rewrite <- app_assoc.
Qed.

Lemma iter_shutdown_idle reason n : forall w,
  notionMCPServerProcess w = None ->
  Nat.iter n (shutdownNotionMCPServer reason) w
  = mkWorld None (notionMCPClient w) (objects w) (killed w)
      (supervisor_console w ++ replicate n (ShuttingDown reason)).
Proof.
  induction n as [|n IH]; intros w Hw.
  - simpl. rewrite app_nil_r. destruct w. simpl in *. by subst.
  - rewrite Nat.iter_succ_r.
    assert (shutdownNotionMCPServer reason w
            = mkWorld None (notionMCPClient w) (objects w) (killed w)
                (supervisor_console w ++ [ShuttingDown reason])) as ->.
    { unfold shutdownNotionMCPServer. by rewrite Hw. }
    rewrite IH by done. simpl. by rewrite <- app_assoc.
Qed.

(** A signal stops the server once.  After [setupShutdownHandlers] has
    run [n] times, with [n] at least one, SIGINT or SIGTERM calls
    [shutdownNotionMCPServer] [n + 1] times, once for the signal and once
    for each listener of the host's exit event, yet a running server is
    sent [kill()] exactly once and an absent one never; both module
    variables end up null when a server ran, no client object is touched,
    the exit listeners of the server are not run, and the host has
    exited.  With no handlers set up the signal ends the host and the
    server is not killed. *)
Theorem signal_kills_server_once name h :
  let h' := on_signal name h in
  host_exited h' = true
  /\ objects (globals h') = objects (globals h)
  /\ children h' = children h
  /\ (shutdown_hooks h = 0%nat -> globals h' = globals h)
  /\ (shutdown_hooks h <> 0%nat ->
        notionMCPServerProcess (globals h') = None
        /\ killed (globals h')
           = killed (globals h)
             ++ option_list (notionMCPServerProcess (globals h))
        /\ (is_Some (notionMCPServerProcess (globals h)) ->
              notionMCPClient (globals h') = None)
        /\ supervisor_console (globals h')
           = supervisor_console (globals h)
             ++ ShuttingDown (name ++ str " signal")
                :: replicate (shutdown_hooks h)
                     (ShuttingDown (str "process exit"))).
Proof.
  intros h'. subst h'. unfold on_signal.
  destruct (shutdown_hooks h) as [|n] eqn:Hn; [by split_and!|].
  destruct (shutdown_fields (name ++ str " signal") (globals h))
    as (S1 & S2 & S3 & S4 & S5).
  unfold host_exit. cbn [globals set_globals shutdown_hooks children
    host_exited]. rewrite Hn.
  rewrite (iter_shutdown_idle _ (S n) _ S1). cbn [objects killed
    notionMCPServerProcess notionMCPClient supervisor_console].
  rewrite S4, S5. split_and!; try done. intros _. split_and!; try done.
  unfold shutdownNotionMCPServer.
  destruct (notionMCPServerProcess (globals h)); cbn [supervisor_console];
    by rewrite <- app_assoc.
Qed.

(** * Markdown to Slack mrkdwn *)

Lemma match_url_sound : forall s g rest,
  match_url s = Some (g, rest) -> s = g ++ 41 :: rest.
Proof.
  induction s as [|c r IH]; intros g rest H; [done|]. simpl in H.
  destruct (N.eqb_spec c 41) as [->|Hc]; [by injection H as <- <-|].
  destruct (is_line_terminator c); [done|].
  destruct (match_url r) as [[g' rest']|]; [|done].
  injection H as <- <-. simpl. f_equal. by apply IH.
Qed.

Lemma match_url_complete b post :
  Forall url_unit b -> match_url (b ++ 41 :: post) = Some (b, post).
Proof.
  induction 1 as [|c b [Hc Hlt] _ IH]; [done|]. simpl.
  destruct (N.eqb_spec c 41); [done|]. by rewrite Hlt, IH.
Qed.

Lemma match_label_sound : forall s g1 g2 rest,
  match_label s = Some (g1, g2, rest) ->
  s = g1 ++ 93 :: 40 :: g2 ++ 41 :: rest.
Proof.
  induction s as [|c r IH]; intros g1 g2 rest H; [done|].
  assert ((if is_line_terminator c then None
           else match match_label r with
                | Some (g1, g2, rest) => Some (c :: g1, g2, rest)
                | None => None
                end) = Some (g1, g2, rest) ->
          c :: r = g1 ++ 93 :: 40 :: g2 ++ 41 :: rest) as Hext.
  { destruct (is_line_terminator c); [done|].
    destruct (match_label r) as [[[g1' g2'] rest']|]; [|done].
    intros [= <- <- <-]. simpl. f_equal. by apply IH. }
  simpl in H. destruct (N.eqb_spec c 93) as [->|Hc]; [|by apply Hext].
  destruct r as [|d r']; [by apply Hext|].
  destruct (N.eqb_spec d 40) as [->|Hd]; [|by apply Hext].
  destruct (match_url r') as [[g2' rest']|] eqn:Hu; [|by apply Hext].
  injection H as <- <- <-. simpl. do 2 f_equal. by apply match_url_sound.
Qed.

Lemma match_label_complete a b post :
  Forall label_unit a -> Forall url_unit b ->
  match_label (a ++ 93 :: 40 :: b ++ 41 :: post) = Some (a, b, post).
Proof.
  intros Ha Hb. induction Ha as [|c a [Hc Hlt] _ IH].
  - simpl. by rewrite (match_url_complete b post Hb).
  - cbn [app match_label]. destruct (N.eqb_spec c 93); [done|].
    by rewrite Hlt, IH.
Qed.

Lemma match_link_sound s g1 g2 rest :
  match_link s = Some (g1, g2, rest) ->
  s = 91 :: g1 ++ 93 :: 40 :: g2 ++ 41 :: rest.
Proof.
  destruct s as [|c r]; [done|]. simpl.
  destruct (N.eqb_spec c 91) as [->|]; [|done].
  intros H. f_equal. by apply match_label_sound.
Qed.

Lemma replace_links_from_enough : forall fuel s,
  (length s <= fuel)%nat ->
  replace_links_from fuel s = replace_links s.
Proof.
  assert (forall n fuel s, (length s <= n)%nat -> (n <= fuel)%nat ->
            replace_links_from fuel s = replace_links_from n s) as Hgen.
  { induction n as [|n IH]; intros fuel s Hs Hf.
    - destruct s; [by destruct fuel|simpl in Hs; lia].
    - destruct fuel as [|fuel]; [lia|]. destruct s as [|c r]; [done|].
      cbn [replace_links_from].
      destruct (match_link (c :: r)) as [[[g1 g2] rest]|] eqn:Hm.
      + apply match_link_sound in Hm.
        assert (length rest <= n)%nat.
        { apply (f_equal length) in Hm. simpl in Hm, Hs.
          rewrite !length_app in Hm. simpl in Hm. rewrite !length_app in Hm.
          simpl in Hm. lia. }
        rewrite (IH fuel rest) by lia. done.
      + simpl in Hs. rewrite (IH fuel r) by lia. done. }
  intros fuel s Hs. unfold replace_links. by apply Hgen.
Qed.

Lemma replace_links_nil : replace_links [] = [].
Proof. done. Qed.

Lemma replace_links_step c r :
  replace_links (c :: r)
  = match match_link (c :: r) with
    | Some (g1, g2, rest) =>
        (60 :: g2) ++ (124 :: g1) ++ 62 :: replace_links rest
    | None => c :: replace_links r
    end.
Proof.
  unfold replace_links at 1. cbn [length replace_links_from].
  destruct (match_link (c :: r)) as [[[g1 g2] rest]|] eqn:Hm.
  - apply match_link_sound in Hm. rewrite replace_links_from_enough; [done|].
    apply (f_equal length) in Hm. simpl in Hm.
    rewrite !length_app in Hm. simpl in Hm. rewrite !length_app in Hm.
    simpl in Hm. lia.
  - by rewrite replace_links_from_enough.
Qed.

Lemma replace_links_prefix pre s :
  91 ∉ pre -> replace_links (pre ++ s) = pre ++ replace_links s.
Proof.
  induction pre as [|c pre IH]; intros Hn; [done|].
  cbn [app]. rewrite replace_links_step. cbn [match_link].
  destruct (N.eqb_spec c 91) as [->|Hc]; [set_solver|].
  rewrite IH; [done|set_solver].
Qed.

Lemma replace_stars_head c y :
  c <> 42 -> replace_stars (c :: y) = c :: replace_stars y.
Proof.
  intros Hc. destruct y as [|d y]; [done|]. cbn [replace_stars].
  by destruct (N.eqb_spec c 42).
Qed.

Lemma replace_stars_sep x c y :
  c <> 42 -> replace_stars (x ++ c :: y) = replace_stars x ++ c :: replace_stars y.
Proof.
  intros Hc. revert x.
  assert (forall n x, (length x <= n)%nat ->
            replace_stars (x ++ c :: y)
            = replace_stars x ++ c :: replace_stars y) as Hgen.
  { induction n as [|n IH]; intros x Hx.
    - destruct x; [|simpl in Hx; lia]. by apply replace_stars_head.
    - destruct x as [|a [|b x]].
      + by apply replace_stars_head.
      + change (replace_stars ([a] ++ c :: y))
          with (if (a =? 42) && (c =? 42) then 42 :: replace_stars y
                else a :: replace_stars (c :: y)).
        destruct (N.eqb_spec c 42); [done|]. rewrite andb_false_r.
        by rewrite replace_stars_head.
      + change (replace_stars ((a :: b :: x) ++ c :: y))
          with (if (a =? 42) && (b =? 42)
                then 42 :: replace_stars (x ++ c :: y)
                else a :: replace_stars ((b :: x) ++ c :: y)).
        change (replace_stars (a :: b :: x))
          with (if (a =? 42) && (b =? 42) then 42 :: replace_stars x
                else a :: replace_stars (b :: x)).
        simpl in Hx.
        destruct ((a =? 42) && (b =? 42)).
        * rewrite (IH x) by lia. done.
        * rewrite (IH (b :: x)) by (simpl; lia). done. }
  intros x. by apply (Hgen (length x)).
Qed.

Lemma replace_links_shrinks s :
  (length (replace_links s) <= length s)%nat
  /\ (length (replace_links s) = length s -> replace_links s = s).
Proof.
  assert (forall n s, (length s <= n)%nat ->
    (length (replace_links s) <= length s)%nat
    /\ (length (replace_links s) = length s -> replace_links s = s)) as Hgen.
  { clear s. induction n as [|n IH]; intros s Hs.
    - destruct s; [done|simpl in Hs; lia].
    - destruct s as [|c r]; [done|]. rewrite replace_links_step.
      destruct (match_link (c :: r)) as [[[g1 g2] rest]|] eqn:Hm.
      + apply match_link_sound in Hm.
        assert (length (c :: r) = length g1 + length g2 + length rest + 4)%nat
          as Hlen.
        { rewrite Hm. simpl. rewrite !length_app. simpl.
          rewrite !length_app. simpl. lia. }
        destruct (IH rest) as [Hle _]; [simpl in Hs, Hlen; lia|].
        cbn [app length] in *. rewrite !length_app. cbn [length].
        rewrite !length_app. cbn [length]. split; [lia|intros; lia].
      + destruct (IH r) as [Hle Heq]; [simpl in Hs; lia|].
        cbn [length]. split; [lia|]. intros H. f_equal. apply Heq. lia. }
  by apply (Hgen (length s)).
Qed.

Lemma replace_stars_shrinks s :
  (length (replace_stars s) <= length s)%nat
  /\ (length (replace_stars s) = length s -> replace_stars s = s).
Proof.
  assert (forall n s, (length s <= n)%nat ->
    (length (replace_stars s) <= length s)%nat
    /\ (length (replace_stars s) = length s -> replace_stars s = s)) as Hgen.
  { clear s. induction n as [|n IH]; intros s Hs.
    - destruct s; [done|simpl in Hs; lia].
    - destruct s as [|c [|d r]]; [done|done|].
      change (replace_stars (c :: d :: r))
        with (if (c =? 42) && (d =? 42) then 42 :: replace_stars r
              else c :: replace_stars (d :: r)).
      simpl in Hs.
      destruct ((c =? 42) && (d =? 42)).
      + destruct (IH r) as [Hle _]; [lia|]. cbn [length].
        split; [lia|intros; lia].
      + destruct (IH (d :: r)) as [Hle Heq]; [simpl; lia|].
        cbn [length] in *. split; [lia|]. intros H. f_equal. apply Heq. lia. }
  by apply (Hgen (length s)).
Qed.

Lemma replace_stars_plain s :
  (forall pre post, s <> pre ++ 42 :: 42 :: post) -> replace_stars s = s.
Proof.
  assert (forall n s, (length s <= n)%nat ->
    (forall pre post, s <> pre ++ 42 :: 42 :: post) -> replace_stars s = s)
    as Hgen.
  { clear s. induction n as [|n IH]; intros s Hs Hno.
    - destruct s; [done|simpl in Hs; lia].
    - destruct s as [|c [|d r]]; [done|done|].
      change (replace_stars (c :: d :: r))
        with (if (c =? 42) && (d =? 42) then 42 :: replace_stars r
              else c :: replace_stars (d :: r)).
      destruct (N.eqb_spec c 42) as [->|Hc].
      + destruct (N.eqb_spec d 42) as [->|Hd]; [by destruct (Hno [] r)|].
        cbn [andb]. f_equal. apply IH; [simpl in *; lia|].
        intros pre post H. apply (Hno (42 :: pre) post). by rewrite H.
      + cbn [andb]. f_equal. apply IH; [simpl in *; lia|].
        intros pre post H. apply (Hno (c :: pre) post). by rewrite H. }
  by apply (Hgen (length s)).
Qed.

(** Conversion to mrkdwn only ever shortens.  The converted text is never
    longer than the model's text; it has the same length only when it is
    the same text; and a text with no opening bracket and no two adjacent
    asterisks is returned as it is.  Each converted link and each pair of
    asterisks costs exactly one code unit. *)
Theorem formattedText_shrinks text :
  (length (formattedText text) <= length text)%nat
  /\ (length (formattedText text) = length text -> formattedText text = text)
  /\ (91 ∉ text ->
      (forall pre post, text <> pre ++ 42 :: 42 :: post) ->
      formattedText text = text).
Proof.
  unfold formattedText.
  destruct (replace_links_shrinks text) as [L1 L2].
  destruct (replace_stars_shrinks (replace_links text)) as [S1 S2].
  split_and!.
  - lia.
  - intros H. rewrite S2 by lia. apply L2. lia.
  - intros Hb Hs.
    pose proof (replace_links_prefix text [] Hb) as Hp.
    change (replace_links []) with (@nil N) in Hp.
    rewrite !app_nil_r in Hp. rewrite Hp. by apply replace_stars_plain.
Qed.

(** A markdown link becomes a Slack link, and the asterisk rule then runs
    over its parts.  For a text with no opening bracket before the link, a
    label without closing bracket and line terminator and a target without
    closing parenthesis and line terminator: the link [[label](target)] is
    replaced by [<target|label>], the text after the closing parenthesis
    is converted on its own, and the replacement of [**] by [*] is applied
    separately to the text before, to the target and to the label; a
    target that contains [**] is therefore changed. *)
Theorem link_becomes_slack_link pre label target post :
  91 ∉ pre ->
  Forall label_unit label ->
  Forall url_unit target ->
  replace_links (pre ++ 91 :: label ++ 93 :: 40 :: target ++ 41 :: post)
  = pre ++ 60 :: target ++ 124 :: label ++ 62 :: replace_links post
  /\ formattedText (pre ++ 91 :: label ++ 93 :: 40 :: target ++ 41 :: post)
     = replace_stars pre ++ 60 :: replace_stars target
       ++ 124 :: replace_stars label ++ 62 :: formattedText post.
Proof.
  intros Hpre Hl Ht.
  assert (replace_links (pre ++ 91 :: label ++ 93 :: 40 :: target ++ 41 :: post)
          = pre ++ 60 :: target ++ 124 :: label ++ 62 :: replace_links post)
    as Hlinks.
  { rewrite (replace_links_prefix _ _ Hpre), replace_links_step.
    cbn [match_link]. change (91 =? 91) with true. cbv iota.
    rewrite (match_label_complete label target post Hl Ht).
    cbn [app]. by rewrite <- ?app_assoc. }
  split; [done|]. unfold formattedText. rewrite Hlinks.
  by rewrite !replace_stars_sep.
Qed.

Lemma replace_links_head post :
  head post <> Some 42 -> head (replace_links post) <> Some 42.
Proof.
  destruct post as [|c r]; [done|]. rewrite replace_links_step.
  by destruct (match_link (c :: r)) as [[[g1 g2] rest]|].
Qed.

Lemma replace_stars_run post :
  head post <> Some 42 ->
  forall n, replace_stars (replicate n 42 ++ post)
            = replicate (Nat.div2 (S n)) 42 ++ replace_stars post.
Proof.
  intros Hpost.
  assert (forall n,
    replace_stars (replicate n 42 ++ post)
    = replicate (Nat.div2 (S n)) 42 ++ replace_stars post
    /\ replace_stars (replicate (S n) 42 ++ post)
       = replicate (Nat.div2 (S (S n))) 42 ++ replace_stars post) as Hgen.
  { induction n as [|n [IH1 IH2]].
    - split; [done|]. cbn [replicate app Nat.div2].
      destruct post as [|d r]; [done|].
      change (replace_stars (42 :: d :: r))
        with (if (42 =? 42) && (d =? 42) then 42 :: replace_stars r
              else 42 :: replace_stars (d :: r)).
      destruct (N.eqb_spec d 42) as [->|Hd]; [done|]. done.
    - split; [done|].
      change (replace_stars (replicate (S (S n)) 42 ++ post))
        with (42 :: replace_stars (replicate n 42 ++ post)).
      rewrite IH1. done. }
  intros n. apply Hgen.
Qed.

(** A run of asterisks is halved, rounding up.  Where [n] asterisks are
    followed by something else, and no link starts before them, they
    become [(n + 1) / 2] asterisks: [**] becomes [*], but [***] and [****]
    both become [**], so the converted text can still contain [**] and
    converting twice is not converting once. *)
Theorem asterisk_run_halved n post :
  head post <> Some 42 ->
  formattedText (replicate n 42 ++ post)
  = replicate (Nat.div2 (S n)) 42 ++ formattedText post.
Proof.
  intros Hpost. unfold formattedText.
  rewrite replace_links_prefix.
  - apply replace_stars_run. by apply replace_links_head.
  - intros Hin. apply elem_of_replicate in Hin as [? _]. done.
Qed.

(** * The searchNotion tool *)

Lemma or_default_filled v d : d <> [] -> filled (or_default v d).
Proof.
  intros Hd. unfold filled, or_default. destruct v as [x|].
  - destruct (truthy (Some x)) eqn:Hx; [done|]. by destruct d.
  - by destruct d.
Qed.

Lemma or_default_empty v :
  filled (or_default v []) \/ or_default v [] = JString [].
Proof.
  unfold filled, or_default. destruct v as [x|]; [|by right].
  destruct (truthy (Some x)) eqn:Hx; [by left|by right].
Qed.

Lemma format_result_fields result f :
  format_result result = Some f ->
  result <> JNull
  /\ filled (title f)
  /\ (filled (url f) \/ url f = JString [])
  /\ (filled (lastEditedTime f) \/ lastEditedTime f = JString [])
  /\ (filled (snippet f) \/ snippet f = JString []).
Proof.
  unfold format_result. intros H.
  assert (result <> JNull) as Hn by (by destruct result).
  assert (f = mkFormatted
              (or_default (prop (str "title") (Some result)) (str "Untitled"))
              (or_default (prop (str "url") (Some result)) [])
              (or_default (prop (str "last_edited_time") (Some result)) [])
              (or_default (prop (str "snippet") (Some result)) [])) as ->.
  { destruct result; try done; by injection H as <-. }
  cbn [title url lastEditedTime snippet]. split_and!; try done;
    first [by apply or_default_filled | apply or_default_empty].
Qed.

Lemma format_result_defined result :
  result <> JNull -> is_Some (format_result result).
Proof. destruct result; try done; by eexists. Qed.

Lemma map_results_array elems :
  (JNull ∈ elems -> map_results (JArray elems) = None)
  /\ (JNull ∉ elems ->
      exists l, map_results (JArray elems) = Some l
                /\ length l = length elems).
Proof.
  cbn [map_results]. split.
  - intros Hin. destruct (mapM format_result elems) as [l|] eqn:Hm; [|done].
    apply mapM_Some in Hm.
    destruct (proj1 (list_elem_of_lookup _ _) Hin) as [i Hi].
    destruct (Forall2_lookup_l _ _ _ _ _ Hm Hi) as (f & _ & Hf). done.
  - intros Hn.
    assert (is_Some (mapM format_result elems)) as [l Hl].
    { apply mapM_is_Some. apply Forall_forall. intros x Hx.
      apply format_result_defined. by intros ->. }
    exists l. split; [done|]. apply mapM_Some in Hl.
    symmetry. by eapply Forall2_length.
Qed.

(** Once the status update of lines 43-45 has returned, the reply of
    [execute] is well formed whatever the server answered and whatever
    was thrown inside the [try].  [success] is false exactly when the message
    is the error text; a message that counts documents counts the entries
    of [results], and there is at least one; with the other two messages
    [results] is empty; every formatted result has a title that is neither
    empty nor null, false or zero, and its three other fields either hold
    such a value of the server or are the empty string. *)
Theorem execute_reply_shape o :
  let r := execute_reply o in
  (success r = false <-> exists e, reply_message r = ErrorSearching e)
  /\ (forall n, reply_message r = FoundDocuments n ->
        n = length (results r) /\ n <> 0%nat)
  /\ ((forall n, reply_message r <> FoundDocuments n) -> results r = [])
  /\ Forall (fun f =>
       filled (title f)
       /\ (filled (url f) \/ url f = JString [])
       /\ (filled (lastEditedTime f) \/ lastEditedTime f = JString [])
       /\ (filled (snippet f) \/ snippet f = JString [])) (results r).
Proof.
  assert (forall r, r = no_documents \/ (exists e, r = search_failure e) ->
    (success r = false <-> exists e, reply_message r = ErrorSearching e)
    /\ (forall n, reply_message r = FoundDocuments n ->
          n = length (results r) /\ n <> 0%nat)
    /\ ((forall n, reply_message r <> FoundDocuments n) -> results r = [])
    /\ Forall (fun f =>
         filled (title f)
         /\ (filled (url f) \/ url f = JString [])
         /\ (filled (lastEditedTime f) \/ lastEditedTime f = JString [])
         /\ (filled (snippet f) \/ snippet f = JString [])) (results r))
    as Hsimple.
  { intros r [->|[e ->]]; cbn; split_and!; try done.
    - split; [done|]. by intros [e ?].
    - split; [by eexists|done]. }
  intros r. subst r. destruct o as [sr|e]; [|apply Hsimple; right; by eexists].
  cbn [execute_reply].
  destruct (truthy sr); cbn [negb]; [|by apply Hsimple; left].
  destruct (prop (str "results") sr) as [found|]; [|by apply Hsimple; left].
  destruct (truthy (Some found)); cbn [negb]; [|by apply Hsimple; left].
  destruct (length_is_zero found) eqn:Hz; [by apply Hsimple; left|].
  destruct (map_results found) as [l|] eqn:Hm;
    [|apply Hsimple; right; by eexists].
  destruct found as [| | | |elems|]; try done. cbn [map_results] in Hm.
  apply mapM_Some in Hm. cbn.
  split_and!.
  - split; [done|]. by intros [e ?].
  - intros n [= <-]. split; [done|].
    cbn [length_is_zero] in Hz. apply bool_decide_eq_false in Hz.
    apply Forall2_length in Hm. destruct elems; [done|]. simpl in Hm. lia.
  - intros Hn. by destruct (Hn (length l)).
  - apply Forall_forall. intros f Hf.
    destruct (proj1 (list_elem_of_lookup _ _) Hf) as [i Hi].
    destruct (Forall2_lookup_r _ _ _ _ _ Hm Hi) as (x & _ & Hx).
    by apply format_result_fields in Hx as (_ & ?).
Qed.

(** One null entry fails the whole search.  When the server's [results]
    is a non-empty array, the reply counts and formats all its entries if
    none is null, and is the failure reply with a TypeError if any entry is
    null, however many other entries there are; a truthy [results] of
    non-zero length that is no array always gives that failure. *)
Theorem null_entry_fails_search searchResults found :
  prop (str "results") searchResults = Some found ->
  truthy (Some found) = true ->
  length_is_zero found = false ->
  let r := execute_reply (SearchResolved searchResults) in
  (forall elems, found = JArray elems -> JNull ∈ elems ->
     r = search_failure TypeError)
  /\ (forall elems, found = JArray elems -> JNull ∉ elems ->
        success r = true
        /\ reply_message r = FoundDocuments (length elems)
        /\ length (results r) = length elems)
  /\ ((forall elems, found <> JArray elems) -> r = search_failure TypeError).
Proof.
  intros Hp Ht Hz r. subst r. cbn [execute_reply].
  assert (truthy searchResults = true) as ->.
  { destruct searchResults as [[]|]; done. }
  cbn [negb]. rewrite Hp, Ht, Hz. cbn [negb]. split_and!.
  - intros elems -> Hin.
    by rewrite (proj1 (map_results_array elems) Hin).
  - intros elems -> Hn.
    destruct (proj2 (map_results_array elems) Hn) as (l & -> & Hl).
    cbn. by rewrite Hl.
  - intros Hno. destruct found as [| | | |elems|]; try done.
    by destruct (Hno elems).
Qed.

(** A search whose request times out is reported, not thrown.  After
    [execute] has sent its tools/call request for API-post-search, for as
    long as at most [2^53 + 1] requests were sent on the client: while the
    request's promise is pending [execute] has not answered, the timer of
    the request is armed and due within 10000 ms, and once that timer has
    run [execute] returns the failure reply whose message carries the
    timeout error of tools/call, with no results. *)
Theorem search_reports_timeout st tr query :
  reachable st ->
  let p := length (promises st) in
  let st1 := run tr (step (CallSendRequest (str "tools/call")
                             (search_params query)) st) in
  N.of_nat (length (stdin st1)) <= 2 ^ 53 + 1 ->
  promises st1 !! p = Some Pending ->
  execute_outcome (promises st1 !! p) = None
  /\ exists t,
       timers st1 !! p = Some t
       /\ tm_due t <= now st1 + 10000
       /\ execute_outcome
            (promises (step (TimerDue p)
                         (step (Elapse (tm_due t - now st1)) st1)) !! p)
          = Some (search_failure
                    (Thrown (timeout_message (str "tools/call")))).
Proof.
  intros Hr p st1 Hb Hp.
  pose proof (reachable_consistent st Hr) as Hc.
  assert (reachable st1) as Hr1.
  { apply reachable_run. by apply reachable_step. }
  split; [by rewrite Hp|].
  destruct (pending_registered st1 p Hr1 Hb Hp)
    as (rq & t & Hrq & Hq & Ht & Hid & Hm & Hdue).
  exists t. split_and!; try done.
  destruct (due_timer_runs st1 p t (tm_due t - now st1)
              (reachable_consistent st1 Hr1) Ht) as (_ & T & _); [lia|].
  destruct T as (_ & T & _); [rewrite Hid, Hq; by eexists|].
  rewrite T, Hm.
  assert (stdin st1 !! p
          = Some (mkRequest (str "2.0") (String_of_number (messageId st))
                    (str "tools/call") (search_params query))) as Hrq'.
  { apply run_stdin_keeps; [by apply consistent_step|].
    rewrite step_stdin, handle_stdin by done. cbn [written_by].
    unfold p. rewrite (con_length _ Hc). by apply list_lookup_middle. }
  rewrite Hrq in Hrq'. by injection Hrq' as ->.
Qed.

(** * Instances of the further properties *)

Lemma reachable_settled : reachable settled_client.
Proof.
  exists 0, [CallSendRequest (str "tools/call") (JObject []);
             StdoutData (wire "{'id':'0','result':{}}|")].
  reflexivity.
Defined.

Lemma host_reachable_sample : host_reachable sample_host.
Proof.
  exists [HInitEnter (Some sample_key) 0; HInitListTools;
          HClient 0 (Elapse 10000); HClient 0 (TimerDue 0);
          HInitFinish 0 0].
  reflexivity.
Defined.

(** The answered request stays fulfilled through a repeated answer and
    its former timer event. *)
Lemma settled_for_good_witness :
  reachable settled_client
  /\ promises (run [StdoutData (wire "{'id':'0','result':{}}|");
                    Elapse 10000; TimerDue 0] settled_client) !! 0%nat
     = Some (Fulfilled (Some (JObject []))).
Proof.
  split; [exact reachable_settled|].
  apply (proj1 (settled_for_good settled_client
                  [StdoutData (wire "{'id':'0','result':{}}|");
                   Elapse 10000; TimerDue 0] reachable_settled)).
  - vm_compute; reflexivity.
  - discriminate.
Defined.

(** An answer with the number 7 as identifier changes only the console. *)
Lemma unmatched_envelope_dropped_witness :
  startsWith_brace numeric_id_message = true
  /\ JSON_parse numeric_id_message = Some numeric_id_response
  /\ same_but_console one_pending_client
       (handle_message numeric_id_message one_pending_client).
Proof.
  assert (startsWith_brace numeric_id_message = true) as H1
    by (vm_compute; reflexivity).
  assert (JSON_parse numeric_id_message = Some numeric_id_response) as H2
    by (vm_compute; reflexivity).
  assert (forall s,
            prop (str "id") (Some numeric_id_response) = Some (JString s) ->
            messageQueue one_pending_client !! s = None) as H3.
  { intros s H. vm_compute in H. discriminate H. }
  split; [exact H1|]. split; [exact H2|].
  exact (proj1 (unmatched_envelope_dropped one_pending_client
                  numeric_id_message numeric_id_response H1 H2 H3)).
Defined.

(** One pending request: one promise for one written request. *)
Lemma table_timers_promises_witness :
  reachable one_pending_client
  /\ length (promises one_pending_client) = length (stdin one_pending_client).
Proof.
  split; [exact reachable_one_pending|].
  exact (proj1 (table_timers_promises one_pending_client
                  reachable_one_pending)).
Defined.

(** [listTools] on a client with one request out writes one more. *)
Lemma one_request_per_call_witness :
  reachable one_pending_client
  /\ stdin (step CallListTools one_pending_client)
     = stdin one_pending_client ++ written_by CallListTools one_pending_client.
Proof.
  split; [exact reachable_one_pending|].
  exact (proj1 (one_request_per_call one_pending_client [] CallListTools
                  reachable_one_pending)).
Defined.

(** The one pending request is rejected once its timer has run. *)
Lemma pending_call_times_out_witness :
  reachable one_pending_client
  /\ N.of_nat (length (stdin one_pending_client)) <= 2 ^ 53 + 1
  /\ promises one_pending_client !! 0%nat = Some Pending
  /\ exists rq t,
       stdin one_pending_client !! 0%nat = Some rq
       /\ messageQueue one_pending_client !! rq_id rq = Some (mkPending 0 0)
       /\ timers one_pending_client !! 0%nat = Some t
       /\ tm_due t <= now one_pending_client + 10000
       /\ promises (step (TimerDue 0)
                      (step (Elapse (tm_due t - now one_pending_client))
                         one_pending_client)) !! 0%nat
          = Some (Rejected (timeout_message (rq_method rq))).
Proof.
  assert (N.of_nat (length (stdin one_pending_client)) <= 2 ^ 53 + 1) as H2
    by (vm_compute; discriminate).
  assert (promises one_pending_client !! 0%nat = Some Pending) as H3
    by (vm_compute; reflexivity).
  split; [exact reachable_one_pending|]. split; [exact H2|].
  split; [exact H3|].
  exact (pending_call_times_out one_pending_client 0
           reachable_one_pending H2 H3).
Defined.

(** The parsed error response is an object. *)
Lemma parsed_line_is_object_witness :
  startsWith_brace boom_message = true
  /\ JSON_parse boom_message = Some boom_response
  /\ exists fields, boom_response = JObject fields.
Proof.
  assert (startsWith_brace boom_message = true) as H1
    by (vm_compute; reflexivity).
  assert (JSON_parse boom_message = Some boom_response) as H2
    by (vm_compute; reflexivity).
  split; [exact H1|]. split; [exact H2|].
  exact (parsed_line_is_object boom_message boom_response H1 H2).
Defined.

(** A chunk of white space only adds the raw line to the console. *)
Lemma blank_chunk_ignored_witness :
  Forall (fun c => is_trim_space c = true) blank_chunk
  /\ on_data blank_chunk one_pending_client
     = log (RawResponse blank_chunk) one_pending_client.
Proof.
  assert (Forall (fun c => is_trim_space c = true) blank_chunk) as H1.
  { unfold blank_chunk.
    repeat (constructor; [reflexivity|]). constructor. }
  split; [exact H1|].
  exact (blank_chunk_ignored blank_chunk one_pending_client H1).
Defined.

(** In the sample host both module variables are set. *)
Lemma module_variables_paired_witness :
  host_reachable sample_host
  /\ (notionMCPServerProcess (globals sample_host) = None
      <-> notionMCPClient (globals sample_host) = None).
Proof.
  split; [exact host_reachable_sample|].
  exact (proj1 (module_variables_paired sample_host host_reachable_sample)).
Defined.

(** The tool list of the official server passes the check. *)
Lemma named_tools_pass_check_witness :
  prop (str "tools") (Some sample_tools_result) = Some (JArray sample_tools)
  /\ Forall named_tool sample_tools
  /\ notionMCPServerProcess (globals (init_started sample_key 0 new_host))
     = Some 0%nat
  /\ (init_check (Some sample_tools_result)
        (init_started sample_key 0 new_host)).1
     = InitDone (InitReturned
         (notionMCPClient (globals (init_started sample_key 0 new_host)))).
Proof.
  assert (prop (str "tools") (Some sample_tools_result)
          = Some (JArray sample_tools)) as H1 by (vm_compute; reflexivity).
  assert (Forall named_tool sample_tools) as H2.
  { constructor; [|constructor].
    exists [(str "name", JString (str "API-post-search"))],
           (str "API-post-search").
    split; [reflexivity|vm_compute; reflexivity]. }
  assert (notionMCPServerProcess (globals (init_started sample_key 0 new_host))
          = Some 0%nat) as H3 by (vm_compute; reflexivity).
  split; [exact H1|]. split; [exact H2|]. split; [exact H3|].
  exact (proj1 (named_tools_pass_check sample_tools_result sample_tools 0
                  (init_started sample_key 0 new_host) H1 H2 H3)).
Defined.

(** Initialisation returns the client after tools/list timed out. *)
Lemma init_survives_failed_listing_witness :
  notionMCPClient (globals new_host) = None
  /\ (init_finish (init_client new_host) 0
        (client_events (init_client new_host) [Elapse 10000; TimerDue 0]
           (init_started sample_key 0 new_host))).1
     = InitDone (InitReturned (Some (init_client new_host))).
Proof.
  assert (notionMCPClient (globals new_host) = None) as H1 by reflexivity.
  split; [exact H1|].
  apply (proj2 (proj2 (init_survives_failed_listing 115 (str "ecret") 0
                         [Elapse 10000; TimerDue 0] new_host H1))
           (timeout_message (str "tools/list"))).
  vm_compute; reflexivity.
Defined.

(** Initialisation throws when tools/list is answered by an empty
    object. *)
Lemma init_fails_without_tool_list_witness :
  notionMCPClient (globals new_host) = None
  /\ promises (run [StdoutData (wire "{'id':'0','result':{}}")]
                 (step CallListTools (new_StdioClient 0))) !! 0%nat
     = Some (Fulfilled (Some (JObject [])))
  /\ (init_finish (init_client new_host) 0
        (client_events (init_client new_host)
           [StdoutData (wire "{'id':'0','result':{}}")]
           (init_started sample_key 0 new_host))).1
     = InitDone (InitThrew TypeError).
Proof.
  assert (notionMCPClient (globals new_host) = None) as H1 by reflexivity.
  assert (promises (run [StdoutData (wire "{'id':'0','result':{}}")]
                      (step CallListTools (new_StdioClient 0))) !! 0%nat
          = Some (Fulfilled (Some (JObject [])))) as H2
    by (vm_compute; reflexivity).
  assert (forall tools,
            prop (str "tools") (Some (JObject [])) <> Some (JArray tools))
    as H3 by (intros tools H; discriminate H).
  split; [exact H1|]. split; [exact H2|].
  exact (proj1 (proj2 (init_fails_without_tool_list 115 (str "ecret") 0
                         [StdoutData (wire "{'id':'0','result':{}}")]
                         new_host (Some (JObject [])) H1 H2 H3))).
Defined.

(** The sample host loses its second server to the exit of the first. *)
Lemma stale_exit_listener_orphans_server_witness :
  host_reachable sample_host
  /\ notionMCPServerProcess (globals sample_host) = Some 0%nat
  /\ 0%nat ∈ exit_listeners sample_host
  /\ notionMCPServerProcess
       (globals
          (child_exit 0 (Some 0) None
             (init_started sample_key 5
                (set_globals
                   (shutdownNotionMCPServer (str "restart")
                      (globals sample_host)) sample_host)))) = None.
Proof.
  assert (notionMCPServerProcess (globals sample_host) = Some 0%nat) as H2
    by (vm_compute; reflexivity).
  assert (0%nat ∈ exit_listeners sample_host) as H3.
  { refine (bool_decide_unpack _ _). vm_compute. exact I. }
  split; [exact host_reachable_sample|]. split; [exact H2|].
  split; [exact H3|].
  exact (proj1 (proj2 (proj2 (proj2
    (stale_exit_listener_orphans_server sample_host 0 (str "restart")
       115 (str "ecret") 5 (Some 0) None 115 (str "ecret") 9
       host_reachable_sample H2 H3))))).
Defined.

(** The sample link, with its doubled asterisk in the target. *)
Lemma link_becomes_slack_link_witness :
  (91 ∉ sample_pre)
  /\ Forall label_unit sample_label
  /\ Forall url_unit sample_target
  /\ replace_links (sample_pre ++ 91 :: sample_label
                      ++ 93 :: 40 :: sample_target ++ 41 :: sample_post)
     = sample_pre ++ 60 :: sample_target
       ++ 124 :: sample_label ++ 62 :: replace_links sample_post.
Proof.
  assert (91 ∉ sample_pre) as H1.
  { refine (bool_decide_unpack _ _). vm_compute. exact I. }
  assert (Forall label_unit sample_label) as H2.
  { unfold sample_label.
    repeat (constructor; [split; [discriminate|reflexivity]|]).
    constructor. }
  assert (Forall url_unit sample_target) as H3.
  { unfold sample_target.
    repeat (constructor; [split; [discriminate|reflexivity]|]).
    constructor. }
  split; [exact H1|]. split; [exact H2|]. split; [exact H3|].
  exact (proj1 (link_becomes_slack_link sample_pre sample_label
                  sample_target sample_post H1 H2 H3)).
Defined.

(** Three asterisks before other text become two. *)
Lemma asterisk_run_halved_witness :
  head sample_post <> Some 42
  /\ formattedText (replicate 3 42 ++ sample_post)
     = replicate 2 42 ++ formattedText sample_post.
Proof.
  assert (head sample_post <> Some 42) as H1 by discriminate.
  split; [exact H1|].
  exact (asterisk_run_halved 3 sample_post H1).
Defined.

(** The null entry fails the sample search. *)
Lemma null_entry_fails_search_witness :
  prop (str "results") sample_searchResults = Some sample_found
  /\ truthy (Some sample_found) = true
  /\ length_is_zero sample_found = false
  /\ execute_reply (SearchResolved sample_searchResults)
     = search_failure TypeError.
Proof.
  assert (prop (str "results") sample_searchResults = Some sample_found)
    as H1 by (vm_compute; reflexivity).
  assert (truthy (Some sample_found) = true) as H2 by reflexivity.
  assert (length_is_zero sample_found = false) as H3 by reflexivity.
  split; [exact H1|]. split; [exact H2|]. split; [exact H3|].
  apply (proj1 (null_entry_fails_search sample_searchResults sample_found
                  H1 H2 H3)
           [JObject [(str "title", JString (str "Roadmap"))]; JNull]).
  - reflexivity.
  - apply elem_of_cons. right. apply elem_of_cons. left. reflexivity.
Defined.

(** A search on a fresh client that gets no answer. *)
Lemma search_reports_timeout_witness :
  reachable (new_StdioClient 0)
  /\ promises (step (CallSendRequest (str "tools/call")
                       (search_params (str "roadmap")))
                 (new_StdioClient 0)) !! 0%nat = Some Pending
  /\ execute_outcome
       (promises (step (CallSendRequest (str "tools/call")
                          (search_params (str "roadmap")))
                    (new_StdioClient 0)) !! 0%nat) = None.
Proof.
  assert (N.of_nat (length (stdin (run []
            (step (CallSendRequest (str "tools/call")
                     (search_params (str "roadmap")))
               (new_StdioClient 0))))) <= 2 ^ 53 + 1) as H2
    by (vm_compute; discriminate).
  assert (promises (run [] (step (CallSendRequest (str "tools/call")
                                    (search_params (str "roadmap")))
                              (new_StdioClient 0))) !! 0%nat = Some Pending)
    as H3 by (vm_compute; reflexivity).
  split; [exact reachable_fresh|]. split; [exact H3|].
  exact (proj1 (search_reports_timeout (new_StdioClient 0) []
                  (str "roadmap") reachable_fresh H2 H3)).
Defined.
